(** * Background removal pipeline of [remove-grey-bg.js]

    A shallow embedding of the pixel stages of the cutout pipeline
    (classifier, border-seeded flood fill, density-based shadow cleanup,
    largest-component selection, edge feathering) and the properties the
    specification states about them. A second part, [Further properties],
    covers what the specification leaves out: more of the stages, the batch
    driver [main], and from [smart-update.js] the cut-out of
    [removeBgSingle] and the menu comparison of [findChanges].

    Conventions of the embedding.
    - JavaScript numbers that hold pixel indices, coordinates and counters
      are integers of [Z]; [idx % width] is [Z.rem] and
      [Math.floor(idx / width)] is [Z.div].
    - A [Uint8Array] that only ever holds 0 or 1 is a [list bool]; a read
      outside the array gives [undefined], which is falsy, and a write
      outside a typed array is ignored.
    - The raster buffer is a [list Z] of bytes; a read outside it gives
      [None] ([undefined]), and arithmetic on it gives [NaN], every
      comparison with which is false.
    - Quotients that the source compares with a constant ([brightness],
      [transparent / total]) are rationals of [Q]: on the integers that can
      occur the double-precision comparison and the exact one agree.
    - [while] loops over a work list take fuel and return [None] when it
      runs out; the functions that call them supply a bound, and the bound
      is proved sufficient.
    - The file system that [main] reads and writes is a value passed from
      call to call; a call of [fs] that throws returns [None].
    - A JSON object that is iterated is the list of its entries; one that
      is only written and read by key is a [gmap]. *)

From Stdlib Require Import ZArith QArith Lia List.
From stdpp Require Import base list numbers strings gmap.

Open Scope Z_scope.

(** ** Typed arrays *)

Module Arr.

(** Truthiness of [a[i]] for a [Uint8Array] of flags. *)
Definition get (a : list bool) (i : Z) : bool :=
  if i <? 0 then false else default false (a !! Z.to_nat i).

(** [a[i] = 1]. *)
Definition set (a : list bool) (i : Z) : list bool :=
  if i <? 0 then a else <[Z.to_nat i := true]> a.

(** [data[i]] for the byte buffer: [None] is [undefined]. *)
Definition byte (data : list Z) (i : Z) : option Z :=
  if i <? 0 then None else data !! Z.to_nat i.

(** [data[i] = v] on the byte buffer. *)
Definition setByte (data : list Z) (i v : Z) : list Z :=
  if i <? 0 then data else <[Z.to_nat i := v]> data.

(** [a[i]] and [a[i] = v] for an [Int32Array] or a [Float32Array]. *)
Definition int (a : list Z) (i : Z) : option Z := byte a i.
Abbreviation setInt := setByte.

(** Number of entries that are set. *)
Definition count (a : list bool) : Z :=
  Z.of_nat (length (filter (λ b : bool, b = true) a)).

(** Number of entries that are clear. *)
Definition zeros (a : list bool) : nat :=
  length (filter (λ b : bool, b = false) a).

End Arr.

(** ** Stage 1: the background classifier *)

(** [(r + g + b) / 3] *)
Definition brightnessOf (r g b : Z) : Q := inject_Z (r + g + b) / 3.

Definition isGreyPixel (r g b : Z) : bool :=
  let maxDiff := Z.max (Z.max (Z.abs (r - g)) (Z.abs (g - b))) (Z.abs (r - b)) in
  let brightness := brightnessOf r g b in
  (maxDiff <? 50) && Qle_bool brightness 185.

(** The classifier at pixel [idx] of the buffer:
    [isGreyPixel(data[pi], data[pi + 1], data[pi + 2])] with
    [pi = idx * channels]. *)
Definition greyAt (data : list Z) (channels idx : Z) : bool :=
  let pi := idx * channels in
  match Arr.byte data pi, Arr.byte data (pi + 1), Arr.byte data (pi + 2) with
  | Some r, Some g, Some b => isGreyPixel r g b
  | _, _, _ => false
  end.

(** The classifier as the specification words it. *)
Module ClassifierSpec.

Definition chromaThreshold : Z := 50.
Definition brightnessCeiling : Q := 185.

Definition channelSpread (r g b : Z) : Z :=
  Z.max (Z.max (Z.abs (r - g)) (Z.abs (g - b))) (Z.abs (r - b)).

Definition averageBrightness (r g b : Z) : Q := inject_Z (r + g + b) / 3.

Definition isBackgroundColour (r g b : Z) : Prop :=
  channelSpread r g b < chromaThreshold ∧
  (averageBrightness r g b <= brightnessCeiling)%Q.

End ClassifierSpec.

(** ** The pixel grid *)

(** [idx % width] and [Math.floor(idx / width)]. *)
Definition colOf (width idx : Z) : Z := Z.rem idx width.
Definition rowOf (width idx : Z) : Z := idx / width.

(** The indices pushed for pixel [idx], in the order the source pushes
    them: left, right, up, down, each behind its guard. *)
Definition neighbours (width height idx : Z) : list Z :=
  let x := colOf width idx in
  let y := rowOf width idx in
  (if 0 <? x then [idx - 1] else []) ++
  (if x <? width - 1 then [idx + 1] else []) ++
  (if 0 <? y then [idx - width] else []) ++
  (if y <? height - 1 then [idx + width] else []).

(** [for (let i = lo; i < lo + n; i++) body] threading the state [s]. *)
Definition forRange {S : Type} (lo n : Z) (body : Z → S → S) (s : S) : S :=
  foldl (λ s i, body i s) s (seqZ lo n).

(** Pixels of the grid, its border, and 4-adjacency, by coordinates. *)
Definition inGrid (width height idx : Z) : Prop := 0 ≤ idx < width * height.

Definition onEdge (width height idx : Z) : Prop :=
  colOf width idx = 0 ∨ colOf width idx = width - 1 ∨
  rowOf width idx = 0 ∨ rowOf width idx = height - 1.

Definition adjacent (width i j : Z) : Prop :=
  (rowOf width i = rowOf width j ∧ Z.abs (colOf width i - colOf width j) = 1) ∨
  (colOf width i = colOf width j ∧ Z.abs (rowOf width i - rowOf width j) = 1).

(** [pathFrom src ok i]: a 4-connected path of grid pixels that all satisfy
    [ok] leads from a pixel of [src] to [i]. *)
Inductive pathFrom (width height : Z) (src : Z → Prop) (ok : Z → bool)
    : Z → Prop :=
  | path_start i :
      inGrid width height i → src i → ok i = true →
      pathFrom width height src ok i
  | path_step i j :
      pathFrom width height src ok i →
      inGrid width height j → adjacent width i j → ok j = true →
      pathFrom width height src ok j.

(** Reachable from the border through classifier-positive pixels. *)
Definition borderConnected (data : list Z) (width height channels : Z)
    : Z → Prop :=
  pathFrom width height (onEdge width height) (greyAt data channels).

(** ** Stage 2: border-seeded flood fill *)

(** The queue after the two seeding loops. *)
Definition edgeSeeds (width height : Z) : list Z :=
  let queue := forRange 0 width
    (λ x queue, queue ++ [x; (height - 1) * width + x]) [] in
  forRange 1 (height - 2)
    (λ y queue, queue ++ [y * width; y * width + (width - 1)]) queue.

Record Fill : Type := mkFill {
  visited : list bool;
  isBackground : list bool;
  queue : list Z
}.

(** One turn of the [while] loop, [idx] being [queue.shift()] and [rest]
    what is left of the queue. *)
Definition fillVisit (data : list Z) (width height channels : Z)
    (st : Fill) (idx : Z) (rest : list Z) : Fill :=
  let totalPixels := width * height in
  if (idx <? 0) || (totalPixels <=? idx) || Arr.get (visited st) idx
  then mkFill (visited st) (isBackground st) rest
  else
    let visited' := Arr.set (visited st) idx in
    if negb (greyAt data channels idx)
    then mkFill visited' (isBackground st) rest
    else mkFill visited' (Arr.set (isBackground st) idx)
                (rest ++ neighbours width height idx).

Fixpoint fillLoop (data : list Z) (width height channels : Z)
    (fuel : nat) (st : Fill) : option Fill :=
  match queue st with
  | [] => Some st
  | idx :: rest =>
      match fuel with
      | O => None
      | S fuel' =>
          fillLoop data width height channels fuel'
                   (fillVisit data width height channels st idx rest)
      end
  end.

Definition fillInit (width height : Z) : Fill :=
  let totalPixels := width * height in
  mkFill (replicate (Z.to_nat totalPixels) false)
         (replicate (Z.to_nat totalPixels) false)
         (edgeSeeds width height).

(** Every turn either drops a queue entry or visits a fresh pixel and
    pushes at most four entries. *)
Definition fillMeasure (st : Fill) : nat :=
  (5 * Arr.zeros (visited st) + length (queue st))%nat.

Definition floodFillBackground (data : list Z) (width height channels : Z)
    : option (list bool) :=
  let st := fillInit width height in
  isBackground <$> fillLoop data width height channels (fillMeasure st) st.

(** ** Stage 3: density-based shadow cleanup *)

Module Density.
Definition radius : Z := 12.
(** [0.45]; no quotient [transparent / total] of the sample lies between
    this rational and the double the literal denotes. *)
Definition transparencyThreshold : Q := 45 # 100.
Definition brightnessMax : Q := 160.
Definition passes : nat := 5.

(** The values of [for (let d = -radius; d <= radius; d += 2)]. *)
Definition offsets : list Z := (λ k, - radius + 2 * k) <$> seqZ 0 (radius + 1).
End Density.

(** [(data[pi] + data[pi + 1] + data[pi + 2]) / 3]; [None] is [NaN]. *)
Definition brightnessAt (data : list Z) (channels idx : Z) : option Q :=
  let pi := idx * channels in
  match Arr.byte data pi, Arr.byte data (pi + 1), Arr.byte data (pi + 2) with
  | Some r, Some g, Some b => Some (brightnessOf r g b)
  | _, _, _ => None
  end.

(** The two counters [transparent] and [total] after the sampling loops
    around pixel [(x, y)]. *)
Definition sampleCounts (isBackground : list bool) (width x y : Z) : Z * Z :=
  foldl (λ acc dy,
    foldl (λ '(transparent, total) dx,
      if Density.radius * Density.radius <? dx * dx + dy * dy
      then (transparent, total)
      else
        let nidx := (y + dy) * width + (x + dx) in
        (if Arr.get isBackground nidx then transparent + 1 else transparent,
         total + 1))
      acc Density.offsets)
    (0, 0) Density.offsets.

(** The test that pushes [idx] on [toRemove], for a pixel the scan reaches. *)
Definition shadowCandidate (data : list Z) (isBackground : list bool)
    (width channels x y : Z) : bool :=
  let idx := y * width + x in
  if Arr.get isBackground idx then false
  else
    match brightnessAt data channels idx with
    | Some brightness =>
        if negb (Qle_bool brightness Density.brightnessMax) then false
        else
          let '(transparent, total) := sampleCounts isBackground width x y in
          negb (Qle_bool (inject_Z transparent / inject_Z total)
                         Density.transparencyThreshold)
    | None =>
        let '(transparent, total) := sampleCounts isBackground width x y in
        negb (Qle_bool (inject_Z transparent / inject_Z total)
                       Density.transparencyThreshold)
    end.

(** [toRemove] after the scan of one pass. *)
Definition scanPass (data : list Z) (isBackground : list bool)
    (width height channels : Z) : list Z :=
  forRange Density.radius (height - Density.radius - Density.radius)
    (λ y toRemove,
      forRange Density.radius (width - Density.radius - Density.radius)
        (λ x toRemove,
          if shadowCandidate data isBackground width channels x y
          then toRemove ++ [y * width + x] else toRemove)
        toRemove)
    [].

(** [for (const idx of toRemove) isBackground[idx] = 1]. *)
Definition commit (isBackground : list bool) (toRemove : list Z) : list bool :=
  foldl Arr.set isBackground toRemove.

(** The pass loop, [n] passes being left. *)
Fixpoint cleanupPasses (n : nat) (data : list Z) (isBackground : list bool)
    (width height channels : Z) (totalCleaned : Z) : list bool * Z :=
  match n with
  | O => (isBackground, totalCleaned)
  | S n' =>
      let toRemove := scanPass data isBackground width height channels in
      match toRemove with
      | [] => (isBackground, totalCleaned)
      | _ :: _ =>
          cleanupPasses n' data (commit isBackground toRemove)
                        width height channels
                        (totalCleaned + Z.of_nat (length toRemove))
      end
  end.

(** Returns the mask as the stage leaves it, and [totalCleaned]. *)
Definition densityShadowCleanup (data : list Z) (isBackground : list bool)
    (width height channels : Z) : list bool * Z :=
  cleanupPasses Density.passes data isBackground width height channels 0.

(** The sample of the cleanup as the specification words it: the offsets
    of the sparse grid that lie in the disc, and the fraction of them at
    which the mask is set. *)
Module DensitySpec.

Definition samplePoints : list (Z * Z) :=
  dy ← Density.offsets; dx ← Density.offsets;
  if Density.radius * Density.radius <? dx * dx + dy * dy
  then [] else [(dx, dy)].

Definition marked (isBackground : list bool) (width x y : Z)
    (p : Z * Z) : bool :=
  Arr.get isBackground ((y + p.2) * width + (x + p.1)).

Definition markedPoints (isBackground : list bool) (width x y : Z)
    (points : list (Z * Z)) : list (Z * Z) :=
  filter (λ p, marked isBackground width x y p = true) points.

Definition backgroundFraction (isBackground : list bool) (width x y : Z) : Q :=
  inject_Z (Z.of_nat (length
    (markedPoints isBackground width x y samplePoints))) /
  inject_Z (Z.of_nat (length samplePoints)).

(** The pixels a pass scans: those at least [radius] away from every
    edge. *)
Definition interior (width height x y : Z) : Prop :=
  Density.radius ≤ x < width - Density.radius ∧
  Density.radius ≤ y < height - Density.radius.

(** One pass: scan against the mask as it is, then commit. *)
Definition onePass (data : list Z) (width height channels : Z)
    (isBackground : list bool) : list bool :=
  commit isBackground (scanPass data isBackground width height channels).

End DensitySpec.

(** ** Stage 4: largest-component selection *)

Record Blob : Type := mkBlob {
  blobId : list Z;
  stack : list Z;
  blobSize : Z
}.

(** [blobId[idx] >= 0]. *)
Definition labelled (blobId : list Z) (idx : Z) : bool :=
  match Arr.int blobId idx with
  | Some b => 0 <=? b
  | None => false
  end.

(** One turn of the inner [while] loop, [idx] being [queue.pop()]. The
    JavaScript array is used as a stack: the head of [stack] is its last
    element. *)
Definition blobVisit (isBackground : list bool) (width height currentBlob : Z)
    (st : Blob) (idx : Z) (rest : list Z) : Blob :=
  let totalPixels := width * height in
  if (idx <? 0) || (totalPixels <=? idx) || Arr.get isBackground idx
     || labelled (blobId st) idx
  then mkBlob (blobId st) rest (blobSize st)
  else mkBlob (Arr.setInt (blobId st) idx currentBlob)
              (reverse (neighbours width height idx) ++ rest)
              (blobSize st + 1).

Fixpoint blobLoop (isBackground : list bool) (width height currentBlob : Z)
    (fuel : nat) (st : Blob) : option Blob :=
  match stack st with
  | [] => Some st
  | idx :: rest =>
      match fuel with
      | O => None
      | S fuel' =>
          blobLoop isBackground width height currentBlob fuel'
                   (blobVisit isBackground width height currentBlob st idx rest)
      end
  end.

(** Entries of [blobId] that are still [-1]. *)
Definition unlabelled (blobId : list Z) : nat :=
  length (filter (λ b : Z, b < 0) blobId).

Definition blobMeasure (st : Blob) : nat :=
  (5 * unlabelled (blobId st) + length (stack st))%nat.

Record Labels : Type := mkLabels {
  ids : list Z;
  blobSizes : list Z;
  currentBlob : Z
}.

(** The body of the labelling loop at pixel [i]. *)
Definition labelFrom (isBackground : list bool) (width height : Z)
    (i : Z) (ls : Labels) : option Labels :=
  if Arr.get isBackground i || labelled (ids ls) i then Some ls
  else
    let st := mkBlob (ids ls) [i] 0 in
    st' ← blobLoop isBackground width height (currentBlob ls)
                   (blobMeasure st) st;
    Some (mkLabels (blobId st') (blobSizes ls ++ [blobSize st'])
                   (currentBlob ls + 1)).

Definition labelAll (isBackground : list bool) (width height : Z)
    : option Labels :=
  let totalPixels := width * height in
  forRange 0 totalPixels
    (λ i ols, ls ← ols; labelFrom isBackground width height i ls)
    (Some (mkLabels (replicate (Z.to_nat totalPixels) (-1)) [] 0)).

(** [blobSizes[b]] *)
Definition sizeOf (blobSizes : list Z) (b : Z) : Z :=
  default 0 (Arr.int blobSizes b).

Definition largestOf (blobSizes : list Z) : Z :=
  forRange 1 (Z.of_nat (length blobSizes) - 1)
    (λ b largestBlob,
      if sizeOf blobSizes largestBlob <? sizeOf blobSizes b
      then b else largestBlob)
    0.

(** [blobId[i] !== largestBlob] *)
Definition otherBlob (blobId : list Z) (i largestBlob : Z) : bool :=
  match Arr.int blobId i with
  | Some b => negb (b =? largestBlob)
  | None => true
  end.

(** The last loop: the mask and [extraRemoved] after it. *)
Definition dropOthers (isBackground : list bool) (blobId : list Z)
    (totalPixels largestBlob : Z) : list bool * Z :=
  forRange 0 totalPixels
    (λ i '(isBackground, extraRemoved),
      if negb (Arr.get isBackground i) && otherBlob blobId i largestBlob
      then (Arr.set isBackground i, extraRemoved + 1)
      else (isBackground, extraRemoved))
    (isBackground, 0).

(** Returns the mask as the stage leaves it, and the value returned. *)
Definition keepLargestBlob (isBackground : list bool) (width height : Z)
    : option (list bool * Z) :=
  ls ← labelAll isBackground width height;
  match blobSizes ls with
  | [] => Some (isBackground, 0)
  | _ :: _ =>
      Some (dropOthers isBackground (ids ls) (width * height)
                       (largestOf (blobSizes ls)))
  end.

(** ** Stage 5: edge feathering *)

(** The distance field holds squared distances: [Math.sqrt] and the
    rounding to single precision are monotone, so the minimum of the roots
    is the root of the minimum, and for an integer [radius >= 0] the test
    [edgeDistance[i] < radius] is [d2 < radius * radius]. *)
Module Feather.

(** The fill value [999], squared. *)
Definition far : Z := 999 * 999.

(** [Math.min(255, Math.round((Math.sqrt(d2) / radius) * 255))]:
    rounding half up, the value is the integer part of
    [(sqrt(4 * 255 * 255 * d2) + radius) / (2 * radius)]. For the radius 2
    of the pipeline the squared distances below the radius are 1 and 2,
    where the source computes 128 (from 127.5) and 180 (from 180.31...),
    as this does. *)
Definition alpha (radius d2 : Z) : Z :=
  Z.min 255 ((Z.sqrt (4 * 255 * 255 * d2) + radius) / (2 * radius)).

End Feather.

(** The cell [edgeDistance[idx]], squared, after the window loops around the
    foreground pixel [(x, y)], [d] being its value before them. *)
Definition windowMin (isBackground : list bool) (width height radius x y : Z)
    (d : Z) : Z :=
  forRange (- radius) (2 * radius + 1)
    (λ dy d,
      forRange (- radius) (2 * radius + 1)
        (λ dx d,
          let nx := x + dx in
          let ny := y + dy in
          if (nx <? 0) || (width <=? nx) || (ny <? 0) || (height <=? ny)
          then d
          else if Arr.get isBackground (ny * width + nx)
               then Z.min d (dx * dx + dy * dy)
               else d)
        d)
    d.

(** [edgeDistance] after the first pass. *)
Definition edgeDistances (isBackground : list bool) (width height radius : Z)
    : list Z :=
  forRange 0 height
    (λ y edgeDistance,
      forRange 0 width
        (λ x edgeDistance,
          let idx := y * width + x in
          if Arr.get isBackground idx
          then Arr.setInt edgeDistance idx 0
          else
            match Arr.int edgeDistance idx with
            | Some d =>
                Arr.setInt edgeDistance idx
                  (windowMin isBackground width height radius x y d)
            | None => edgeDistance
            end)
        edgeDistance)
    (replicate (Z.to_nat (width * height)) Feather.far).

(** The body of the second loop at pixel [i]. *)
Definition paint (isBackground : list bool) (edgeDistance : list Z)
    (channels radius i : Z) (st : list Z * Z) : list Z * Z :=
  let '(data, removedPixels) := st in
  let pi := i * channels in
  if Arr.get isBackground i
  then (Arr.setByte data (pi + 3) 0, removedPixels + 1)
  else
    match Arr.int edgeDistance i with
    | Some d =>
        if d <? radius * radius
        then (Arr.setByte data (pi + 3) (Feather.alpha radius d), removedPixels)
        else (data, removedPixels)
    | None => (data, removedPixels)
    end.

(** Returns the buffer as the stage leaves it, and [removedPixels]. *)
Definition applyEdgeSmoothing (data : list Z) (isBackground : list bool)
    (width height channels radius : Z) : list Z * Z :=
  let edgeDistance := edgeDistances isBackground width height radius in
  forRange 0 (width * height)
    (paint isBackground edgeDistance channels radius) (data, 0).

(** The foreground components as the specification words them. *)
Module BlobSpec.

(** A pixel that is not background. *)
Definition foreground (isBackground : list bool) (idx : Z) : bool :=
  negb (Arr.get isBackground idx).

(** [i] and [j] are pixels of one 4-connected foreground component. *)
Definition sameBlob (isBackground : list bool) (width height i : Z)
    : Z → Prop :=
  pathFrom width height (eq i) (foreground isBackground).

(** The component of [i] has [n] pixels. *)
Definition blobCount (isBackground : list bool) (width height i n : Z)
    : Prop :=
  ∃ l, NoDup l ∧ (∀ j, j ∈ l ↔ sameBlob isBackground width height i j) ∧
       Z.of_nat (length l) = n.

End BlobSpec.

(** Entries of [blobId] equal to [b]. *)
Definition labelCount (blobId : list Z) (b : Z) : Z :=
  Z.of_nat (length (filter (λ v : Z, v = b) blobId)).

(** The feathering as the specification words it. Distances are compared
    by their squares. *)
Module FeatherSpec.

(** The mask is set at offset [(dx, dy)] of the search window of pixel
    [idx], and that offset lies in the image. *)
Definition backgroundAt (isBackground : list bool)
    (width height radius idx dx dy : Z) : Prop :=
  (- radius ≤ dx ≤ radius ∧ - radius ≤ dy ≤ radius) ∧
  (0 ≤ colOf width idx + dx < width ∧ 0 ≤ rowOf width idx + dy < height) ∧
  Arr.get isBackground
    ((rowOf width idx + dy) * width + (colOf width idx + dx)) = true.

(** [d2] is the square of the least distance from pixel [idx] to a
    background pixel of its search window. *)
Definition nearest (isBackground : list bool)
    (width height radius idx d2 : Z) : Prop :=
  (∃ dx dy, backgroundAt isBackground width height radius idx dx dy ∧
            d2 = dx * dx + dy * dy) ∧
  ∀ dx dy, backgroundAt isBackground width height radius idx dx dy →
           d2 ≤ dx * dx + dy * dy.

(** The alpha byte of pixel [idx] of a 4-channel buffer. *)
Definition alphaOf (data : list Z) (idx : Z) : option Z :=
  Arr.byte data (idx * 4 + 3).

End FeatherSpec.

(** ** The pipeline *)

(** What the four pixel stages of [removeBackground] leave behind. *)
Record Stages : Type := mkStages {
  floodMask : list bool;
  cleanedMask : list bool;
  shadowCleaned : Z;
  keptMask : list bool;
  extraRemoved : Z;
  outData : list Z;
  removedPixels : Z
}.

Definition runStages (data : list Z) (width height channels : Z)
    : option Stages :=
  m1 ← floodFillBackground data width height channels;
  let '(m2, shadowCleaned) :=
    densityShadowCleanup data m1 width height channels in
  '(m3, extraRemoved) ← keepLargestBlob m2 width height;
  let '(data', removedPixels) :=
    applyEdgeSmoothing data m3 width height channels 2 in
  Some (mkStages m1 m2 shadowCleaned m3 extraRemoved data' removedPixels).

Definition allRemoved (s : Stages) : Z :=
  removedPixels s + extraRemoved s + shadowCleaned s.

(** [(allRemoved / totalPixels) * 100], before [toFixed(1)] prints it. *)
Definition percentRemoved (s : Stages) (totalPixels : Z) : Q :=
  inject_Z (allRemoved s) / inject_Z totalPixels * 100.

Record Raw : Type := mkRaw {
  rawData : list Z;
  rawWidth : Z;
  rawHeight : Z;
  rawChannels : Z
}.

Inductive Result : Type :=
  | Success (percent : Q)
  | Failure (error : string).

Section Sharp.

(** The image library: decoding [inputPath] to a raw buffer with an alpha
    channel, and resizing, encoding and writing a raw buffer to
    [outputPath]. [inl] and [Some] carry the message of a thrown error. *)
Variable decode : string → string + Raw.
Variable encode : Raw → string → option string.

(** [None] only if a work-list loop ran out of fuel. *)
Definition removeBackground (inputPath outputPath : string)
    : option Result :=
  match decode inputPath with
  | inl error => Some (Failure error)
  | inr raw =>
      let width := rawWidth raw in
      let height := rawHeight raw in
      let channels := rawChannels raw in
      s ← runStages (rawData raw) width height channels;
      match encode (mkRaw (outData s) width height channels) outputPath with
      | Some error => Some (Failure error)
      | None => Some (Success (percentRemoved s (width * height)))
      end
  end.

End Sharp.


(** ** The batch driver of [remove-grey-bg.js] *)

(** [s.endsWith(suffix)] *)
Definition endsWith (s suffix : string) : bool :=
  let n := String.length s in
  let k := String.length suffix in
  (k <=? n)%nat && String.eqb (String.substring (n - k) k s) suffix.

Module Batch.

Definition days : list string :=
  ["monday"; "tuesday"; "wednesday"; "thursday"; "friday"].

Section Main.

(** The file system is a value of [World]. [existsSync], [mkdirSync] and
    [readdirSync] are those of [fs], [None] standing for a thrown error;
    [join] is [path.join]; [remove] is the awaited [removeBackground],
    which catches every error of its body and so always yields a result. *)
Variable World : Type.
Variable existsSync : World → string → bool.
Variable mkdirSync : World → string → option World.
Variable readdirSync : World → string → option (list string).
Variable join : string → string → string.
Variable remove : World → string → string → Result * World.

(** The state of [main]: the file system, the two counters, and the calls
    of [removeBackground] made so far, oldest first. *)
Record State : Type := mkState {
  world : World;
  processed : Z;
  errors : Z;
  calls : list (string * string)
}.

(** [if (!fs.existsSync(dir)) fs.mkdirSync(dir, { recursive: true })] *)
Definition ensureDir (w : World) (dir : string) : option World :=
  if negb (existsSync w dir) then mkdirSync w dir else Some w.

(** The body of the loop over [files]. *)
Definition processFile (dayIn dayOut : string) (st : State)
    (file : string) : State :=
  let input := join dayIn file in
  let output := join dayOut file in
  let '(result, w) := remove (world st) input output in
  match result with
  | Success _ =>
      mkState w (processed st + 1) (errors st) (calls st ++ [(input, output)])
  | Failure _ =>
      mkState w (processed st) (errors st + 1) (calls st ++ [(input, output)])
  end.

(** The body of the loop over [days]. *)
Definition processDay (baseDir outputDir : string) (st : State)
    (day : string) : option State :=
  let dayIn := join baseDir day in
  let dayOut := join outputDir day in
  if negb (existsSync (world st) dayIn) then Some st
  else
    w ← ensureDir (world st) dayOut;
    entries ← readdirSync w dayIn;
    let files := filter (λ f, endsWith f ".png" = true) entries in
    Some (foldl (processFile dayIn dayOut)
                (mkState w (processed st) (errors st) (calls st)) files).

(** The loop over [days], for the days [ds]; a thrown error ends it. *)
Definition processDays (baseDir outputDir : string) (ds : list string)
    (st : State) : option State :=
  foldl (λ ost day, st ← ost; processDay baseDir outputDir st day)
        (Some st) ds.

(** [main], [dirname] being [__dirname]; [None] when a call of [fs] threw,
    which rejects the promise before the summary is printed. *)
Definition main (dirname : string) (w : World) : option State :=
  let baseDir := join (join dirname "public") "images" in
  let outputDir := join (join dirname "public") "images_nobg" in
  w ← ensureDir w outputDir;
  processDays baseDir outputDir days (mkState w 0 0 []).

(** For the proofs: the calls [main] makes for [day] when its directory
    lists [entries]. *)
Definition dayCalls (baseDir outputDir day : string) (entries : list string)
    : list (string * string) :=
  (λ file, (join (join baseDir day) file, join (join outputDir day) file)) <$>
  filter (λ f, endsWith f ".png" = true) entries.

(** For the proofs: what the loops keep true of the state, [ds] being the
    days looked at. *)
Definition tallied (baseDir outputDir : string) (ds : list string)
    (st : State) : Prop :=
  0 ≤ processed st ∧ 0 ≤ errors st ∧
  processed st + errors st = Z.of_nat (length (calls st)) ∧
  ∀ input output, (input, output) ∈ calls st →
    ∃ day file, day ∈ ds ∧ endsWith file ".png" = true ∧
      input = join (join baseDir day) file ∧
      output = join (join outputDir day) file.

End Main.

Arguments world {World}.
Arguments processed {World}.
Arguments errors {World}.
Arguments calls {World}.

End Batch.

(** ** The single-image cut-out of [smart-update.js] *)

(** [for (let i = 0; i < totalPixels; i++)
       if (isBg[i]) data[i * channels + 3] = 0;] *)
Definition clearAlpha (data : list Z) (isBg : list bool)
    (totalPixels channels : Z) : list Z :=
  forRange 0 totalPixels
    (λ i data,
      if Arr.get isBg i then Arr.setByte data (i * channels + 3) 0 else data)
    data.

(** The pixel statements of [removeBgSingle], from the decoded buffer to
    the buffer it saves. Its flood fill and its largest-component selection
    are those of [remove-grey-bg.js] written inline, statement for
    statement, with the classifier expanded in place; the value that
    [keepLargestBlob] returns has no counterpart here. Returns the mask
    [isBg] and the buffer. *)
Definition removeBgSinglePixels (data : list Z) (width height channels : Z)
    : option (list bool * list Z) :=
  let totalPixels := width * height in
  isBg ← floodFillBackground data width height channels;
  '(isBg, _) ← keepLargestBlob isBg width height;
  Some (isBg, clearAlpha data isBg totalPixels channels).


(** ** Finding the images to regenerate ([smart-update.js]) *)

Module Menu.

(** The part of [menu.json] that [findChanges] reads. A field that may be
    missing is an [option]; the [canteens] object is the list of its
    entries in the order of [Object.entries], whose names are distinct, and
    [canteens[name]] is the entry of that name. *)
Record Item : Type := mkItem {
  dish : string;
  isMain : bool
}.

(** [en] and [no] stand for [entry.en?.items] and [entry.no?.items]. *)
Record DayMenu : Type := mkDayMenu {
  day : string;
  en : option (list Item);
  no : option (list Item)
}.

Record Canteen : Type := mkCanteen {
  week : option string;
  menu : list DayMenu
}.

Definition Canteens : Type := list (string * Canteen).

(** An entry of [changes]; the entries of a new canteen have no
    [reason]. *)
Record Change : Type := mkChange {
  canteenName : string;
  changeDay : string;
  oldDish : option string;
  newDish : string;
  reason : option string
}.

Definition DAY_ORDER : list string :=
  ["monday"; "tuesday"; "wednesday"; "thursday"; "friday"].

(** [canteens[canteenName]] among the entries of the object. *)
Definition canteenOf (canteens : Canteens) (canteenName : string)
    : option Canteen :=
  snd <$> find (λ entry, String.eqb (fst entry) canteenName) canteens.

(** The names of the members of [Object.prototype]. Where the object has no
    entry of such a name, [canteens[canteenName]] reads the inherited
    member, which is truthy and no canteen: [findChanges] then takes the
    branch of a known canteen and [getMainDishes] throws on it. [canteenOf]
    and [findChanges] leave that case out: they give what the source
    returns when it returns. *)
Definition objectPrototype : list string :=
  ["constructor"; "__defineGetter__"; "__defineSetter__"; "hasOwnProperty";
   "__lookupGetter__"; "__lookupSetter__"; "isPrototypeOf";
   "propertyIsEnumerable"; "toString"; "valueOf"; "__proto__";
   "toLocaleString"].

(** Truthiness of a string. *)
Definition truthy (s : string) : bool := negb (String.eqb s "").

Section Changes.

(** [String.prototype.toLowerCase], and [fs.existsSync] of the cut-out
    [<IMAGES_NOBG_DIR>/<day>/<slug>.png] of a canteen, the slug being
    computed from the name of the canteen. *)
Variable toLowerCase : string → string.
Variable imageExists : string → string → bool.

(** [canteenData.menu.find(d => d.day.toLowerCase() === day)] *)
Definition entryOf (canteenData : Canteen) (day : string) : option DayMenu :=
  find (λ d, String.eqb (toLowerCase (Menu.day d)) day) (menu canteenData).

(** The object [dishes]: [None] at a day is [null]. An empty array is
    truthy, so an [en] without items does not fall back on [no]. *)
Definition getMainDishes (canteenData : Canteen)
    : gmap string (option string) :=
  foldl (λ dishes day,
    let entry := entryOf canteenData day in
    let items :=
      match entry ≫= en with
      | Some items => items
      | None => default [] (entry ≫= no)
      end in
    let main := find isMain items in
    <[day :=
      match main with
      | Some main => if truthy (dish main) then Some (dish main) else None
      | None => None
      end]> dishes)
    ∅ DAY_ORDER.

(** [dishes[day]], a missing key reading as [undefined]; it is read at the
    days of [DAY_ORDER] only, where the key is present. *)
Definition dishAt (dishes : gmap string (option string)) (day : string)
    : option string :=
  default None (dishes !! day).

Definition findChanges (oldMenu : option Canteens) (newMenu : Canteens)
    : list Change :=
  foldl (λ changes '(canteenName, newCanteen),
    match oldMenu ≫= (λ canteens, canteenOf canteens canteenName) with
    | None =>
        foldl (λ changes day,
          let entry := entryOf newCanteen day in
          let items := default [] (entry ≫= en) in
          match find isMain items with
          | Some main =>
              changes ++ [mkChange canteenName day None (dish main) None]
          | None => changes
          end)
          changes DAY_ORDER
    | Some oldCanteen =>
        let oldDishes := getMainDishes oldCanteen in
        let newDishes := getMainDishes newCanteen in
        let oldWeek := default "" (week oldCanteen) in
        let newWeek := default "" (week newCanteen) in
        let weekChanged := negb (String.eqb oldWeek newWeek) in
        foldl (λ changes day,
          let oldDish := dishAt oldDishes day in
          match dishAt newDishes day with
          | None => changes
          | Some newDish =>
              let imageExists := imageExists canteenName day in
              if negb (bool_decide (oldDish = Some newDish)) || weekChanged
                 || negb imageExists
              then
                changes ++
                [mkChange canteenName day oldDish newDish
                   (Some (if negb imageExists then "missing image"
                          else if weekChanged
                               then "week: " +:+ oldWeek +:+ " → " +:+ newWeek
                               else "dish changed"))]
              else changes
          end)
          changes DAY_ORDER
    end)
    [] newMenu.

(** For the proofs: the main dish [getMainDishes] records for a day. *)
Definition mainDish (canteenData : Canteen) (day : string) : option string :=
  let entry := entryOf canteenData day in
  let items :=
    match entry ≫= en with
    | Some items => items
    | None => default [] (entry ≫= no)
    end in
  match find isMain items with
  | Some main => if truthy (dish main) then Some (dish main) else None
  | None => None
  end.

(** For the proofs: the entries [findChanges] pushes for one day of one
    canteen. *)
Definition dayChanges (oldMenu : option Canteens) (canteenName : string)
    (newCanteen : Canteen) (day : string) : list Change :=
  match oldMenu ≫= (λ canteens, canteenOf canteens canteenName) with
  | None =>
      match find isMain (default [] (entryOf newCanteen day ≫= en)) with
      | Some main => [mkChange canteenName day None (dish main) None]
      | None => []
      end
  | Some oldCanteen =>
      let oldWeek := default "" (week oldCanteen) in
      let newWeek := default "" (week newCanteen) in
      let weekChanged := negb (String.eqb oldWeek newWeek) in
      let oldDish := dishAt (getMainDishes oldCanteen) day in
      match dishAt (getMainDishes newCanteen) day with
      | None => []
      | Some newDish =>
          if negb (bool_decide (oldDish = Some newDish)) || weekChanged
             || negb (imageExists canteenName day)
          then
            [mkChange canteenName day oldDish newDish
               (Some (if negb (imageExists canteenName day)
                      then "missing image"
                      else if weekChanged
                           then "week: " +:+ oldWeek +:+ " → " +:+ newWeek
                           else "dish changed"))]
          else []
      end
  end.

End Changes.

(** [Object.keys(newMenu.canteens).length * 5 - changes.length] of
    [main]. *)
Definition skipped (newMenu : Canteens) (changes : list Change) : Z :=
  Z.of_nat (length newMenu) * 5 - Z.of_nat (length changes).

End Menu.

(** ** Invariants

    The loop invariants and the auxiliary definitions of the proofs. *)

Module Inv.

(** The flood fill: the mask is sound, visited classifier-positive pixels
    are in it, and what is not yet visited of the border and of the
    neighbourhood of the mask waits in the queue. *)
Record fillInv (data : list Z) (width height channels : Z) (st : Fill)
    : Prop := {
  inv_len_visited : length (visited st) = Z.to_nat (width * height);
  inv_len_mask : length (isBackground st) = Z.to_nat (width * height);
  inv_sound :
    ∀ i, Arr.get (isBackground st) i = true →
         borderConnected data width height channels i;
  inv_mask_visited :
    ∀ i, Arr.get (isBackground st) i = true → Arr.get (visited st) i = true;
  inv_grey_mask :
    ∀ i, Arr.get (visited st) i = true → greyAt data channels i = true →
         Arr.get (isBackground st) i = true;
  inv_queue :
    ∀ q, q ∈ queue st → inGrid width height q →
         greyAt data channels q = true →
         borderConnected data width height channels q;
  inv_seeds :
    ∀ s, inGrid width height s → onEdge width height s →
         Arr.get (visited st) s = true ∨ s ∈ queue st;
  inv_frontier :
    ∀ i j, Arr.get (isBackground st) i = true → inGrid width height j →
           adjacent width i j →
           Arr.get (visited st) j = true ∨ j ∈ queue st
}.

(** What the scan of a pass pushes for pixel [(x, y)], and for row [y]. *)
Definition hit (data : list Z) (isBackground : list bool)
    (width channels y x : Z) : list Z :=
  if shadowCandidate data isBackground width channels x y
  then [y * width + x] else [].

Definition rowHits (data : list Z) (isBackground : list bool)
    (width channels y : Z) : list Z :=
  forRange Density.radius (width - Density.radius - Density.radius)
    (λ x q, q ++ hit data isBackground width channels y x) [].

(** The mask is set at offset [(dx, dy)] of pixel [(x, y)], which lies in
    the image. *)
Definition valid (isBackground : list bool) (width height x y dx dy : Z)
    : Prop :=
  (0 ≤ x + dx < width ∧ 0 ≤ y + dy < height) ∧
  Arr.get isBackground ((y + dy) * width + (x + dx)) = true.

(** The body of the inner window loop. *)
Definition look (isBackground : list bool) (width height x y dy dx d : Z) : Z :=
  if (x + dx <? 0) || (width <=? x + dx) || (y + dy <? 0) || (height <=? y + dy)
  then d
  else if Arr.get isBackground ((y + dy) * width + (x + dx))
       then Z.min d (dx * dx + dy * dy)
       else d.

(** [v] is the least of [d0] and the squared lengths of the valid
    offsets among those in [P]. *)
Definition least (isBackground : list bool) (width height x y d0 : Z)
    (P : Z → Z → Prop) (v : Z) : Prop :=
  v ≤ d0 ∧
  (∀ dx dy, P dx dy → valid isBackground width height x y dx dy →
            v ≤ dx * dx + dy * dy) ∧
  (v = d0 ∨ ∃ dx dy, P dx dy ∧ valid isBackground width height x y dx dy ∧
                     v = dx * dx + dy * dy).

(** The offsets the window loops have looked at when the outer counter is
    [k] and the inner one [j]. *)
Definition seen (radius k j dx dy : Z) : Prop :=
  (- radius ≤ dx ≤ radius ∧ - radius ≤ dy) ∧ (dy < k ∨ (dy = k ∧ dx < j)).

(** The value the first pass leaves in [edgeDistance[idx]], squared. *)
Definition distAt (isBackground : list bool) (width height radius idx : Z)
    : Z :=
  if Arr.get isBackground idx then 0
  else windowMin isBackground width height radius
         (colOf width idx) (rowOf width idx) Feather.far.

(** The distance field when the pixels before [k] have been written. *)
Definition written (isBackground : list bool) (width height radius k : Z)
    (ed : list Z) : Prop :=
  length ed = Z.to_nat (width * height) ∧
  ∀ i, inGrid width height i →
       Arr.int ed i =
       Some (if i <? k then distAt isBackground width height radius i
             else Feather.far).

(** The alpha byte the second loop leaves for pixel [j] of a 4-channel
    buffer. *)
Definition target (data : list Z) (isBackground : list bool)
    (edgeDistance : list Z) (radius j : Z) : option Z :=
  if Arr.get isBackground j then Some 0
  else
    match Arr.int edgeDistance j with
    | Some d =>
        if d <? radius * radius then Some (Feather.alpha radius d)
        else Arr.byte data (j * 4 + 3)
    | None => Arr.byte data (j * 4 + 3)
    end.

(** Labelling the component of [i0] with [b], from the labels [ids0]. *)
Record blobInv (isBackground : list bool) (width height b : Z)
    (ids0 : list Z) (i0 : Z) (st : Blob) : Prop := {
  bi_length : length (blobId st) = Z.to_nat (width * height);
  bi_ids :
    ∀ k, inGrid width height k →
      Arr.int (blobId st) k = Arr.int ids0 k ∨
      (labelled ids0 k = false ∧ Arr.int (blobId st) k = Some b ∧
       BlobSpec.sameBlob isBackground width height i0 k);
  bi_stack :
    ∀ q, q ∈ stack st → inGrid width height q →
         Arr.get isBackground q = false →
         BlobSpec.sameBlob isBackground width height i0 q;
  bi_frontier :
    ∀ k j, inGrid width height k → Arr.int (blobId st) k = Some b →
           inGrid width height j → adjacent width k j →
           Arr.get isBackground j = false →
           labelled (blobId st) j = true ∨ j ∈ stack st;
  bi_start : labelled (blobId st) i0 = true ∨ i0 ∈ stack st;
  bi_size : blobSize st = labelCount (blobId st) b
}.

(** The labels when the pixels before [i] have been looked at; [roots]
    lists, by label, the pixel each component was found from. *)
Record labelInv (isBackground : list bool) (width height i : Z)
    (ls : Labels) (roots : list Z) : Prop := {
  li_length : length (ids ls) = Z.to_nat (width * height);
  li_current : currentBlob ls = Z.of_nat (length (blobSizes ls));
  li_roots : length roots = length (blobSizes ls);
  li_range : ∀ k v, Arr.int (ids ls) k = Some v → -1 ≤ v < currentBlob ls;
  li_done :
    ∀ k, inGrid width height k → k < i → Arr.get isBackground k = false →
         labelled (ids ls) k = true;
  li_root :
    ∀ (b : nat) r, roots !! b = Some r →
      BlobSpec.sameBlob isBackground width height r r ∧ r < i ∧
      (∀ j, inGrid width height j →
            Arr.int (ids ls) j = Some (Z.of_nat b) ↔
            BlobSpec.sameBlob isBackground width height r j) ∧
      (∀ j, BlobSpec.sameBlob isBackground width height r j → r ≤ j) ∧
      blobSizes ls !! b = Some (labelCount (ids ls) (Z.of_nat b)) ∧
      (∀ (b' : nat) r', (b' < b)%nat → roots !! b' = Some r' → r' < r)
}.

End Inv.

(** ** Sample images *)

Module Samples.

(** An opaque pixel of grey level [c]. *)
Definition px (c : Z) : list Z := [c; c; c; 255].

Definition raster (levels : list Z) : list Z := levels ≫= px.

(** 5 by 1: three bright pixels separated by backdrop pixels. *)
Definition stripe : list Z := raster [255; 112; 255; 112; 255].

(** 5 by 5: a backdrop border, a bright ring, a dark centre. *)
Definition ring : list Z :=
  raster [112; 112; 112; 112; 112;
          112; 255; 255; 255; 112;
          112; 255; 100; 255; 112;
          112; 255; 255; 255; 112;
          112; 112; 112; 112; 112].

(** 25 by 25 of backdrop but for pixel [k], which is dark and not
    neutral. *)
Definition speckAt (k : nat) : list Z :=
  raster (replicate k 112) ++ [150; 90; 90; 255] ++
  raster (replicate (624 - k) 112).

(** The speck at column 11 of row 12, and at column 12 of row 12. *)
Definition speck : list Z := speckAt 311.
Definition speckCentre : list Z := speckAt 312.

(** The mask the flood fill leaves on [ring]: the border. *)
Definition ringMask : list bool :=
  [true; true; true; true; true;
   true; false; false; false; true;
   true; false; false; false; true;
   true; false; false; false; true;
   true; true; true; true; true].

(** 2 by 2 of backdrop. *)
Definition backdrop : list Z := raster [112; 112; 112; 112].


(** The flood mask of [speckCentre]: all but the speck. *)
Definition speckMask : list bool :=
  replicate 312 true ++ [false] ++ replicate 312 true.

(** A file system with nothing but two day directories. *)
Definition listing (dir : string) : option (list string) :=
  if String.eqb dir "/public/images/monday" then Some ["a.png"; "notes.txt"; "b.png"]
  else if String.eqb dir "/public/images/friday" then Some ["c.png"]
  else None.

Definition present (dir : string) : bool :=
  match listing dir with Some _ => true | None => false end.

Definition slash (a b : string) : string := a +:+ "/" +:+ b.

(** [removeBackground] failing on [b.png]. *)
Definition outcome (input : string) : Result :=
  if endsWith input "b.png" then Failure "Input file is missing"
  else Success 50.

(** Lower case of the letters A to Z. *)
Definition lowerChar (c : Ascii.ascii) : Ascii.ascii :=
  let n := Ascii.nat_of_ascii c in
  if ((65 <=? n) && (n <=? 90))%nat then Ascii.ascii_of_nat (n + 32) else c.

Fixpoint lower (s : string) : string :=
  match s with
  | EmptyString => EmptyString
  | String c s => String (lowerChar c) (lower s)
  end.

(** Last week's menu: one canteen. *)
Definition oldMenu : Menu.Canteens :=
  [("The Hub",
    Menu.mkCanteen (Some "Week 10")
      [Menu.mkDayMenu "Monday" (Some [Menu.mkItem "Soup" false; Menu.mkItem "Cod" true]) None;
       Menu.mkDayMenu "Tuesday" (Some [Menu.mkItem "Stew" true]) None])].

(** This week's: the same canteen with Tuesday changed, and a canteen not
    seen before whose Friday has Norwegian items only. *)
Definition newMenu : Menu.Canteens :=
  [("The Hub",
    Menu.mkCanteen (Some "Week 10")
      [Menu.mkDayMenu "Monday" (Some [Menu.mkItem "Cod" true]) None;
       Menu.mkDayMenu "Tuesday" (Some [Menu.mkItem "Curry" true]) None]);
   ("Bygg B",
    Menu.mkCanteen None
      [Menu.mkDayMenu "Thursday" (Some [Menu.mkItem "Pasta" true]) None;
       Menu.mkDayMenu "Friday" None (Some [Menu.mkItem "Laks" true])])].

(** A menu that asks for nothing against [oldMenu]: the known canteen as
    it was, and a new canteen with Norwegian items only. *)
Definition quietMenu : Menu.Canteens :=
  oldMenu ++
  [("Bygg B",
    Menu.mkCanteen None
      [Menu.mkDayMenu "Friday" None (Some [Menu.mkItem "Laks" true])])].

(** The change of [newMenu] against [oldMenu] at the known canteen. *)
Definition tuesdayChange : Menu.Change :=
  Menu.mkChange "The Hub" "tuesday" (Some "Stew") "Curry"
                (Some "dish changed").

End Samples.

(** * Properties *)

(** ** Array reads and writes *)

Section ArrFacts.

Implicit Types (a : list bool) (d : list Z) (i j : Z).

Lemma get_true_range a i :
  Arr.get a i = true → 0 ≤ i < Z.of_nat (length a).
Proof.
  unfold Arr.get. destruct (Z.ltb_spec i 0) as [|Hi]; [done|].
  destruct (a !! Z.to_nat i) eqn:E; [|done].
  intros _. apply lookup_lt_Some in E. lia.
Qed.

Lemma length_set a i : length (Arr.set a i) = length a.
Proof. unfold Arr.set. case_match; [done|]. apply length_insert. Qed.

Lemma get_set_eq a i :
  0 ≤ i < Z.of_nat (length a) → Arr.get (Arr.set a i) i = true.
Proof.
  intros Hi. unfold Arr.get, Arr.set.
  destruct (Z.ltb_spec i 0); [lia|].
  rewrite list_lookup_insert_eq; [done | lia].
Qed.

Lemma get_set_ne a i j : i ≠ j → Arr.get (Arr.set a i) j = Arr.get a j.
Proof.
  intros Hne. unfold Arr.get, Arr.set.
  destruct (Z.ltb_spec j 0); [done|].
  destruct (Z.ltb_spec i 0); [done|].
  rewrite list_lookup_insert_ne; [done | lia].
Qed.

Lemma get_set a i j :
  Arr.get (Arr.set a i) j = true ↔
  Arr.get a j = true ∨ (i = j ∧ 0 ≤ i < Z.of_nat (length a)).
Proof.
  destruct (decide (i = j)) as [->|Hne].
  - split.
    + intros H. apply get_true_range in H. rewrite length_set in H. auto.
    + intros [H|[_ H]]; apply get_set_eq; [|done].
      by apply get_true_range.
  - rewrite get_set_ne by done. split; [auto | by intros [?|[? _]]].
Qed.

Lemma get_set_mono a i j :
  Arr.get a j = true → Arr.get (Arr.set a i) j = true.
Proof. intros H. apply get_set. auto. Qed.

Lemma get_replicate_false n i : Arr.get (replicate n false) i = false.
Proof.
  unfold Arr.get. case_match; [done|].
  destruct (replicate n false !! Z.to_nat i) eqn:E; [|done].
  by apply lookup_replicate in E as [-> _].
Qed.

Lemma get_false_lookup a i :
  0 ≤ i < Z.of_nat (length a) → Arr.get a i = false →
  a !! Z.to_nat i = Some false.
Proof.
  intros Hi. unfold Arr.get. destruct (Z.ltb_spec i 0); [lia|].
  destruct (a !! Z.to_nat i) as [b|] eqn:E.
  - simpl. by intros ->.
  - apply lookup_ge_None in E. lia.
Qed.

Lemma filter_insert_gain {A} (P : A → Prop) `{!∀ x, Decision (P x)}
    (l : list A) (n : nat) (x y : A) :
  l !! n = Some x → ¬ P x → P y →
  length (filter P (<[n:=y]> l)) = S (length (filter P l)).
Proof.
  intros Hl Hx Hy.
  rewrite insert_take_drop by (by eapply lookup_lt_Some).
  rewrite <- (take_drop_middle l n x) at 3 by done.
  rewrite !filter_app, !filter_cons.
  rewrite decide_True by done. rewrite decide_False by done.
  rewrite !length_app. simpl. lia.
Qed.

Lemma filter_insert_loss {A} (P : A → Prop) `{!∀ x, Decision (P x)}
    (l : list A) (n : nat) (x y : A) :
  l !! n = Some x → P x → ¬ P y →
  S (length (filter P (<[n:=y]> l))) = length (filter P l).
Proof.
  intros Hl Hx Hy.
  rewrite insert_take_drop by (by eapply lookup_lt_Some).
  rewrite <- (take_drop_middle l n x) at 3 by done.
  rewrite !filter_app, !filter_cons.
  rewrite decide_False by done. rewrite decide_True by done.
  rewrite !length_app. simpl. lia.
Qed.

Lemma filter_none {A} (P : A → Prop) `{!∀ x, Decision (P x)} (l : list A) :
  (∀ x, x ∈ l → ¬ P x) → filter P l = [].
Proof.
  induction l as [|x l IH]; intros Hl; [done|].
  rewrite filter_cons, decide_False by (apply Hl; left).
  apply IH. intros y Hy. apply Hl. by right.
Qed.

Lemma count_set a i :
  0 ≤ i < Z.of_nat (length a) → Arr.get a i = false →
  Arr.count (Arr.set a i) = Arr.count a + 1.
Proof.
  intros Hi Hg. apply get_false_lookup in Hg; [|done].
  unfold Arr.count, Arr.set. destruct (Z.ltb_spec i 0); [lia|].
  erewrite filter_insert_gain; [lia | done | done | done].
Qed.

Lemma zeros_set a i :
  0 ≤ i < Z.of_nat (length a) → Arr.get a i = false →
  S (Arr.zeros (Arr.set a i)) = Arr.zeros a.
Proof.
  intros Hi Hg. apply get_false_lookup in Hg; [|done].
  unfold Arr.zeros, Arr.set. destruct (Z.ltb_spec i 0); [lia|].
  by erewrite filter_insert_loss.
Qed.

Lemma count_bounds a : 0 ≤ Arr.count a ≤ Z.of_nat (length a).
Proof.
  unfold Arr.count.
  pose proof (length_filter (λ b : bool, b = true) a). lia.
Qed.

Lemma length_setByte d i v : length (Arr.setByte d i v) = length d.
Proof. unfold Arr.setByte. case_match; [done|]. apply length_insert. Qed.

Lemma byte_setByte_eq d i v :
  0 ≤ i < Z.of_nat (length d) → Arr.byte (Arr.setByte d i v) i = Some v.
Proof.
  intros Hi. unfold Arr.byte, Arr.setByte.
  destruct (Z.ltb_spec i 0); [lia|].
  rewrite list_lookup_insert_eq; [done | lia].
Qed.

Lemma byte_setByte_ne d i j v :
  i ≠ j → Arr.byte (Arr.setByte d i v) j = Arr.byte d j.
Proof.
  intros Hne. unfold Arr.byte, Arr.setByte.
  destruct (Z.ltb_spec j 0); [done|].
  destruct (Z.ltb_spec i 0); [done|].
  rewrite list_lookup_insert_ne; [done | lia].
Qed.

Lemma byte_Some_range d i v :
  Arr.byte d i = Some v → 0 ≤ i < Z.of_nat (length d).
Proof.
  unfold Arr.byte. destruct (Z.ltb_spec i 0); [done|].
  intros E. apply lookup_lt_Some in E. lia.
Qed.

Lemma byte_in_range d i :
  0 ≤ i < Z.of_nat (length d) → ∃ v, Arr.byte d i = Some v.
Proof.
  intros Hi. unfold Arr.byte. destruct (Z.ltb_spec i 0); [lia|].
  apply lookup_lt_is_Some. lia.
Qed.

End ArrFacts.

(** ** Counting loops *)

Section ForRange.

Context {S : Type}.
Implicit Types (body : Z → S → S).

Lemma forRange_nil lo n body s : n ≤ 0 → forRange lo n body s = s.
Proof. intros H. unfold forRange. by rewrite seqZ_nil. Qed.

Lemma forRange_snoc lo n body s :
  0 ≤ n →
  forRange lo (n + 1) body s = body (lo + n) (forRange lo n body s).
Proof.
  intros H. unfold forRange.
  rewrite seqZ_app by lia. rewrite foldl_app.
  rewrite (seqZ_cons (lo + n) 1) by lia.
  by rewrite (seqZ_nil (Z.succ (lo + n))) by lia.
Qed.

(** A loop invariant indexed by the counter. *)
Lemma forRange_inv (P : Z → S → Prop) lo n body s :
  0 ≤ n → P lo s →
  (∀ i s, lo ≤ i < lo + n → P i s → P (i + 1) (body i s)) →
  P (lo + n) (forRange lo n body s).
Proof.
  intros Hn H0 Hstep.
  assert (∀ k : nat, Z.of_nat k ≤ n →
    P (lo + Z.of_nat k) (forRange lo (Z.of_nat k) body s)) as Hk.
  { induction k as [|k IH]; intros Hle.
    - rewrite forRange_nil by lia. by rewrite Z.add_0_r.
    - rewrite Nat2Z.inj_succ, <- Z.add_1_r.
      rewrite forRange_snoc by lia. rewrite Z.add_assoc.
      apply Hstep; [lia|]. apply IH. lia. }
  specialize (Hk (Z.to_nat n)). rewrite Z2Nat.id in Hk by done.
  apply Hk. lia.
Qed.

(** An invariant that does not mention the counter. *)
Lemma forRange_keeps (P : S → Prop) lo n body s :
  P s → (∀ i s, lo ≤ i < lo + n → P s → P (body i s)) →
  P (forRange lo n body s).
Proof.
  intros H0 Hstep. destruct (Z.le_gt_cases 0 n).
  - by apply (forRange_inv (λ _, P)).
  - rewrite forRange_nil by lia. done.
Qed.

End ForRange.

(** ** Coordinates *)

Set Default Proof Using "All".

Section Grid.

Variables width height : Z.
Hypothesis width_pos : 0 < width.
Hypothesis height_pos : 0 < height.

Local Abbreviation col := (colOf width).
Local Abbreviation row := (rowOf width).
Local Abbreviation grid := (inGrid width height).

Lemma coords_of x y :
  0 ≤ x < width → 0 ≤ y → col (y * width + x) = x ∧ row (y * width + x) = y.
Proof.
  intros Hx Hy. unfold colOf, rowOf.
  rewrite Z.rem_mod_nonneg by nia. split; symmetry.
  - apply (Z.mod_unique _ _ y); [lia | ring].
  - apply (Z.div_unique _ _ _ x); [lia | ring].
Qed.

Lemma coords i :
  0 ≤ i →
  0 ≤ col i < width ∧ 0 ≤ row i ∧ i = row i * width + col i.
Proof.
  intros Hi. unfold colOf, rowOf.
  rewrite Z.rem_mod_nonneg by lia.
  pose proof (Z.mod_pos_bound i width width_pos).
  pose proof (Z.div_pos i width Hi width_pos).
  pose proof (Z.div_mod i width). lia.
Qed.

Lemma row_bound i : grid i → row i < height.
Proof.
  intros [Hi Hlt]. destruct (coords i Hi) as (Hc & Hr & E). nia.
Qed.

Lemma grid_of x y :
  0 ≤ x < width → 0 ≤ y < height → grid (y * width + x).
Proof. intros Hx Hy. unfold inGrid. nia. Qed.

(** What [neighbours] pushes are the grid pixels adjacent to [i]. *)
Lemma neighbours_spec i j :
  grid i → j ∈ neighbours width height i ↔ grid j ∧ adjacent width i j.
Proof.
  intros Hi. pose proof (row_bound i Hi) as Hrb.
  destruct Hi as [Hi0 Hi1].
  destruct (coords i Hi0) as (Hc & Hr & E).
  unfold neighbours. rewrite !elem_of_app.
  assert (∀ x y, 0 ≤ x < width → 0 ≤ y →
    j = y * width + x → col j = x ∧ row j = y) as Hco.
  { intros x y Hx Hy ->. by apply coords_of. }
  split.
  - intros Hin.
    assert (∃ x y, 0 ≤ x < width ∧ 0 ≤ y < height ∧ j = y * width + x ∧
      ((y = row i ∧ Z.abs (col i - x) = 1) ∨
       (x = col i ∧ Z.abs (row i - y) = 1))) as (x & y & Hx & Hy & Ej & Hadj).
    { destruct Hin as [Hin|[Hin|[Hin|Hin]]];
        [destruct (Z.ltb_spec 0 (col i))
        |destruct (Z.ltb_spec (col i) (width - 1))
        |destruct (Z.ltb_spec 0 (row i))
        |destruct (Z.ltb_spec (row i) (height - 1))];
        try (by apply elem_of_nil in Hin);
        apply list_elem_of_singleton in Hin.
      - exists (col i - 1), (row i). repeat split; try lia.
      - exists (col i + 1), (row i). repeat split; try lia.
      - exists (col i), (row i - 1). repeat split; try lia.
      - exists (col i), (row i + 1). repeat split; try lia. }
    destruct (Hco x y Hx ltac:(lia) Ej) as [Hcj Hrj].
    split; [subst j; by apply grid_of|].
    unfold adjacent. rewrite Hcj, Hrj. lia.
  - intros [[Hj0 Hj1] Hadj].
    pose proof (row_bound j (conj Hj0 Hj1)) as Hrbj.
    destruct (coords j Hj0) as (Hcj & Hrj & Ej).
    unfold adjacent in Hadj.
    destruct (Z.ltb_spec 0 (col i)), (Z.ltb_spec (col i) (width - 1)),
      (Z.ltb_spec 0 (row i)), (Z.ltb_spec (row i) (height - 1));
      rewrite ?list_elem_of_singleton, ?elem_of_nil; nia.
Qed.

End Grid.

(** ** Queues filled by a loop *)

Lemma elem_of_forRange_app {A} (lo n : Z) (f : Z → list A) (q0 : list A) e :
  e ∈ forRange lo n (λ i q, q ++ f i) q0 ↔
  e ∈ q0 ∨ ∃ i, lo ≤ i < lo + n ∧ e ∈ f i.
Proof.
  destruct (Z.le_gt_cases 0 n) as [Hn|Hn].
  - revert e.
    apply (forRange_inv (λ k q, ∀ e,
      e ∈ q ↔ e ∈ q0 ∨ ∃ i, lo ≤ i < k ∧ e ∈ f i)); [done| |].
    + intros e. split; [auto|]. intros [?|(i & ? & _)]; [done | lia].
    + intros i q Hi IH e. rewrite elem_of_app, IH. split.
      * intros [[?|(i' & ? & ?)]|?]; [by left | right; exists i' | right; exists i];
          (split; [lia | done]).
      * intros [?|(i' & Hi' & ?)]; [by left; left|].
        destruct (decide (i' = i)) as [->|]; [by right|].
        left; right. exists i'. split; [lia | done].
  - rewrite forRange_nil by lia. split; [auto|].
    intros [?|(i & ? & _)]; [done | lia].
Qed.

Lemma length_forRange_app {A} (lo n k : Z) (f : Z → list A) (q0 : list A) :
  0 ≤ n → (∀ i, Z.of_nat (length (f i)) = k) →
  Z.of_nat (length (forRange lo n (λ i q, q ++ f i) q0)) =
  Z.of_nat (length q0) + k * n.
Proof.
  intros Hn Hf.
  pose proof (forRange_inv (λ j q,
    Z.of_nat (length q) = Z.of_nat (length q0) + k * (j - lo))
    lo n (λ i q, q ++ f i) q0 Hn) as H.
  simpl in H. replace (lo + n - lo) with n in H by lia. apply H; [lia|].
  intros i q Hi IH. rewrite length_app. specialize (Hf i). lia.
Qed.

(** ** The seeds of the flood fill *)

Section Seeds.

Variables width height : Z.
Hypothesis width_pos : 0 < width.
Hypothesis height_pos : 0 < height.

Lemma elem_of_edgeSeeds s :
  s ∈ edgeSeeds width height ↔
  (∃ x, 0 ≤ x < width ∧ (s = x ∨ s = (height - 1) * width + x)) ∨
  (∃ y, 1 ≤ y < height - 1 ∧ (s = y * width ∨ s = y * width + (width - 1))).
Proof.
  unfold edgeSeeds. rewrite !elem_of_forRange_app.
  setoid_rewrite elem_of_cons. setoid_rewrite list_elem_of_singleton.
  rewrite elem_of_nil. split.
  - intros [[[]|(x & Hx & Hs)]|(y & Hy & Hs)].
    + left. exists x. split; [lia | done].
    + right. exists y. split; [lia | done].
  - intros [(x & Hx & Hs)|(y & Hy & Hs)].
    + left; right. exists x. split; [lia | done].
    + right. exists y. split; [lia | done].
Qed.

(** The seeds are the border pixels. *)
Lemma edgeSeeds_spec s :
  s ∈ edgeSeeds width height ↔ inGrid width height s ∧ onEdge width height s.
Proof.
  rewrite elem_of_edgeSeeds. unfold onEdge. split.
  - intros [(x & Hx & [->| ->])|(y & Hy & [->| ->])].
    + destruct (coords_of width height width_pos height_pos x 0) as [Hc Hr]; [lia..|].
      rewrite Z.mul_0_l, Z.add_0_l in Hc, Hr.
      split; [unfold inGrid; nia | auto].
    + destruct (coords_of width height width_pos height_pos x (height - 1)) as [Hc Hr]; [lia..|].
      split; [by apply grid_of; lia | auto].
    + destruct (coords_of width height width_pos height_pos 0 y) as [Hc Hr]; [lia..|].
      rewrite Z.add_0_r in Hc, Hr.
      split; [unfold inGrid; nia | auto].
    + destruct (coords_of width height width_pos height_pos (width - 1) y) as [Hc Hr]; [lia..|].
      split; [by apply grid_of; lia | auto].
  - intros [Hg He]. pose proof (row_bound width height width_pos height_pos s Hg) as Hrb.
    destruct Hg as [Hs0 Hs1].
    destruct (coords width height width_pos height_pos s Hs0) as (Hc & Hr & E).
    destruct (decide (rowOf width s = 0)) as [E0|N0].
    { left. exists (colOf width s). split; [done|]. left. rewrite E0 in E. lia. }
    destruct (decide (rowOf width s = height - 1)) as [E1|N1].
    { left. exists (colOf width s). split; [done|]. right.
      rewrite E1 in E. lia. }
    right. exists (rowOf width s). split; [lia|].
    destruct He as [He|[He|[He|He]]]; [left | right | done | done];
      rewrite He in E; lia.
Qed.

End Seeds.

Lemma length_neighbours width height i :
  (length (neighbours width height i) ≤ 4)%nat.
Proof.
  unfold neighbours. rewrite !length_app.
  repeat case_match; simpl; lia.
Qed.

Lemma pathFrom_inv width height src ok i :
  pathFrom width height src ok i → inGrid width height i ∧ ok i = true.
Proof. by intros [|]. Qed.

(** ** The flood fill *)

Section FloodFill.

Variables (data : list Z) (width height channels : Z).
Hypothesis width_pos : 0 < width.
Hypothesis height_pos : 0 < height.

Local Abbreviation grey := (greyAt data channels).
Local Abbreviation grid := (inGrid width height).
Local Abbreviation reach := (borderConnected data width height channels).
Local Abbreviation visit := (fillVisit data width height channels).
Local Abbreviation total := (Z.to_nat (width * height)).

(** The three ways a turn of the loop can go. *)
Lemma fillVisit_cases st idx rest :
  ((¬ grid idx ∨ Arr.get (visited st) idx = true) ∧
   visit st idx rest = mkFill (visited st) (isBackground st) rest) ∨
  (grid idx ∧ Arr.get (visited st) idx = false ∧ grey idx = false ∧
   visit st idx rest =
     mkFill (Arr.set (visited st) idx) (isBackground st) rest) ∨
  (grid idx ∧ Arr.get (visited st) idx = false ∧ grey idx = true ∧
   visit st idx rest =
     mkFill (Arr.set (visited st) idx) (Arr.set (isBackground st) idx)
            (rest ++ neighbours width height idx)).
Proof.
  unfold fillVisit, inGrid.
  destruct (Z.ltb_spec idx 0); [left; split; [left; lia | done]|].
  destruct (Z.leb_spec (width * height) idx); [left; split; [left; lia | done]|].
  destruct (Arr.get (visited st) idx) eqn:Ev; [left; split; [by right | done]|].
  simpl. right. destruct (grey idx) eqn:Eg; simpl; [right | left]; done.
Qed.

Local Abbreviation fillInv := (Inv.fillInv data width height channels).

Lemma fillInit_inv : fillInv (fillInit width height).
Proof.
  unfold fillInit. split; simpl.
  - apply length_replicate.
  - apply length_replicate.
  - intros i. by rewrite get_replicate_false.
  - intros i. by rewrite get_replicate_false.
  - intros i. by rewrite get_replicate_false.
  - intros q Hq Hg Hgrey. apply path_start; [done | | done].
    by apply edgeSeeds_spec in Hq as [_ ?].
  - intros s Hg He. right. by apply edgeSeeds_spec.
  - intros i j. by rewrite get_replicate_false.
Qed.

Lemma grid_range (a : list bool) idx :
  length a = total → grid idx → 0 ≤ idx < Z.of_nat (length a).
Proof. intros -> [? ?]. lia. Qed.

Lemma fillVisit_inv st idx rest :
  fillInv st → queue st = idx :: rest → fillInv (visit st idx rest).
Proof.
  intros [Hlv Hlm Hsound Hmv Hgm Hq Hseed Hfront] Eq.
  rewrite Eq in Hq, Hseed, Hfront.
  assert (∀ j, j ∈ idx :: rest → j = idx ∨ j ∈ rest) as Hcons.
  { intros j. by rewrite elem_of_cons. }
  destruct (fillVisit_cases st idx rest)
    as [[Hskip ->]|[(Hg & Hv & Hgrey & ->)|(Hg & Hv & Hgrey & ->)]].
  - split; simpl; try done.
    + intros q Hin. apply Hq. by right.
    + intros s Hs He. destruct (Hseed s Hs He) as [?|Hin]; [by left|].
      apply Hcons in Hin as [->|?]; [|by right].
      destruct Hskip as [?|?]; [done | by left].
    + intros i j Hi Hj Ha. destruct (Hfront i j Hi Hj Ha) as [?|Hin]; [by left|].
      apply Hcons in Hin as [->|?]; [|by right].
      destruct Hskip as [?|?]; [done | by left].
  - pose proof (grid_range _ idx Hlv Hg) as Hr.
    split; simpl; try done.
    + by rewrite length_set.
    + intros i Hi. apply get_set_mono. by apply Hmv.
    + intros i Hi Hgi. apply get_set in Hi as [Hi|[<- _]]; [by apply Hgm|].
      congruence.
    + intros q Hin. apply Hq. by right.
    + intros s Hs He. destruct (Hseed s Hs He) as [?|Hin].
      { left. by apply get_set_mono. }
      apply Hcons in Hin as [->|?]; [|by right]. left. by apply get_set_eq.
    + intros i j Hi Hj Ha. destruct (Hfront i j Hi Hj Ha) as [?|Hin].
      { left. by apply get_set_mono. }
      apply Hcons in Hin as [->|?]; [|by right]. left. by apply get_set_eq.
  - pose proof (grid_range _ idx Hlv Hg) as Hr.
    assert (reach idx) as Hreach.
    { apply Hq; [by left | done | done]. }
    split; simpl.
    + by rewrite length_set.
    + by rewrite length_set.
    + intros i Hi. apply get_set in Hi as [Hi|[<- _]]; [by apply Hsound | done].
    + intros i Hi. apply get_set in Hi as [Hi|[<- _]].
      * apply get_set_mono. by apply Hmv.
      * by apply get_set_eq.
    + intros i Hi Hgi. apply get_set in Hi as [Hi|[<- _]].
      * apply get_set_mono. by apply Hgm.
      * apply get_set_eq. by rewrite Hlm, <- Hlv.
    + intros q Hin Hgq Hgrey'. apply elem_of_app in Hin as [Hin|Hin].
      * apply Hq; [by right | done | done].
      * apply (neighbours_spec width height width_pos height_pos) in Hin
          as [_ Hadj]; [|done].
        by eapply path_step.
    + intros s Hs He. destruct (Hseed s Hs He) as [?|Hin].
      { left. by apply get_set_mono. }
      apply Hcons in Hin as [->|?].
      * left. by apply get_set_eq.
      * right. apply elem_of_app. by left.
    + intros i j Hi Hj Ha. apply get_set in Hi as [Hi|[<- _]].
      * destruct (Hfront i j Hi Hj Ha) as [?|Hin].
        { left. by apply get_set_mono. }
        apply Hcons in Hin as [->|?].
        -- left. by apply get_set_eq.
        -- right. apply elem_of_app. by left.
      * right. apply elem_of_app. right.
        by apply (neighbours_spec width height width_pos height_pos).
Qed.

Lemma fillVisit_measure st idx rest :
  fillInv st → queue st = idx :: rest →
  (fillMeasure (visit st idx rest) < fillMeasure st)%nat.
Proof.
  intros Hinv Eq. unfold fillMeasure. rewrite Eq.
  destruct (fillVisit_cases st idx rest)
    as [[Hskip ->]|[(Hg & Hv & Hgrey & ->)|(Hg & Hv & Hgrey & ->)]]; simpl.
  - lia.
  - pose proof (grid_range _ idx (Inv.inv_len_visited _ _ _ _ _ Hinv) Hg) as Hr.
    pose proof (zeros_set _ _ Hr Hv). lia.
  - pose proof (grid_range _ idx (Inv.inv_len_visited _ _ _ _ _ Hinv) Hg) as Hr.
    pose proof (zeros_set _ _ Hr Hv).
    pose proof (length_neighbours width height idx).
    rewrite length_app. lia.
Qed.

(** With the fuel [floodFillBackground] supplies the loop runs until the
    queue is empty. *)
Lemma fillLoop_runs fuel st :
  fillInv st → (fillMeasure st ≤ fuel)%nat →
  ∃ st', fillLoop data width height channels fuel st = Some st' ∧
         fillInv st' ∧ queue st' = [].
Proof.
  revert st. induction fuel as [|fuel IH]; intros st Hinv Hm.
  - destruct (queue st) as [|idx rest] eqn:Eq.
    + exists st. simpl. by rewrite Eq.
    + unfold fillMeasure in Hm. rewrite Eq in Hm. simpl in Hm. lia.
  - simpl. destruct (queue st) as [|idx rest] eqn:Eq.
    + by exists st.
    + apply IH; [by apply fillVisit_inv|].
      pose proof (fillVisit_measure st idx rest Hinv Eq). lia.
Qed.

Lemma fill_complete st :
  fillInv st → queue st = [] →
  ∀ i, reach i → Arr.get (isBackground st) i = true.
Proof.
  intros [Hlv Hlm Hsound Hmv Hgm Hq Hseed Hfront] Eq.
  rewrite Eq in Hseed, Hfront.
  induction 1 as [i Hg He Hgrey|i j _ IH Hg Ha Hgrey].
  - apply Hgm; [|done].
    destruct (Hseed i Hg He) as [?|Hin]; [done | by apply elem_of_nil in Hin].
  - apply Hgm; [|done].
    destruct (Hfront i j IH Hg Ha) as [?|Hin];
      [done | by apply elem_of_nil in Hin].
Qed.

Lemma floodFill_correct :
  ∃ mask, floodFillBackground data width height channels = Some mask ∧
    length mask = total ∧
    ∀ i, Arr.get mask i = true ↔ reach i.
Proof.
  destruct (fillLoop_runs (fillMeasure (fillInit width height))
              (fillInit width height) fillInit_inv ltac:(lia))
    as (st & Hrun & Hinv & Hq).
  exists (isBackground st). unfold floodFillBackground. simpl.
  rewrite Hrun. split; [done|]. split; [by apply (Inv.inv_len_mask _ _ _ _ _ Hinv)|].
  intros i. split; [by apply (Inv.inv_sound _ _ _ _ _ Hinv) | by apply fill_complete].
Qed.

End FloodFill.

Lemma adjacent_sym width i j : adjacent width i j → adjacent width j i.
Proof. unfold adjacent. lia. Qed.

(** C1. For an image of positive width and height, [floodFillBackground]
    returns a mask in which a pixel is set if and only if the pixel
    satisfies the classifier and a 4-connected path of classifier-positive
    pixels leads to it from a pixel on one of the four edges. In particular
    a pixel off the border all of whose neighbours fail the classifier is
    not set, whatever its own colour. *)
Theorem floodFill_border_connected (data : list Z) (width height channels : Z) :
  0 < width → 0 < height →
  ∃ mask, floodFillBackground data width height channels = Some mask ∧
    (∀ idx, Arr.get mask idx = true ↔
            greyAt data channels idx = true ∧
            borderConnected data width height channels idx) ∧
    (∀ idx, inGrid width height idx → ¬ onEdge width height idx →
            (∀ j, inGrid width height j → adjacent width idx j →
                  greyAt data channels j = false) →
            Arr.get mask idx = false).
Proof.
  intros Hw Hh.
  destruct (floodFill_correct data width height channels Hw Hh)
    as (mask & Hrun & _ & Hmask).
  exists mask. split; [done|]. split.
  - intros idx. rewrite Hmask. split; [|by intros [_ ?]].
    intros Hreach. split; [|done]. by apply pathFrom_inv in Hreach as [_ ?].
  - intros idx Hg Hedge Hnb. apply not_true_is_false. rewrite Hmask.
    inversion 1 as [i _ He _|i j Hi _ Hadj _]; [done|].
    apply pathFrom_inv in Hi as [Hgi Hgrey].
    rewrite (Hnb i Hgi) in Hgrey; [done|]. by apply adjacent_sym.
Qed.

Lemma floodFill_border_connected_witness :
  ∃ mask, floodFillBackground Samples.ring 5 5 4 = Some mask ∧
    (∀ idx, Arr.get mask idx = true ↔
            greyAt Samples.ring 4 idx = true ∧
            borderConnected Samples.ring 5 5 4 idx) ∧
    (∀ idx, inGrid 5 5 idx → ¬ onEdge 5 5 idx →
            (∀ j, inGrid 5 5 j → adjacent 5 idx j →
                  greyAt Samples.ring 4 j = false) →
            Arr.get mask idx = false).
Proof. apply (floodFill_border_connected Samples.ring 5 5 4); lia. Defined.

(** ** The classifier *)

(** C2. For channel values between 0 and 255, [isGreyPixel] answers true
    exactly when the channel spread is below 50 and the average brightness
    is at most 185. It is a function of its three arguments alone. *)
Theorem isGreyPixel_spec (r g b : Z) :
  0 ≤ r ≤ 255 → 0 ≤ g ≤ 255 → 0 ≤ b ≤ 255 →
  isGreyPixel r g b = true ↔ ClassifierSpec.isBackgroundColour r g b.
Proof.
  intros _ _ _. unfold isGreyPixel, ClassifierSpec.isBackgroundColour.
  rewrite andb_true_iff, Z.ltb_lt, Qle_bool_iff. done.
Qed.

Lemma isGreyPixel_spec_witness :
  isGreyPixel 112 112 112 = true ↔ ClassifierSpec.isBackgroundColour 112 112 112.
Proof. apply (isGreyPixel_spec 112 112 112); lia. Defined.

Example isGreyPixel_samples :
  isGreyPixel 112 112 112 = true ∧ isGreyPixel 255 255 255 = false ∧
  isGreyPixel 185 185 185 = true ∧ isGreyPixel 186 185 185 = false ∧
  isGreyPixel 100 149 100 = true ∧ isGreyPixel 100 150 100 = false.
Proof. by vm_compute. Qed.

(** The brightness test on integers: the average is at most 185 exactly
    when the channels sum to at most 555. *)
Lemma brightness_le_185 (r g b : Z) :
  Qle_bool (brightnessOf r g b) 185 = true ↔ r + g + b ≤ 555.
Proof.
  rewrite Qle_bool_iff. unfold brightnessOf, Qle, Qdiv, Qmult, Qinv, inject_Z.
  simpl. lia.
Qed.

(** ** The shadow cleanup *)

Section Density.

Import DensitySpec.

Lemma sampleCounts_spec isBackground width x y :
  sampleCounts isBackground width x y =
  (Z.of_nat (length (markedPoints isBackground width x y samplePoints)),
   Z.of_nat (length samplePoints)).
Proof.
  pose (pt := λ dy dx : Z,
    if Density.radius * Density.radius <? dx * dx + dy * dy
    then [] else [(dx, dy)]).
  pose (step := λ (dy : Z) '(transparent, total) (dx : Z),
    if Density.radius * Density.radius <? dx * dx + dy * dy
    then (transparent, total)
    else
      (if Arr.get isBackground ((y + dy) * width + (x + dx))
       then transparent + 1 else transparent, total + 1)).
  assert (∀ dy xs t n,
    foldl (step dy) (t, n) xs =
    (t + Z.of_nat (length (markedPoints isBackground width x y
                             (xs ≫= pt dy))),
     n + Z.of_nat (length (xs ≫= pt dy)))) as Hinner.
  { unfold markedPoints.
    intros dy xs. induction xs as [|dx xs IH]; intros t n.
    { simpl. f_equal; lia. }
    rewrite bind_cons. simpl foldl. unfold pt at 1 3.
    destruct (Density.radius * Density.radius <? dx * dx + dy * dy).
    { by rewrite IH. }
    rewrite IH. simpl. rewrite filter_cons.
    assert (marked isBackground width x y (dx, dy) =
            Arr.get isBackground ((y + dy) * width + (x + dx))) as Em by done.
    destruct (Arr.get isBackground ((y + dy) * width + (x + dx))) eqn:E.
    - rewrite decide_True by done. simpl. f_equal; lia.
    - rewrite decide_False by (by rewrite Em). f_equal; lia. }
  assert (∀ xs ys t n,
    foldl (λ acc dy, foldl (step dy) acc xs) (t, n) ys =
    (t + Z.of_nat (length (markedPoints isBackground width x y
                             (ys ≫= λ dy, xs ≫= pt dy))),
     n + Z.of_nat (length (ys ≫= λ dy, xs ≫= pt dy))))
    as Houter.
  { unfold markedPoints in *. intros xs.
    induction ys as [|dy ys IH]; intros t n.
    { simpl. f_equal; lia. }
    rewrite bind_cons. simpl foldl.
    rewrite Hinner, IH.
    rewrite filter_app, !length_app. f_equal; lia. }
  unfold sampleCounts, samplePoints. generalize Density.offsets. intros l.
  specialize (Houter l l 0 0). rewrite !Z.add_0_l in Houter. exact Houter.
Qed.

Lemma negb_Qle_bool (a b : Q) : negb (Qle_bool a b) = true ↔ (b < a)%Q.
Proof.
  rewrite negb_true_iff, <- not_true_iff_false, Qle_bool_iff. split.
  - apply Qnot_le_lt.
  - apply Qlt_not_le.
Qed.

Lemma shadowCandidate_spec data isBackground width channels x y :
  shadowCandidate data isBackground width channels x y = true ↔
  Arr.get isBackground (y * width + x) = false ∧
  (∀ brightness, brightnessAt data channels (y * width + x) = Some brightness →
                 (brightness <= Density.brightnessMax)%Q) ∧
  (Density.transparencyThreshold <
     backgroundFraction isBackground width x y)%Q.
Proof.
  unfold shadowCandidate, backgroundFraction.
  rewrite sampleCounts_spec.
  destruct (Arr.get isBackground (y * width + x));
    [split; [done | by intros [? _]]|].
  destruct (brightnessAt data channels (y * width + x)) as [b|].
  - destruct (Qle_bool b Density.brightnessMax) eqn:E; simpl.
    + rewrite negb_Qle_bool. apply Qle_bool_iff in E. split.
      * intros Hf. split; [done|]. split; [|done]. by intros ? [= <-].
      * by intros (_ & _ & ?).
    + split; [done|]. intros (_ & Hb & _).
      specialize (Hb b eq_refl). apply Qle_bool_iff in Hb. congruence.
  - rewrite negb_Qle_bool. split.
    + intros Hf. by split; [|split].
    + by intros (_ & _ & ?).
Qed.

End Density.

(** ** Loops that push on a list *)

Lemma foldl_ext_in {A B} (f g : A → B → A) (l : list B) (a : A) :
  (∀ a x, x ∈ l → f a x = g a x) → foldl f a l = foldl g a l.
Proof.
  revert a. induction l as [|x l IH]; intros a Hfg; [done|].
  simpl. rewrite Hfg by left. apply IH. intros a' y Hy. apply Hfg. by right.
Qed.

Lemma forRange_ext {S} (lo n : Z) (body1 body2 : Z → S → S) (s : S) :
  (∀ i s, lo ≤ i < lo + n → body1 i s = body2 i s) →
  forRange lo n body1 s = forRange lo n body2 s.
Proof.
  intros H. unfold forRange. apply foldl_ext_in.
  intros a x Hx. apply H. by apply elem_of_seqZ.
Qed.

Lemma forRange_app_start {A} (lo n : Z) (f : Z → list A) (q0 : list A) :
  forRange lo n (λ i q, q ++ f i) q0 =
  q0 ++ forRange lo n (λ i q, q ++ f i) [].
Proof.
  unfold forRange. generalize (seqZ lo n). intros l. revert q0.
  induction l as [|x l IH]; intros q0; simpl.
  - by rewrite app_nil_r.
  - rewrite IH, (IH (f x)). by rewrite app_assoc.
Qed.

Lemma NoDup_forRange_app {A} (lo n : Z) (f : Z → list A) :
  (∀ i, NoDup (f i)) →
  (∀ i j e, lo ≤ i < lo + n → lo ≤ j < lo + n → i ≠ j →
            e ∈ f i → e ∉ f j) →
  NoDup (forRange lo n (λ i q, q ++ f i) []).
Proof.
  intros Hnd Hdisj. destruct (Z.le_gt_cases 0 n) as [Hn|Hn].
  - enough (NoDup (forRange lo n (λ i q, q ++ f i) []) ∧
      ∀ e, e ∈ forRange lo n (λ i q, q ++ f i) [] →
           ∃ i, lo ≤ i < lo + n ∧ e ∈ f i) as [? _] by done.
    apply (forRange_inv (λ k q,
      NoDup q ∧ ∀ e, e ∈ q → ∃ i, lo ≤ i < k ∧ e ∈ f i)); [done| |].
    + split; [constructor|]. intros e He. by apply elem_of_nil in He.
    + intros i q Hi [Hq Hin]. split.
      * apply NoDup_app. split; [done|]. split; [|done].
        intros e He. destruct (Hin e He) as (j & Hj & Hej).
        apply (Hdisj j i); [lia | lia | lia | done].
      * intros e He. apply elem_of_app in He as [He|He].
        -- destruct (Hin e He) as (j & Hj & Hej). exists j. split; [lia | done].
        -- exists i. split; [lia | done].
  - rewrite forRange_nil by lia. constructor.
Qed.

Section Scan.

Import DensitySpec.

Variables (data : list Z) (isBackground : list bool).
Variables (width height channels : Z).

Local Abbreviation hit := (Inv.hit data isBackground width channels).
Local Abbreviation rowHits := (Inv.rowHits data isBackground width channels).

Lemma scanPass_rows :
  scanPass data isBackground width height channels =
  forRange Density.radius (height - Density.radius - Density.radius)
    (λ y q, q ++ rowHits y) [].
Proof.
  unfold scanPass. apply forRange_ext. intros y q _.
  unfold Inv.rowHits. rewrite <- forRange_app_start.
  apply forRange_ext. intros x q' _. unfold Inv.hit.
  destruct (shadowCandidate _ _ _ _ _ _); [done | by rewrite app_nil_r].
Qed.

Lemma elem_of_rowHits y idx :
  idx ∈ rowHits y ↔
  ∃ x, Density.radius ≤ x < width - Density.radius ∧ idx = y * width + x ∧
       shadowCandidate data isBackground width channels x y = true.
Proof.
  unfold Inv.rowHits. rewrite elem_of_forRange_app, elem_of_nil. unfold Inv.hit.
  split.
  - intros [[]|(x & Hx & Hin)]. exists x.
    destruct (shadowCandidate _ _ _ _ _ _); [|by apply elem_of_nil in Hin].
    apply list_elem_of_singleton in Hin. split; [lia | done].
  - intros (x & Hx & -> & Hc). right. exists x. rewrite Hc.
    split; [lia | by apply list_elem_of_singleton].
Qed.

Lemma elem_of_scanPass idx :
  idx ∈ scanPass data isBackground width height channels ↔
  ∃ x y, interior width height x y ∧ idx = y * width + x ∧
         shadowCandidate data isBackground width channels x y = true.
Proof.
  rewrite scanPass_rows, elem_of_forRange_app, elem_of_nil.
  setoid_rewrite elem_of_rowHits. unfold interior. split.
  - intros [[]|(y & Hy & x & Hx & E & Hc)]. exists x, y.
    split; [lia | done].
  - intros (x & y & [Hx Hy] & E & Hc). right. exists y.
    split; [lia|]. by exists x.
Qed.

Lemma NoDup_scanPass :
  NoDup (scanPass data isBackground width height channels).
Proof.
  rewrite scanPass_rows. apply NoDup_forRange_app.
  - intros y. unfold Inv.rowHits. apply NoDup_forRange_app.
    + intros x. unfold Inv.hit. case_match; [apply NoDup_singleton | constructor].
    + intros x x' e _ _ Hne. unfold Inv.hit.
      do 2 case_match; rewrite ?list_elem_of_singleton, ?elem_of_nil; lia.
  - intros y y' e _ _ Hne. rewrite !elem_of_rowHits.
    intros (x & Hx & -> & _) (x' & Hx' & E & _).
    unfold Density.radius in *. nia.
Qed.

(** What a pass queues is clear in the mask and lies in the grid. *)
Lemma scanPass_fresh idx :
  idx ∈ scanPass data isBackground width height channels →
  0 ≤ idx < width * height ∧ Arr.get isBackground idx = false.
Proof.
  rewrite elem_of_scanPass. intros (x & y & [Hx Hy] & -> & Hc).
  apply shadowCandidate_spec in Hc as [Hc _].
  unfold Density.radius in *. split; [nia | done].
Qed.

End Scan.

(** ** Committing a pass *)

Lemma arr_ext (a b : list bool) :
  length a = length b → (∀ i, Arr.get a i = Arr.get b i) → a = b.
Proof.
  intros Hlen Hget. apply list_eq. intros n.
  specialize (Hget (Z.of_nat n)). unfold Arr.get in Hget.
  destruct (Z.ltb_spec (Z.of_nat n) 0); [lia|].
  rewrite Nat2Z.id in Hget.
  destruct (a !! n) as [x|] eqn:Ea, (b !! n) as [y|] eqn:Eb; simpl in *.
  - by subst.
  - apply lookup_lt_Some in Ea. apply lookup_ge_None in Eb. lia.
  - apply lookup_ge_None in Ea. apply lookup_lt_Some in Eb. lia.
  - done.
Qed.

Lemma length_commit (m : list bool) (l : list Z) :
  length (commit m l) = length m.
Proof.
  unfold commit. revert m. induction l as [|e l IH]; intros m; [done|].
  simpl. by rewrite IH, length_set.
Qed.

Lemma get_commit (m : list bool) (l : list Z) (i : Z) :
  Arr.get (commit m l) i = true ↔
  Arr.get m i = true ∨ (i ∈ l ∧ 0 ≤ i < Z.of_nat (length m)).
Proof.
  unfold commit. revert m. induction l as [|e l IH]; intros m; simpl.
  - split; [auto|]. intros [?|[Hin _]]; [done | by apply elem_of_nil in Hin].
  - rewrite IH, get_set, length_set, elem_of_cons. split.
    + intros [[?|[-> ?]]|[? ?]]; auto.
    + intros [?|[[->|?] ?]]; auto.
Qed.


Lemma count_commit (m : list bool) (l : list Z) :
  NoDup l →
  (∀ e, e ∈ l → 0 ≤ e < Z.of_nat (length m) ∧ Arr.get m e = false) →
  Arr.count (commit m l) = Arr.count m + Z.of_nat (length l).
Proof.
  unfold commit. revert m. induction l as [|e l IH]; intros m Hnd Hl.
  - simpl. lia.
  - apply NoDup_cons in Hnd as [Hne Hnd]. simpl.
    destruct (Hl e ltac:(left)) as [He Hge].
    rewrite IH; [rewrite count_set by done; lia | done |].
    intros e' He'. rewrite length_set.
    destruct (Hl e' ltac:(by right)) as [? ?]. split; [done|].
    rewrite get_set_ne; [done|]. by intros ->.
Qed.

(** ** The passes of the shadow cleanup *)

Section Passes.

Import DensitySpec.

Variables (data : list Z) (width height channels : Z).

Local Abbreviation pass := (onePass data width height channels).
Local Abbreviation scan m := (scanPass data m width height channels).

Lemma cleanupPasses_iter n m t :
  ∃ k, (k ≤ n)%nat ∧
    cleanupPasses n data m width height channels t =
      (Nat.iter k pass m,
       t + foldr (λ j acc, Z.of_nat (length (scan (Nat.iter j pass m))) + acc)
                 0 (seq 0 k)) ∧
    (∀ j, (j < k)%nat → scan (Nat.iter j pass m) ≠ []) ∧
    ((k < n)%nat → scan (Nat.iter k pass m) = []).
Proof.
  revert m t. induction n as [|n IH]; intros m t.
  - exists 0%nat. simpl. split; [lia|]. split; [f_equal; lia|].
    split; intros; lia.
  - simpl. destruct (scan m) as [|e l] eqn:Es.
    + exists 0%nat. simpl. split; [lia|]. split; [f_equal; lia|].
      split; [intros; lia | done].
    + destruct (IH (commit m (e :: l)) (t + Z.of_nat (length (e :: l))))
        as (k & Hk & Hrun & Hne & Hstop).
      assert (commit m (e :: l) = pass m) as Ep.
      { unfold onePass. by rewrite Es. }
      rewrite Ep in *. exists (S k). split; [lia|].
      split; [|split].
      * rewrite Hrun, Nat.iter_succ_r. f_equal.
        rewrite <- cons_seq, <- fmap_S_seq. simpl. rewrite Es.
        rewrite foldr_fmap. simpl length.
        assert (∀ js, foldr (λ j acc,
            Z.of_nat (length (scan (Nat.iter j pass (pass m)))) + acc) 0 js =
          foldr (λ j acc,
            Z.of_nat (length (scan (Nat.iter (S j) pass m))) + acc) 0 js) as ->.
        { induction js as [|j js IHj]; [done|]. simpl.
          rewrite IHj. by rewrite <- Nat.iter_succ_r. }
        rewrite Z.add_assoc. reflexivity.
      * intros [|j] Hj.
        -- simpl. by rewrite Es.
        -- rewrite Nat.iter_succ_r. apply Hne. lia.
      * intros Hlt. rewrite Nat.iter_succ_r. apply Hstop. lia.
Qed.

Lemma pass_mono m i : Arr.get m i = true → Arr.get (pass m) i = true.
Proof. intros H. apply get_commit. by left. Qed.

Lemma length_pass m : length (pass m) = length m.
Proof. apply length_commit. Qed.

Lemma count_pass m :
  0 ≤ width → 0 ≤ height → length m = Z.to_nat (width * height) →
  Arr.count (pass m) = Arr.count m + Z.of_nat (length (scan m)).
Proof.
  intros Hw Hh Hlen. apply count_commit; [apply NoDup_scanPass|].
  intros e He. apply scanPass_fresh in He.
  rewrite Hlen, Z2Nat.id by nia. done.
Qed.

Lemma iter_pass_mono k m i :
  Arr.get m i = true → Arr.get (Nat.iter k pass m) i = true.
Proof. intros H. induction k as [|k IH]; [done|]. simpl. by apply pass_mono. Qed.

Lemma cleanup_mono m i :
  Arr.get m i = true →
  Arr.get (densityShadowCleanup data m width height channels).1 i = true.
Proof.
  intros H. unfold densityShadowCleanup.
  destruct (cleanupPasses_iter Density.passes m 0) as (k & _ & -> & _).
  simpl. by apply iter_pass_mono.
Qed.

Lemma cleanup_count m :
  0 ≤ width → 0 ≤ height → length m = Z.to_nat (width * height) →
  let r := densityShadowCleanup data m width height channels in
  length r.1 = length m ∧ Arr.count r.1 = Arr.count m + r.2.
Proof.
  intros Hw Hh Hlen. unfold densityShadowCleanup.
  destruct (cleanupPasses_iter Density.passes m 0) as (k & _ & -> & _).
  simpl. clear -Hw Hh Hlen. induction k as [|k IH].
  - simpl. split; [done | lia].
  - destruct IH as [IHl IHc].
    rewrite seq_S, foldr_app. simpl.
    split; [by rewrite length_pass|].
    rewrite count_pass by (done || by rewrite IHl). rewrite IHc.
    assert (∀ js a, foldr (λ j acc,
        Z.of_nat (length (scan (Nat.iter j pass m))) + acc) a js =
      foldr (λ j acc,
        Z.of_nat (length (scan (Nat.iter j pass m))) + acc) 0 js + a) as Hf.
    { induction js as [|j js IHj]; intros a; simpl; [lia|].
      rewrite IHj. lia. }
    rewrite (Hf _ (_ + 0)). lia.
Qed.

End Passes.

(** The sample is the sparse disc: even offsets between -12 and 12 in each
    axis, within distance 12 of the pixel; it has 113 points. *)
Lemma samplePoints_spec (dx dy : Z) :
  (dx, dy) ∈ DensitySpec.samplePoints ↔
  (-12 ≤ dx ≤ 12 ∧ -12 ≤ dy ≤ 12) ∧ (Z.even dx = true ∧ Z.even dy = true) ∧
  dx * dx + dy * dy ≤ 12 * 12.
Proof.
  unfold DensitySpec.samplePoints.
  rewrite list_elem_of_bind. setoid_rewrite list_elem_of_bind.
  unfold Density.offsets. setoid_rewrite list_elem_of_fmap.
  setoid_rewrite elem_of_seqZ. unfold Density.radius. split.
  - intros (y & (x & Hin & kx & -> & Hkx) & ky & -> & Hky).
    case_match eqn:Ec; [by apply elem_of_nil in Hin|].
    apply Z.ltb_ge in Ec.
    apply list_elem_of_singleton in Hin. injection Hin as -> ->.
    rewrite !Z.even_add_mul_2. split; [lia|]. split; [done | lia].
  - intros (Hb & [Hx Hy] & Hd).
    apply Z.even_spec in Hx as [kx ->], Hy as [ky ->].
    exists (2 * ky). split.
    + exists (2 * kx). split.
      * destruct (Z.ltb_spec (12 * 12)
          (2 * kx * (2 * kx) + 2 * ky * (2 * ky))); [lia|].
        by apply list_elem_of_singleton.
      * exists (kx + 6). split; lia.
    + exists (ky + 6). split; lia.
Qed.

Lemma length_samplePoints : length DensitySpec.samplePoints = 113%nat.
Proof. by vm_compute. Qed.

(** What a pass queues, as the code has it: exactly the pixels that lie at
    least 12 pixels from every edge of the image, are not background, have
    a brightness not above 160, and for which the fraction of background
    pixels over the sparse disc (113 offsets: even, within distance 12)
    exceeds 0.45. *)
Lemma scanPass_queues (data : list Z) (isBackground : list bool)
    (width height channels idx : Z) :
  idx ∈ scanPass data isBackground width height channels ↔
  ∃ x y, DensitySpec.interior width height x y ∧ idx = y * width + x ∧
    Arr.get isBackground idx = false ∧
    (∀ brightness, brightnessAt data channels idx = Some brightness →
                   (brightness <= 160)%Q) ∧
    (45 # 100 < DensitySpec.backgroundFraction isBackground width x y)%Q.
Proof.
  rewrite elem_of_scanPass. split.
  - intros (x & y & Hi & -> & Hc). exists x, y.
    by apply shadowCandidate_spec in Hc.
  - intros (x & y & Hi & -> & Hc). exists x, y.
    split; [done|]. split; [done|]. by apply shadowCandidate_spec.
Qed.

(** C4, for the pixels a pass examines. In a pass of
    [densityShadowCleanup], a pixel that lies at least 12 pixels from every
    edge of the image, is not background and has a brightness below 160 is
    queued exactly when the fraction of background pixels over the sparse
    disc around it (113 offsets: even in each axis, within distance 12)
    exceeds 0.45. *)
Theorem scanPass_interior (data : list Z) (isBackground : list bool)
    (width height channels x y : Z) (brightness : Q) :
  DensitySpec.interior width height x y →
  Arr.get isBackground (y * width + x) = false →
  brightnessAt data channels (y * width + x) = Some brightness →
  (brightness < 160)%Q →
  y * width + x ∈ scanPass data isBackground width height channels ↔
  (45 # 100 < DensitySpec.backgroundFraction isBackground width x y)%Q.
Proof.
  intros [Hx Hy] Hbg Hb Hlt. rewrite elem_of_scanPass. split.
  - intros (x' & y' & [Hx' Hy'] & E & Hc).
    assert (x' = x ∧ y' = y) as [-> ->].
    { unfold Density.radius in *.
      destruct (coords_of width height ltac:(lia) ltac:(lia) x y
                  ltac:(lia) ltac:(lia)) as [Ecol Erow].
      destruct (coords_of width height ltac:(lia) ltac:(lia) x' y'
                  ltac:(lia) ltac:(lia)) as [Ecol' Erow'].
      rewrite E in Ecol, Erow. lia. }
    by apply shadowCandidate_spec in Hc as (_ & _ & Hf).
  - intros Hf. exists x, y. split; [done|]. split; [done|].
    apply shadowCandidate_spec. split; [done|]. split; [|done].
    intros b Hb'. rewrite Hb in Hb'. injection Hb' as <-.
    by apply Qlt_le_weak.
Qed.

Lemma scanPass_interior_witness :
  12 * 25 + 12 ∈ scanPass Samples.speckCentre Samples.speckMask 25 25 4 ↔
  (45 # 100 < DensitySpec.backgroundFraction Samples.speckMask 25 12 12)%Q.
Proof.
  apply (scanPass_interior Samples.speckCentre Samples.speckMask 25 25 4
           12 12 (brightnessOf 150 90 90)).
  - unfold DensitySpec.interior, Density.radius. lia.
  - by vm_compute.
  - by vm_compute.
  - by vm_compute.
Defined.

(** Counterexample to C4 as stated, on the 25 by 25 image whose only
    foreground pixel is a dark speck at column 11 of row 12: the speck is
    not background, its brightness is 110, 112 of the 113 sampled pixels
    are background, and the pass queues nothing, the speck lying 11 pixels
    from the left edge. *)
Lemma scanPass_skips_border_strip :
  ∃ mask brightness,
    floodFillBackground Samples.speck 25 25 4 = Some mask ∧
    inGrid 25 25 (12 * 25 + 11) ∧
    Arr.get mask (12 * 25 + 11) = false ∧
    brightnessAt Samples.speck 4 (12 * 25 + 11) = Some brightness ∧
    (brightness < 160)%Q ∧
    (45 # 100 < DensitySpec.backgroundFraction mask 25 11 12)%Q ∧
    scanPass Samples.speck mask 25 25 4 = [].
Proof.
  eexists _, _. split; [by vm_compute|].
  split; [unfold inGrid; lia|]. by vm_compute.
Qed.

(** The same speck one pixel to the right is queued. *)
Lemma scanPass_takes_centre :
  ∃ mask,
    floodFillBackground Samples.speckCentre 25 25 4 = Some mask ∧
    scanPass Samples.speckCentre mask 25 25 4 = [12 * 25 + 12].
Proof. eexists. split; [by vm_compute|]. by vm_compute. Qed.


(** ** The distance field *)

Section Window.

Variables (isBackground : list bool) (width height radius x y d0 : Z).
Hypothesis radius_nonneg : 0 ≤ radius.

Local Abbreviation valid := (Inv.valid isBackground width height x y).
Local Abbreviation look := (Inv.look isBackground width height x y).
Local Abbreviation least := (Inv.least isBackground width height x y d0).
Local Abbreviation seen := (Inv.seen radius).

Lemma least_ext (P P' : Z → Z → Prop) v :
  (∀ dx dy, P dx dy ↔ P' dx dy) → least P v → least P' v.
Proof.
  intros HP (Hle & Hmin & Hex). split; [done|]. split.
  - intros dx dy Hp. apply Hmin. by apply HP.
  - destruct Hex as [?|(dx & dy & Hp & ?)]; [by left|].
    right. exists dx, dy. split; [by apply HP | done].
Qed.

Lemma least_look (P P' : Z → Z → Prop) dx dy v :
  (∀ dx' dy', P' dx' dy' ↔ P dx' dy' ∨ (dx' = dx ∧ dy' = dy)) →
  least P v → least P' (look dy dx v).
Proof.
  intros HP (Hle & Hmin & Hex).
  assert (look dy dx v = v ∧ ¬ valid dx dy ∨
          look dy dx v = Z.min v (dx * dx + dy * dy) ∧ valid dx dy)
    as [[-> Hnv]|[-> Hv]].
  { unfold Inv.look, Inv.valid.
    destruct (Z.ltb_spec (x + dx) 0); [left; split; [done | lia]|].
    destruct (Z.leb_spec width (x + dx)); [left; split; [done | lia]|].
    destruct (Z.ltb_spec (y + dy) 0); [left; split; [done | lia]|].
    destruct (Z.leb_spec height (y + dy)); [left; split; [done | lia]|].
    simpl. destruct (Arr.get isBackground _) eqn:E.
    - right. split; [done|]. split; [lia | done].
    - left. split; [done|]. intros [_ ?]. congruence. }
  - split; [done|]. split.
    + intros dx' dy' Hp Hv. apply HP in Hp as [Hp|[-> ->]]; [by apply Hmin | done].
    + destruct Hex as [?|(dx' & dy' & Hp & ?)]; [by left|].
      right. exists dx', dy'. split; [apply HP; by left | done].
  - split; [lia|]. split.
    + intros dx' dy' Hp Hv'. apply HP in Hp as [Hp|[-> ->]]; [|lia].
      specialize (Hmin dx' dy' Hp Hv'). lia.
    + destruct (Z.min_spec v (dx * dx + dy * dy)) as [[_ ->]|[_ ->]].
      * destruct Hex as [?|(dx' & dy' & Hp & ?)]; [by left|].
        right. exists dx', dy'. split; [apply HP; by left | done].
      * right. exists dx, dy. split; [apply HP; by right | done].
Qed.


Lemma windowMin_least :
  least (λ dx dy, - radius ≤ dx ≤ radius ∧ - radius ≤ dy ≤ radius)
        (windowMin isBackground width height radius x y d0).
Proof.
  unfold windowMin.
  apply (least_ext (seen (- radius + (2 * radius + 1)) (- radius))).
  { intros dx dy. unfold Inv.seen. lia. }
  apply (forRange_inv (λ k v, least (seen k (- radius)) v)); [lia| |].
  - split; [lia|]. split; [intros dx dy Hs; unfold Inv.seen in Hs; lia|]. by left.
  - intros k v Hk Hv.
    apply (least_ext (seen k (- radius + (2 * radius + 1)))).
    { intros dx dy. unfold Inv.seen. lia. }
    apply (forRange_inv (λ j v, least (seen k j) v)); [lia | done|].
    intros j v' Hj Hv'. apply (least_look (seen k j)); [|done].
    intros dx dy. unfold Inv.seen. lia.
Qed.

End Window.

Section Distance.

Variables (isBackground : list bool) (width height radius : Z).
Hypothesis width_pos : 0 < width.
Hypothesis height_pos : 0 < height.

Local Abbreviation grid := (inGrid width height).
Local Abbreviation total := (Z.to_nat (width * height)).

Local Abbreviation distAt := (Inv.distAt isBackground width height radius).
Local Abbreviation written := (Inv.written isBackground width height radius).

Lemma written_eq k k' ed : k = k' → written k ed → written k' ed.
Proof. by intros ->. Qed.

Lemma edgeDistances_written :
  written (width * height)
          (edgeDistances isBackground width height radius).
Proof.
  unfold edgeDistances.
  apply (written_eq ((0 + height) * width)); [lia|].
  apply (forRange_inv (λ y ed, written (y * width) ed)); [lia| |].
  - split; [apply length_replicate|]. intros i [Hi0 Hi1].
    destruct (Z.ltb_spec i (0 * width)); [lia|].
    unfold Arr.int, Arr.byte. destruct (Z.ltb_spec i 0); [lia|].
    apply lookup_replicate_2. lia.
  - intros y ed Hy Hed.
    apply (written_eq (y * width + (0 + width))); [lia|].
    apply (forRange_inv (λ x ed, written (y * width + x) ed)); [lia| |].
    { by apply (written_eq (y * width)); [lia|]. }
    clear ed Hed. intros x ed Hx [Hlen Hed].
    assert (grid (y * width + x)) as Hg by (apply grid_of; lia).
    destruct (coords_of width height width_pos height_pos x y) as [Hc Hr];
      [lia..|].
    pose proof (Hed _ Hg) as Hcell.
    rewrite (proj2 (Z.ltb_ge _ _)) in Hcell by lia.
    assert (0 ≤ y * width + x < Z.of_nat (length ed)) as Hrange.
    { rewrite Hlen. destruct Hg. lia. }
    assert (∀ v, distAt (y * width + x) = v →
      written (y * width + x + 1) (Arr.setByte ed (y * width + x) v)) as Hset.
    { intros v Hv. split; [by rewrite length_setByte|]. intros i Hi.
      unfold Arr.int. destruct (decide (i = y * width + x)) as [->|Hne].
      - rewrite byte_setByte_eq by done.
        rewrite (proj2 (Z.ltb_lt _ _)) by lia. by rewrite Hv.
      - rewrite byte_setByte_ne by done. fold (Arr.int ed i). rewrite Hed by done.
        destruct (Z.ltb_spec i (y * width + x)),
          (Z.ltb_spec i (y * width + x + 1)); (done || lia). }
    unfold Inv.distAt in Hset. rewrite Hc, Hr in Hset.
    apply (written_eq (y * width + x + 1)); [lia|].
    destruct (Arr.get isBackground (y * width + x)).
    + by apply Hset.
    + rewrite Hcell. by apply Hset.
Qed.

Lemma edgeDistances_spec i :
  grid i →
  Arr.int (edgeDistances isBackground width height radius) i = Some (distAt i).
Proof.
  intros Hi. destruct edgeDistances_written as [_ H].
  rewrite H by done. destruct Hi. by rewrite (proj2 (Z.ltb_lt _ _)) by lia.
Qed.

End Distance.

(** ** Counting the mask *)

Lemma count_take_succ (m : list bool) (i : Z) :
  0 ≤ i →
  Arr.count (take (Z.to_nat (i + 1)) m) =
  Arr.count (take (Z.to_nat i) m) + (if Arr.get m i then 1 else 0).
Proof.
  intros Hi. replace (Z.to_nat (i + 1)) with (S (Z.to_nat i)) by lia.
  unfold Arr.get, Arr.count. destruct (Z.ltb_spec i 0); [lia|].
  destruct (m !! Z.to_nat i) as [b|] eqn:E.
  - erewrite take_S_r by done. rewrite filter_app, length_app. simpl.
    rewrite filter_cons. destruct b.
    + rewrite decide_True by done. simpl. lia.
    + rewrite decide_False by done. simpl. lia.
  - apply lookup_ge_None in E. rewrite !take_ge by lia. simpl. lia.
Qed.

Lemma count_take_all (m : list bool) (n : nat) :
  (length m ≤ n)%nat → Arr.count (take n m) = Arr.count m.
Proof. intros H. by rewrite take_ge. Qed.

(** ** The alpha loop *)

Section Paint.

Variables (data : list Z) (isBackground : list bool) (edgeDistance : list Z).
Variables (radius n : Z).
Hypothesis n_nonneg : 0 ≤ n.

(** Only bytes at offset 3 of a pixel are written, and the counter counts
    the mask. *)
Lemma paint_frame (channels : Z) :
  let res :=
    forRange 0 n (paint isBackground edgeDistance channels radius) (data, 0) in
  length res.1 = length data ∧
  res.2 = Arr.count (take (Z.to_nat n) isBackground) ∧
  ∀ k, (∀ j, 0 ≤ j < n → k ≠ j * channels + 3) →
       Arr.byte res.1 k = Arr.byte data k.
Proof.
  simpl.
  pose proof (forRange_inv (λ i (st : list Z * Z),
    length st.1 = length data ∧
    st.2 = Arr.count (take (Z.to_nat i) isBackground) ∧
    ∀ k, (∀ j, 0 ≤ j < i → k ≠ j * channels + 3) →
         Arr.byte st.1 k = Arr.byte data k)
    0 n (paint isBackground edgeDistance channels radius) (data, 0)
    n_nonneg) as H.
  rewrite Z.add_0_l in H. apply H; clear H.
  - simpl. split; [done|]. split; [|done]. by rewrite take_0.
  - intros i [d c] Hi (Hlen & Hc & Hframe). simpl in *.
    rewrite count_take_succ by lia.
    unfold paint. destruct (Arr.get isBackground i); simpl.
    + rewrite length_setByte. split; [done|]. split; [lia|].
      intros k Hk. rewrite byte_setByte_ne by (apply not_eq_sym, Hk; lia).
      apply Hframe. intros j Hj. apply Hk. lia.
    + assert (∀ k, (∀ j, 0 ≤ j < i + 1 → k ≠ j * channels + 3) →
                   Arr.byte d k = Arr.byte data k) as Hframe'.
      { intros k Hk. apply Hframe. intros j Hj. apply Hk. lia. }
      destruct (Arr.int edgeDistance i) as [dd|];
        [|simpl; split; [done|split; [lia|done]]].
      destruct (dd <? radius * radius); simpl; [|split; [done|split; [lia|done]]].
      rewrite length_setByte. split; [done|]. split; [lia|].
      intros k Hk. rewrite byte_setByte_ne by (apply not_eq_sym, Hk; lia).
      by apply Hframe'.
Qed.

Local Abbreviation target := (Inv.target data isBackground edgeDistance radius).

Lemma paint_alpha :
  Z.of_nat (length data) = 4 * n →
  ∀ j, 0 ≤ j < n →
    Arr.byte (forRange 0 n (paint isBackground edgeDistance 4 radius)
                       (data, 0)).1 (j * 4 + 3) = target j.
Proof.
  intros Hlen.
  pose proof (forRange_inv (λ i (st : list Z * Z),
    length st.1 = length data ∧
    (∀ j, 0 ≤ j < i → Arr.byte st.1 (j * 4 + 3) = target j) ∧
    (∀ j, i ≤ j → Arr.byte st.1 (j * 4 + 3) = Arr.byte data (j * 4 + 3)))
    0 n (paint isBackground edgeDistance 4 radius) (data, 0)
    n_nonneg) as H.
  rewrite Z.add_0_l in H. apply H; clear H.
  - simpl. split; [done|]. split; [intros; lia | done].
  - intros i [d c] Hi (Hl & Hdone & Hrest). simpl in *.
    assert (∀ v, target i = Some v →
      length (Arr.setByte d (i * 4 + 3) v) = length data ∧
      (∀ j, 0 ≤ j < i + 1 →
         Arr.byte (Arr.setByte d (i * 4 + 3) v) (j * 4 + 3) = target j) ∧
      (∀ j, i + 1 ≤ j →
         Arr.byte (Arr.setByte d (i * 4 + 3) v) (j * 4 + 3) =
         Arr.byte data (j * 4 + 3))) as Hset.
    { intros v Hv. rewrite length_setByte. split; [done|]. split.
      - intros j Hj. destruct (decide (j = i)) as [->|Hne].
        + rewrite byte_setByte_eq by lia. done.
        + rewrite byte_setByte_ne by lia. apply Hdone. lia.
      - intros j Hj. rewrite byte_setByte_ne by lia. apply Hrest. lia. }
    assert (target i = Arr.byte data (i * 4 + 3) →
      length d = length data ∧
      (∀ j, 0 ≤ j < i + 1 → Arr.byte d (j * 4 + 3) = target j) ∧
      (∀ j, i + 1 ≤ j → Arr.byte d (j * 4 + 3) = Arr.byte data (j * 4 + 3)))
      as Hkeep.
    { intros Ht. split; [done|]. split.
      - intros j Hj. destruct (decide (j = i)) as [->|Hne].
        + rewrite Ht. apply Hrest. lia.
        + apply Hdone. lia.
      - intros j Hj. apply Hrest. lia. }
    unfold Inv.target in Hset, Hkeep. unfold paint.
    destruct (Arr.get isBackground i); simpl; [by apply Hset|].
    destruct (Arr.int edgeDistance i) as [dd|]; [|by apply Hkeep].
    destruct (dd <? radius * radius); simpl; [by apply Hset | by apply Hkeep].
Qed.

End Paint.

(** ** Feathering *)

Example alpha_samples : Feather.alpha 2 1 = 128 ∧ Feather.alpha 2 2 = 180.
Proof. by vm_compute. Qed.

Lemma alpha_mono (radius d d' : Z) :
  0 < radius → d ≤ d' → Feather.alpha radius d ≤ Feather.alpha radius d'.
Proof.
  intros Hr Hd. unfold Feather.alpha.
  apply Z.min_le_compat_l, Z.div_le_mono; [lia|].
  apply Z.add_le_mono_r, Z.sqrt_le_mono. lia.
Qed.

Section Nearest.

Import FeatherSpec.

Variables (isBackground : list bool) (width height : Z).
Hypothesis width_pos : 0 < width.
Hypothesis height_pos : 0 < height.

Local Abbreviation dist := (Inv.distAt isBackground width height 2).
Local Abbreviation near := (nearest isBackground width height 2).

Lemma distAt_least i :
  Arr.get isBackground i = false →
  dist i ≤ Feather.far ∧
  (∀ dx dy, backgroundAt isBackground width height 2 i dx dy →
            dist i ≤ dx * dx + dy * dy) ∧
  (dist i = Feather.far ∨ near i (dist i)).
Proof.
  intros Hfg. unfold Inv.distAt. rewrite Hfg.
  destruct (windowMin_least isBackground width height 2
              (colOf width i) (rowOf width i) Feather.far ltac:(lia))
    as (Hle & Hmin & Hex).
  split; [done|]. split.
  - intros dx dy (Hw & Hin & Hget). apply Hmin; [lia | done].
  - destruct Hex as [?|(dx & dy & Hw & [Hin Hget] & E)]; [by left|].
    right. split.
    + exists dx, dy. split; [|done]. split; [lia | done].
    + intros dx' dy' (Hw' & Hin' & Hget'). apply Hmin; [lia | done].
Qed.

Lemma distAt_nearest i d2 :
  Arr.get isBackground i = false → near i d2 → dist i = d2.
Proof.
  intros Hfg [(dx & dy & Hb & ->) Hmin].
  destruct (distAt_least i Hfg) as (Hle & Hlow & Hex).
  pose proof (Hlow dx dy Hb) as Hv. destruct Hb as ([Hdx Hdy] & _ & _).
  destruct Hex as [E|[(dx' & dy' & Hb' & E) _]].
  - unfold Feather.far in E. nia.
  - specialize (Hmin dx' dy' Hb'). lia.
Qed.

Lemma distAt_beyond i :
  Arr.get isBackground i = false →
  (∀ d2, near i d2 → 2 * 2 ≤ d2) → 2 * 2 ≤ dist i.
Proof.
  intros Hfg Hfar. destruct (distAt_least i Hfg) as (_ & _ & [->|Hn]).
  - by vm_compute.
  - by apply Hfar.
Qed.

End Nearest.

Lemma feather_target (data : list Z) (isBackground : list bool)
    (width height i : Z) :
  0 < width → 0 < height →
  Z.of_nat (length data) = 4 * (width * height) →
  inGrid width height i →
  FeatherSpec.alphaOf
    (applyEdgeSmoothing data isBackground width height 4 2).1 i =
  Inv.target data isBackground (edgeDistances isBackground width height 2) 2 i.
Proof.
  intros Hw Hh Hlen Hi. unfold applyEdgeSmoothing, FeatherSpec.alphaOf.
  apply paint_alpha; [nia | done | done].
Qed.

Lemma feather_background (data : list Z) (isBackground : list bool)
    (width height i : Z) :
  0 < width → 0 < height →
  Z.of_nat (length data) = 4 * (width * height) →
  inGrid width height i → Arr.get isBackground i = true →
  FeatherSpec.alphaOf
    (applyEdgeSmoothing data isBackground width height 4 2).1 i = Some 0.
Proof.
  intros Hw Hh Hlen Hi Hbg. rewrite feather_target by done.
  unfold Inv.target. by rewrite Hbg.
Qed.

(** C7. On a 4-channel buffer, after [applyEdgeSmoothing] with radius 2:
    every background pixel has alpha 0; of two foreground pixels whose
    least distance to a background pixel of the search window is below the
    radius, the nearer one has the lower or equal alpha; and a foreground
    pixel with no background pixel nearer than the radius in its window
    keeps the alpha it had. Distances are compared by their squares. *)
Theorem feather_monotone (data : list Z) (isBackground : list bool)
    (width height : Z) :
  0 < width → 0 < height →
  Z.of_nat (length data) = 4 * (width * height) →
  let out := (applyEdgeSmoothing data isBackground width height 4 2).1 in
  (∀ i, inGrid width height i → Arr.get isBackground i = true →
        FeatherSpec.alphaOf out i = Some 0) ∧
  (∀ i j di dj,
     inGrid width height i → inGrid width height j →
     Arr.get isBackground i = false → Arr.get isBackground j = false →
     FeatherSpec.nearest isBackground width height 2 i di →
     FeatherSpec.nearest isBackground width height 2 j dj →
     dj < 2 * 2 → di ≤ dj →
     ∃ ai aj, FeatherSpec.alphaOf out i = Some ai ∧
              FeatherSpec.alphaOf out j = Some aj ∧ ai ≤ aj) ∧
  (∀ i, inGrid width height i → Arr.get isBackground i = false →
        (∀ d2, FeatherSpec.nearest isBackground width height 2 i d2 →
               2 * 2 ≤ d2) →
        FeatherSpec.alphaOf out i = FeatherSpec.alphaOf data i).
Proof.
  intros Hw Hh Hlen out.
  assert (∀ i, inGrid width height i →
    FeatherSpec.alphaOf out i =
    Inv.target data isBackground (edgeDistances isBackground width height 2) 2 i)
    as Hout.
  { intros i Hi. by apply feather_target. }
  assert (∀ i d2, inGrid width height i → Arr.get isBackground i = false →
    FeatherSpec.nearest isBackground width height 2 i d2 → d2 < 2 * 2 →
    FeatherSpec.alphaOf out i = Some (Feather.alpha 2 d2)) as Hnear.
  { intros i d2 Hi Hfg Hd2 Hlt. rewrite Hout by done. unfold Inv.target.
    rewrite Hfg, edgeDistances_spec by done.
    rewrite (distAt_nearest _ _ _ Hw Hh i d2) by done.
    by rewrite (proj2 (Z.ltb_lt _ _)) by done. }
  split; [|split].
  - intros i Hi Hbg. by apply feather_background.
  - intros i j di dj Hi Hj Hfi Hfj Hdi Hdj Hlt Hle.
    exists (Feather.alpha 2 di), (Feather.alpha 2 dj).
    split; [apply Hnear; (done || lia)|]. split; [by apply Hnear|].
    by apply alpha_mono.
  - intros i Hi Hfg Hfar. rewrite Hout by done. unfold Inv.target.
    rewrite Hfg, edgeDistances_spec by done.
    pose proof (distAt_beyond isBackground width height Hw Hh i Hfg Hfar) as Hd.
    by rewrite (proj2 (Z.ltb_ge _ _)) by done.
Qed.

Lemma feather_monotone_witness :
  let out := (applyEdgeSmoothing Samples.ring Samples.ringMask 5 5 4 2).1 in
  (∀ i, inGrid 5 5 i → Arr.get Samples.ringMask i = true →
        FeatherSpec.alphaOf out i = Some 0) ∧
  (∀ i j di dj,
     inGrid 5 5 i → inGrid 5 5 j →
     Arr.get Samples.ringMask i = false → Arr.get Samples.ringMask j = false →
     FeatherSpec.nearest Samples.ringMask 5 5 2 i di →
     FeatherSpec.nearest Samples.ringMask 5 5 2 j dj →
     dj < 2 * 2 → di ≤ dj →
     ∃ ai aj, FeatherSpec.alphaOf out i = Some ai ∧
              FeatherSpec.alphaOf out j = Some aj ∧ ai ≤ aj) ∧
  (∀ i, inGrid 5 5 i → Arr.get Samples.ringMask i = false →
        (∀ d2, FeatherSpec.nearest Samples.ringMask 5 5 2 i d2 → 2 * 2 ≤ d2) →
        FeatherSpec.alphaOf out i = FeatherSpec.alphaOf Samples.ring i).
Proof.
  apply (feather_monotone Samples.ring Samples.ringMask 5 5); [lia | lia | done].
Defined.

(** The ramp on the sample: the bright ring, one pixel from the border, gets
    alpha 128; the centre, two pixels from it, keeps 255. *)
Example feather_ring :
  let out := (applyEdgeSmoothing Samples.ring Samples.ringMask 5 5 4 2).1 in
  FeatherSpec.alphaOf out 0 = Some 0 ∧
  FeatherSpec.alphaOf out 6 = Some 128 ∧
  FeatherSpec.alphaOf out 12 = Some 255.
Proof. by vm_compute. Qed.

(** ** Labelling one component *)

Lemma labelled_range (ids : list Z) (k : Z) :
  0 ≤ k < Z.of_nat (length ids) → labelled ids k = false →
  ∃ v, Arr.int ids k = Some v ∧ v < 0.
Proof.
  intros Hk. unfold labelled. destruct (byte_in_range ids k Hk) as [v Hv].
  unfold Arr.int. rewrite Hv. intros Hl. exists v. split; [done | lia].
Qed.

Lemma labelled_Some (ids : list Z) (k v : Z) :
  Arr.int ids k = Some v → labelled ids k = (0 <=? v).
Proof. unfold labelled. by intros ->. Qed.

Section BlobLoop.

Import BlobSpec.

Variables (isBackground : list bool) (width height b : Z).
Variables (ids0 : list Z) (i0 : Z).
Hypothesis width_pos : 0 < width.
Hypothesis height_pos : 0 < height.
Hypothesis b_nonneg : 0 ≤ b.
Hypothesis ids0_length : length ids0 = Z.to_nat (width * height).
Hypothesis ids0_below : ∀ k v, Arr.int ids0 k = Some v → v < b.
Hypothesis ids0_closed :
  ∀ k j, inGrid width height k → labelled ids0 k = true →
         inGrid width height j → adjacent width k j →
         Arr.get isBackground j = false → labelled ids0 j = true.
Hypothesis i0_grid : inGrid width height i0.
Hypothesis i0_foreground : Arr.get isBackground i0 = false.
Hypothesis i0_fresh : labelled ids0 i0 = false.

Local Abbreviation grid := (inGrid width height).
Local Abbreviation same := (sameBlob isBackground width height i0).
Local Abbreviation visit := (blobVisit isBackground width height b).
Local Abbreviation total := (Z.to_nat (width * height)).

Lemma blobVisit_cases st idx rest :
  ((¬ grid idx ∨ Arr.get isBackground idx = true ∨
    labelled (blobId st) idx = true) ∧
   visit st idx rest = mkBlob (blobId st) rest (blobSize st)) ∨
  (grid idx ∧ Arr.get isBackground idx = false ∧
   labelled (blobId st) idx = false ∧
   visit st idx rest =
     mkBlob (Arr.setByte (blobId st) idx b)
            (reverse (neighbours width height idx) ++ rest) (blobSize st + 1)).
Proof.
  unfold blobVisit, inGrid.
  destruct (Z.ltb_spec idx 0); [left; split; [left; lia | done]|].
  destruct (Z.leb_spec (width * height) idx); [left; split; [left; lia | done]|].
  destruct (Arr.get isBackground idx); [left; split; [auto | done]|].
  destruct (labelled (blobId st) idx); [left; split; [auto | done]|].
  right. simpl. repeat split; (done || lia).
Qed.

Local Abbreviation blobInv := (Inv.blobInv isBackground width height b ids0 i0).

Lemma blobInit_inv : blobInv (mkBlob ids0 [i0] 0).
Proof.
  split; simpl.
  - done.
  - intros k _. by left.
  - intros q Hq _ _. apply list_elem_of_singleton in Hq as ->.
    apply path_start; [done | done |]. unfold foreground.
    by rewrite i0_foreground.
  - intros k j _ Hk. apply ids0_below in Hk. lia.
  - right. by apply list_elem_of_singleton.
  - unfold labelCount. symmetry.
    rewrite filter_none; [done|]. intros v Hv ->.
    apply list_elem_of_lookup in Hv as [n Hn].
    specialize (ids0_below (Z.of_nat n) b). unfold Arr.int, Arr.byte in ids0_below.
    destruct (Z.ltb_spec (Z.of_nat n) 0); [lia|].
    rewrite Nat2Z.id in ids0_below. specialize (ids0_below Hn). lia.
Qed.

Lemma labelled_setByte ids idx k :
  0 ≤ idx < Z.of_nat (length ids) →
  labelled (Arr.setByte ids idx b) k =
  if decide (k = idx) then true else labelled ids k.
Proof.
  intros Hr. unfold labelled, Arr.int. case_decide as E.
  - subst. rewrite byte_setByte_eq by done. by apply Z.leb_le.
  - by rewrite byte_setByte_ne.
Qed.

Lemma blobVisit_inv st idx rest :
  blobInv st → stack st = idx :: rest → blobInv (visit st idx rest).
Proof.
  intros [Hlen Hids Hstack Hfront Hstart Hsize] Es.
  rewrite Es in Hstack, Hfront, Hstart.
  assert (∀ j, j ∈ idx :: rest → j = idx ∨ j ∈ rest) as Hcons.
  { intros j. by rewrite elem_of_cons. }
  destruct (blobVisit_cases st idx rest)
    as [[Hskip ->]|(Hg & Hfg & Hun & ->)].
  - split; simpl; try done.
    + intros q Hq. apply Hstack. by right.
    + intros k j Hk Hkb Hj Ha Hfj.
      destruct (Hfront k j Hk Hkb Hj Ha Hfj) as [?|Hin]; [by left|].
      apply Hcons in Hin as [->|?]; [|by right].
      destruct Hskip as [?|[?|?]]; [done | congruence | by left].
    + destruct Hstart as [?|Hin]; [by left|].
      apply Hcons in Hin as [->|?]; [|by right].
      destruct Hskip as [?|[?|?]]; [done | congruence | by left].
  - assert (0 ≤ idx < Z.of_nat (length (blobId st))) as Hr.
    { rewrite Hlen. destruct Hg. lia. }
    assert (same idx) as Hsame by (apply Hstack; [by left | done | done]).
    destruct (labelled_range _ _ Hr Hun) as (v & Hv & Hneg).
    assert (labelled ids0 idx = false) as Hun0.
    { destruct (Hids idx Hg) as [E|(? & _)]; [|done].
      rewrite Hv in E. symmetry in E.
      rewrite (labelled_Some _ _ _ E). by apply Z.leb_gt. }
    split; simpl.
    + by rewrite length_setByte.
    + intros k Hk. unfold Arr.int. destruct (decide (k = idx)) as [->|Hne].
      * right. rewrite byte_setByte_eq by done. done.
      * rewrite byte_setByte_ne by done. by apply Hids.
    + intros q Hq Hgq Hfq. apply elem_of_app in Hq as [Hq|Hq].
      * rewrite elem_of_reverse in Hq.
        apply (neighbours_spec width height width_pos height_pos) in Hq
          as [_ Hadj]; [|done].
        eapply path_step; [apply Hsame | done | done |].
        unfold foreground. by rewrite Hfq.
      * apply Hstack; [by right | done | done].
    + intros k j Hk Hkb Hj Ha Hfj. rewrite labelled_setByte by done.
      case_decide as Ej; [by left|].
      destruct (decide (k = idx)) as [->|Hne].
      * right. apply elem_of_app. left. rewrite elem_of_reverse.
        by apply (neighbours_spec width height width_pos height_pos).
      * unfold Arr.int in Hkb. rewrite byte_setByte_ne in Hkb by done.
        destruct (Hfront k j Hk Hkb Hj Ha Hfj) as [?|Hin]; [by left|].
        apply Hcons in Hin as [->|?]; [done|].
        right. apply elem_of_app. by right.
    + rewrite labelled_setByte by done. case_decide as E0; [by left|].
      destruct Hstart as [?|Hin]; [by left|].
      apply Hcons in Hin as [->|?]; [done|].
      right. apply elem_of_app. by right.
    + rewrite Hsize. unfold labelCount, Arr.setByte.
      destruct (Z.ltb_spec idx 0); [lia|].
      unfold Arr.int, Arr.byte in Hv. destruct (Z.ltb_spec idx 0); [lia|].
      erewrite (filter_insert_gain (λ v : Z, v = b)); [lia | done | lia | done].
Qed.

Lemma length_rev_neighbours idx :
  (length (reverse (neighbours width height idx)) ≤ 4)%nat.
Proof. rewrite length_reverse. apply length_neighbours. Qed.

Lemma blobVisit_measure st idx rest :
  blobInv st → stack st = idx :: rest →
  (blobMeasure (visit st idx rest) < blobMeasure st)%nat.
Proof.
  intros Hinv Es. unfold blobMeasure. rewrite Es.
  destruct (blobVisit_cases st idx rest)
    as [[Hskip ->]|(Hg & Hfg & Hun & ->)]; simpl; [lia|].
  assert (0 ≤ idx < Z.of_nat (length (blobId st))) as Hr.
  { rewrite (Inv.bi_length _ _ _ _ _ _ _ Hinv). destruct Hg. lia. }
  destruct (labelled_range _ _ Hr Hun) as (v & Hv & Hneg).
  pose proof (length_rev_neighbours idx). rewrite length_app.
  enough (S (unlabelled (Arr.setByte (blobId st) idx b)) =
          unlabelled (blobId st)) by lia.
  unfold unlabelled, Arr.setByte. destruct (Z.ltb_spec idx 0); [lia|].
  unfold Arr.int, Arr.byte in Hv. destruct (Z.ltb_spec idx 0); [lia|].
  by erewrite (filter_insert_loss (λ v : Z, v < 0)); [| done | | lia].
Qed.

Lemma blobLoop_runs fuel st :
  blobInv st → (blobMeasure st ≤ fuel)%nat →
  ∃ st', blobLoop isBackground width height b fuel st = Some st' ∧
         blobInv st' ∧ stack st' = [].
Proof.
  revert st. induction fuel as [|fuel IH]; intros st Hinv Hm.
  - destruct (stack st) as [|idx rest] eqn:Es.
    + exists st. simpl. by rewrite Es.
    + unfold blobMeasure in Hm. rewrite Es in Hm. simpl in Hm. lia.
  - simpl. destruct (stack st) as [|idx rest] eqn:Es.
    + by exists st.
    + apply IH; [by apply blobVisit_inv|].
      pose proof (blobVisit_measure st idx rest Hinv Es). lia.
Qed.

(** When the stack is empty the pixels labelled [b] are the component of
    the start pixel, and the other labels are as before. *)
Lemma blob_complete st k :
  blobInv st → stack st = [] → same k → Arr.int (blobId st) k = Some b.
Proof.
  intros [Hlen Hids Hstack Hfront Hstart Hsize] Es.
  rewrite Es in Hfront, Hstart.
  assert (∀ j, grid j → labelled (blobId st) j = true →
               labelled ids0 j = false → Arr.int (blobId st) j = Some b) as Hnew.
  { intros j Hj Hl Hl0. destruct (Hids j Hj) as [E|(_ & ? & _)]; [|done].
    unfold labelled in Hl, Hl0. rewrite E in Hl. congruence. }
  induction 1 as [k Hk <- Hfk|k j Hkj IH Hj Ha Hfj].
  - apply Hnew; [done | | done].
    destruct Hstart as [?|Hin]; [done | by apply elem_of_nil in Hin].
  - unfold foreground in Hfj. apply negb_true_iff in Hfj.
    apply pathFrom_inv in Hkj as [Hk Hfk].
    unfold foreground in Hfk. apply negb_true_iff in Hfk.
    assert (labelled (blobId st) j = true) as Hl.
    { destruct (Hfront k j Hk IH Hj Ha Hfj) as [?|Hin];
        [done | by apply elem_of_nil in Hin]. }
    apply Hnew; [done | done |].
    destruct (labelled ids0 j) eqn:Hl0; [|done].
    assert (labelled ids0 k = true) as Hk0.
    { apply (ids0_closed j k); [done | done | done | by apply adjacent_sym | done]. }
    destruct (Hids k Hk) as [E|(? & _)]; [|congruence].
    rewrite IH in E. symmetry in E. apply ids0_below in E. lia.
Qed.

Lemma blob_sound st k :
  blobInv st → grid k → Arr.int (blobId st) k = Some b → same k.
Proof.
  intros Hinv Hk Hb. destruct (Inv.bi_ids _ _ _ _ _ _ _ Hinv k Hk) as [E|(_ & _ & ?)]; [|done].
  rewrite Hb in E. symmetry in E. apply ids0_below in E. lia.
Qed.

Lemma blob_others st k :
  blobInv st → grid k → ¬ same k →
  Arr.int (blobId st) k = Arr.int ids0 k.
Proof.
  intros Hinv Hk Hn. by destruct (Inv.bi_ids _ _ _ _ _ _ _ Hinv k Hk) as [E|(_ & _ & ?)].
Qed.

End BlobLoop.

(** ** Components *)

Section Components.

Import BlobSpec.

Variables (isBackground : list bool) (width height : Z).

Local Abbreviation grid := (inGrid width height).
Local Abbreviation same := (sameBlob isBackground width height).

Lemma foreground_get k :
  foreground isBackground k = true ↔ Arr.get isBackground k = false.
Proof. unfold foreground. apply negb_true_iff. Qed.

Lemma sameBlob_refl i : grid i → Arr.get isBackground i = false → same i i.
Proof. intros Hi Hf. apply path_start; [done | done | by apply foreground_get]. Qed.

Lemma sameBlob_end i j : same i j → grid j ∧ Arr.get isBackground j = false.
Proof. intros H. apply pathFrom_inv in H as [? ?]. by rewrite <- foreground_get. Qed.

Lemma sameBlob_start i j : same i j → grid i ∧ Arr.get isBackground i = false.
Proof.
  induction 1 as [k Hk <- Hf|]; [|done]. by rewrite <- foreground_get.
Qed.

Lemma sameBlob_trans i j k : same i j → same j k → same i k.
Proof.
  intros Hij. induction 1 as [k _ <- _|k l _ IH Hl Ha Hf]; [done|].
  by eapply path_step.
Qed.

Lemma sameBlob_sym i j : same i j → same j i.
Proof.
  induction 1 as [k Hk <- Hf|k l Hkl IH Hl Ha Hf].
  - by apply path_start.
  - apply (sameBlob_trans _ k); [|done].
    apply sameBlob_end in Hkl as [Hk Hfk].
    eapply path_step; [by apply path_start | done | by apply adjacent_sym |].
    by apply foreground_get.
Qed.

Lemma blobCount_same i j n :
  same i j → blobCount isBackground width height i n →
  blobCount isBackground width height j n.
Proof.
  intros Hij (l & Hnd & Hl & Hn). exists l. split; [done|]. split; [|done].
  intros k. rewrite Hl. split.
  - intros Hik. by apply (sameBlob_trans _ i); [apply sameBlob_sym|].
  - intros Hjk. by apply (sameBlob_trans _ j).
Qed.

(** Two counts of one component agree. *)
Lemma blobCount_unique i j n n' :
  same i j → blobCount isBackground width height i n →
  blobCount isBackground width height j n' → n = n'.
Proof.
  intros Hij (l & Hnd & Hl & <-) (l' & Hnd' & Hl' & <-).
  f_equal. apply Permutation_length, NoDup_Permutation; [done | done|].
  intros k. rewrite Hl, Hl'. split.
  - intros Hik. by apply (sameBlob_trans _ i); [apply sameBlob_sym|].
  - intros Hjk. by apply (sameBlob_trans _ j).
Qed.

End Components.

Lemma filter_length_ext {A B} (P : A → Prop) (Q : B → Prop)
    `{!∀ x, Decision (P x)} `{!∀ y, Decision (Q y)}
    (l : list A) (l' : list B) :
  length l = length l' →
  (∀ n x y, l !! n = Some x → l' !! n = Some y → (P x ↔ Q y)) →
  length (filter P l) = length (filter Q l').
Proof.
  revert l'. induction l as [|x l IH]; intros [|y l'] Hlen Hext; try done.
  rewrite !filter_cons.
  assert (P x ↔ Q y) as Hxy by (by apply (Hext 0%nat)).
  assert (length (filter P l) = length (filter Q l')) as Hrec.
  { apply IH; [by injection Hlen|]. intros n. apply (Hext (S n)). }
  destruct (decide (P x)), (decide (Q y)); simpl; (lia || tauto).
Qed.

(** Counting a label over the values and over the indices. *)
Lemma labelCount_indices (ids : list Z) (b : Z) :
  labelCount ids b =
  Z.of_nat (length (filter (λ j, Arr.int ids j = Some b)
                           (seqZ 0 (Z.of_nat (length ids))))).
Proof.
  unfold labelCount. f_equal. apply filter_length_ext.
  - rewrite length_seqZ. lia.
  - intros n x y Hx Hy. apply lookup_seqZ in Hy as [-> _].
    unfold Arr.int, Arr.byte. rewrite Z.add_0_l.
    destruct (Z.ltb_spec (Z.of_nat n) 0); [lia|].
    rewrite Nat2Z.id, Hx. split; [by intros -> | by intros [= ->]].
Qed.

(** ** The largest entry of [blobSizes] *)

Lemma largestOf_spec (sizes : list Z) :
  sizes ≠ [] →
  let top := largestOf sizes in
  0 ≤ top < Z.of_nat (length sizes) ∧
  ∀ b, 0 ≤ b < Z.of_nat (length sizes) →
       sizeOf sizes b ≤ sizeOf sizes top ∧
       (sizeOf sizes b = sizeOf sizes top → top ≤ b).
Proof.
  intros Hne. simpl. unfold largestOf.
  assert (0 < Z.of_nat (length sizes)) as Hlen.
  { destruct sizes; [done | simpl; lia]. }
  pose proof (forRange_inv (λ k top,
    0 ≤ top < k ∧
    ∀ b, 0 ≤ b < k →
         sizeOf sizes b ≤ sizeOf sizes top ∧
         (sizeOf sizes b = sizeOf sizes top → top ≤ b))
    1 (Z.of_nat (length sizes) - 1)
    (λ b largestBlob,
      if sizeOf sizes largestBlob <? sizeOf sizes b then b else largestBlob)
    0 ltac:(lia)) as H.
  replace (1 + (Z.of_nat (length sizes) - 1)) with (Z.of_nat (length sizes))
    in H by lia.
  apply H; clear H.
  - split; [lia|]. intros b Hb. assert (b = 0) as -> by lia. lia.
  - intros k top Hk [Htop Hmax].
    destruct (Z.ltb_spec (sizeOf sizes top) (sizeOf sizes k)).
    + split; [lia|]. intros b Hb. destruct (decide (b = k)) as [->|]; [lia|].
      destruct (Hmax b ltac:(lia)). lia.
    + split; [lia|]. intros b Hb. destruct (decide (b = k)) as [->|]; [lia|].
      by apply Hmax; lia.
Qed.

(** ** Labelling all components *)

Section Labelling.

Import BlobSpec.

Variables (isBackground : list bool) (width height : Z).
Hypothesis width_pos : 0 < width.
Hypothesis height_pos : 0 < height.

Local Abbreviation grid := (inGrid width height).
Local Abbreviation same := (sameBlob isBackground width height).
Local Abbreviation total := (Z.to_nat (width * height)).

Local Abbreviation labelInv := (Inv.labelInv isBackground width height).

Lemma int_grid (a : list Z) k v :
  length a = total → Arr.int a k = Some v → grid k.
Proof.
  intros Hlen Hk. apply byte_Some_range in Hk. rewrite Hlen in Hk.
  unfold inGrid. lia.
Qed.

Lemma labelled_root i ls roots k :
  labelInv i ls roots → labelled (ids ls) k = true →
  ∃ (b : nat) r, Arr.int (ids ls) k = Some (Z.of_nat b) ∧
                 roots !! b = Some r ∧ same r k.
Proof.
  intros Hinv Hl. unfold labelled in Hl.
  destruct (Arr.int (ids ls) k) as [v|] eqn:Ev; [|done].
  apply Z.leb_le in Hl.
  pose proof (Inv.li_range _ _ _ _ _ _ Hinv k v Ev) as Hv.
  rewrite (Inv.li_current _ _ _ _ _ _ Hinv), <- (Inv.li_roots _ _ _ _ _ _ Hinv) in Hv.
  destruct (lookup_lt_is_Some_2 roots (Z.to_nat v) ltac:(lia)) as [r Hr].
  exists (Z.to_nat v), r. rewrite Z2Nat.id by done. split; [done|].
  split; [done|].
  destruct (Inv.li_root _ _ _ _ _ _ Hinv _ _ Hr) as (_ & _ & Hsame & _).
  apply Hsame; [by eapply int_grid, Ev; apply (Inv.li_length _ _ _ _ _ _ Hinv)|].
  by rewrite Z2Nat.id.
Qed.

Lemma labelled_closed i ls roots k j :
  labelInv i ls roots → labelled (ids ls) k = true → same k j →
  labelled (ids ls) j = true.
Proof.
  intros Hinv Hl Hkj.
  destruct (labelled_root i ls roots k Hinv Hl) as (b & r & Hb & Hr & Hrk).
  destruct (Inv.li_root _ _ _ _ _ _ Hinv _ _ Hr) as (_ & _ & Hsame & _).
  assert (same r j) as Hrj by (by eapply sameBlob_trans).
  apply Hsame in Hrj; [|by apply sameBlob_end in Hkj as [? _]].
  rewrite (labelled_Some _ _ _ Hrj). apply Z.leb_le. lia.
Qed.

Lemma labelInit_inv :
  labelInv 0 (mkLabels (replicate total (-1)) [] 0) [].
Proof.
  split; simpl.
  - apply length_replicate.
  - done.
  - done.
  - intros k v Hk. unfold Arr.int, Arr.byte in Hk. case_match; [done|].
    apply lookup_replicate in Hk as [-> _]. lia.
  - intros k [? ?] ?. lia.
  - intros b r Hr. by rewrite lookup_nil in Hr.
Qed.

Lemma labelFrom_inv i ls roots :
  grid i → labelInv i ls roots →
  ∃ ls' roots', labelFrom isBackground width height i ls = Some ls' ∧
                labelInv (i + 1) ls' roots'.
Proof.
  intros Hi Hinv. unfold labelFrom.
  destruct (Arr.get isBackground i) eqn:Hfg; simpl.
  { exists ls, roots. split; [done|].
    destruct Hinv as [Hlen Hcur Hroots Hrange Hdone Hroot]. split; try done.
    - intros k Hk Hlt Hfk. apply Hdone; [done | | done].
      destruct (decide (k = i)) as [->|]; [congruence | lia].
    - intros b r Hr. destruct (Hroot b r Hr) as (? & ? & ?).
      split; [done|]. split; [lia | done]. }
  destruct (labelled (ids ls) i) eqn:Hun.
  { exists ls, roots. split; [done|].
    destruct Hinv as [Hlen Hcur Hroots Hrange Hdone Hroot]. split; try done.
    - intros k Hk Hlt Hfk.
      destruct (decide (k = i)) as [->|]; [done|]. apply Hdone; (done || lia).
    - intros b r Hr. destruct (Hroot b r Hr) as (? & ? & ?).
      split; [done|]. split; [lia | done]. }
  pose proof Hinv as [Hlen Hcur Hroots Hrange Hdone Hroot].
  assert (0 ≤ currentBlob ls) as Hb by lia.
  assert (∀ k v, Arr.int (ids ls) k = Some v → v < currentBlob ls) as Hbelow.
  { intros k v Hk. apply Hrange in Hk. lia. }
  assert (∀ k j, grid k → labelled (ids ls) k = true → grid j →
                 adjacent width k j → Arr.get isBackground j = false →
                 labelled (ids ls) j = true) as Hclosed.
  { intros k j Hk Hlk Hj Ha Hfj.
    apply (labelled_closed i ls roots k j Hinv Hlk).
    destruct (labelled_root i ls roots k Hinv Hlk) as (_ & r & _ & _ & Hrk).
    apply sameBlob_end in Hrk as [_ Hfk].
    eapply path_step; [by apply sameBlob_refl | done | done |].
    by apply foreground_get. }
  destruct (blobLoop_runs isBackground width height (currentBlob ls) (ids ls) i
              width_pos height_pos Hb Hlen Hbelow Hclosed Hi Hfg Hun
              (blobMeasure (mkBlob (ids ls) [i] 0)) (mkBlob (ids ls) [i] 0))
    as (st & -> & Hst & Hstack); [by apply blobInit_inv | done|].
  pose proof (blob_complete isBackground width height (currentBlob ls) (ids ls) i
    width_pos height_pos Hb Hlen Hbelow Hclosed Hi Hfg Hun st) as Hcomplete.
  pose proof (blob_sound isBackground width height (currentBlob ls) (ids ls) i
    width_pos height_pos Hb Hlen Hbelow Hclosed Hi Hfg Hun st) as Hsound.
  pose proof (blob_others isBackground width height (currentBlob ls) (ids ls) i
    width_pos height_pos Hb Hlen Hbelow Hclosed Hi Hfg Hun st) as Hothers.
  specialize (λ k, Hcomplete k Hst Hstack).
  specialize (λ k, Hsound k Hst). clear Hothers.
  destruct Hst as [Hlen' Hids _ _ Hstart Hsize].
  simpl. exists (mkLabels (blobId st) (blobSizes ls ++ [blobSize st])
                          (currentBlob ls + 1)), (roots ++ [i]).
  split; [done|].
  assert (∀ k, grid k → labelled (ids ls) k = true →
               Arr.int (blobId st) k = Arr.int (ids ls) k) as Hkeep.
  { intros k Hk Hl. destruct (Hids k Hk) as [?|(? & _)]; [done | congruence]. }
  split; simpl.
  - done.
  - rewrite length_app. simpl. lia.
  - rewrite !length_app. simpl. lia.
  - intros k v Hk. pose proof (int_grid _ _ _ Hlen' Hk) as Hgk.
    destruct (Hids k Hgk) as [E|(_ & E & _)].
    + rewrite E in Hk. apply Hrange in Hk. lia.
    + rewrite E in Hk. injection Hk as <-. lia.
  - intros k Hk Hlt Hfk. destruct (decide (k = i)) as [->|Hne].
    + rewrite Hstack in Hstart.
      destruct Hstart as [?|Hin]; [done | by apply elem_of_nil in Hin].
    + assert (labelled (ids ls) k = true) as Hl by (apply Hdone; (done || lia)).
      unfold labelled. rewrite (Hkeep k Hk Hl). exact Hl.
  - intros b r Hr. apply lookup_app_Some in Hr as [Hr|[Hge Hr]].
    + destruct (Hroot b r Hr) as (Hgr & Hri & Hsame & Hmin & Hsz & Hord).
      pose proof (lookup_lt_Some _ _ _ Hr) as Hblt.
      assert (∀ j, grid j →
        Arr.int (blobId st) j = Some (Z.of_nat b) ↔
        Arr.int (ids ls) j = Some (Z.of_nat b)) as Hsame_ids.
      { intros j Hj. destruct (Hids j Hj) as [->|(Hl0 & E & _)]; [done|].
        rewrite E. split.
        - intros [= Eb]. lia.
        - intros E0. rewrite (labelled_Some _ _ _ E0) in Hl0.
          apply Z.leb_gt in Hl0. lia. }
      split; [done|]. split; [lia|]. split; [|split; [done|split]].
      * intros j Hj. rewrite Hsame_ids by done. by apply Hsame.
      * rewrite lookup_app_l by lia. rewrite Hsz. f_equal.
        unfold labelCount. f_equal.
        apply filter_length_ext; [by rewrite Hlen, Hlen'|].
        intros n x y Hx Hy.
        assert (grid (Z.of_nat n)) as Hgn.
        { apply lookup_lt_Some in Hx. unfold inGrid. lia. }
        pose proof (Hsame_ids (Z.of_nat n) Hgn) as Hn.
        unfold Arr.int, Arr.byte in Hn.
        destruct (Z.ltb_spec (Z.of_nat n) 0); [lia|].
        rewrite Nat2Z.id, Hx, Hy in Hn. destruct Hn as [Hn1 Hn2]. split.
        -- intros ->. specialize (Hn2 eq_refl). congruence.
        -- intros ->. specialize (Hn1 eq_refl). congruence.
      * intros b' r' Hb' Hr'. apply (Hord b' r' Hb').
        by rewrite lookup_app_l in Hr' by lia.
    + apply list_lookup_singleton_Some in Hr as [Hb0 <-].
      assert (b = length roots) as -> by lia. clear Hge Hb0.
      assert (Z.of_nat (length roots) = currentBlob ls) as Ecur by lia.
      split; [by apply sameBlob_refl|]. split; [lia|]. split; [|split; [|split]].
      * intros j Hj. rewrite Ecur. split; [by apply Hsound | by apply Hcomplete].
      * intros j Hij. destruct (Z.le_gt_cases i j) as [|Hlt]; [done|].
        exfalso. apply sameBlob_end in Hij as Hj. destruct Hj as [Hj Hfj].
        assert (labelled (ids ls) j = true) as Hlj by (by apply Hdone).
        apply sameBlob_sym in Hij.
        rewrite (labelled_closed i ls roots j i Hinv Hlj Hij) in Hun. done.
      * rewrite lookup_app_r by lia. rewrite Hroots, Nat.sub_diag. simpl.
        by rewrite <- Hcur, Hsize.
      * intros b' r' Hb' Hr'. rewrite lookup_app_l in Hr' by done.
        by destruct (Hroot b' r' Hr') as (_ & ? & _).
Qed.

Lemma labelAll_inv :
  ∃ ls roots, labelAll isBackground width height = Some ls ∧
              labelInv (width * height) ls roots.
Proof.
  unfold labelAll.
  pose proof (forRange_inv (λ i (ols : option Labels),
    ∃ ls roots, ols = Some ls ∧ labelInv i ls roots)
    0 (width * height)
    (λ i ols, ls ← ols; labelFrom isBackground width height i ls)
    (Some (mkLabels (replicate total (-1)) [] 0)) ltac:(nia)) as H.
  rewrite Z.add_0_l in H. apply H; clear H.
  - exists (mkLabels (replicate total (-1)) [] 0), []. split; [done|].
    apply labelInit_inv.
  - intros i ols Hi (ls & roots & -> & Hinv). simpl.
    apply (labelFrom_inv i ls roots); [unfold inGrid; lia | done].
Qed.

End Labelling.

(** ** Dropping the other components *)

Section DropOthers.

Variables (isBackground : list bool) (blobId : list Z).
Variables (totalPixels largestBlob : Z).

Local Abbreviation body :=
  (λ i '(isBackground, extraRemoved),
    if negb (Arr.get isBackground i) && otherBlob blobId i largestBlob
    then (Arr.set isBackground i, extraRemoved + 1)
    else (isBackground, extraRemoved)).

Lemma dropOthers_mono k :
  Arr.get isBackground k = true →
  Arr.get (dropOthers isBackground blobId totalPixels largestBlob).1 k = true.
Proof.
  intros Hk. unfold dropOthers.
  apply (forRange_keeps (λ st : list bool * Z, Arr.get st.1 k = true));
    [done|].
  intros i [cur extra] _ Hcur. simpl in *.
  destruct (negb (Arr.get cur i) && otherBlob blobId i largestBlob); [|done].
  simpl. by apply get_set_mono.
Qed.

Lemma dropOthers_spec :
  0 ≤ totalPixels ≤ Z.of_nat (length isBackground) →
  let r := dropOthers isBackground blobId totalPixels largestBlob in
  length r.1 = length isBackground ∧
  (∀ k, Arr.get r.1 k = true ↔
        Arr.get isBackground k = true ∨
        (0 ≤ k < totalPixels ∧ otherBlob blobId k largestBlob = true)) ∧
  Arr.count r.1 = Arr.count isBackground + r.2.
Proof.
  intros Hn. simpl. unfold dropOthers.
  pose proof (forRange_inv (λ i (st : list bool * Z),
    length st.1 = length isBackground ∧
    (∀ k, Arr.get st.1 k = true ↔
          Arr.get isBackground k = true ∨
          (0 ≤ k < i ∧ otherBlob blobId k largestBlob = true)) ∧
    Arr.count st.1 = Arr.count isBackground + st.2)
    0 totalPixels body (isBackground, 0) ltac:(lia)) as H.
  rewrite Z.add_0_l in H. apply H; clear H.
  - simpl. split; [done|]. split; [|lia].
    intros k. split; [auto|]. intros [?|[? _]]; [done | lia].
  - intros i [cur extra] Hi (Hlen & Hget & Hcount). simpl in *.
    assert (Arr.get cur i = Arr.get isBackground i) as Ecur.
    { apply eq_true_iff_eq. rewrite Hget. split; [|auto].
      intros [?|[? _]]; [done | lia]. }
    rewrite Ecur.
    destruct (Arr.get isBackground i) eqn:Hbg; simpl.
    { split; [done|]. split; [|done]. intros k. rewrite Hget. split.
      - intros [?|[? ?]]; [by left | right]. split; [lia | done].
      - intros [?|[? ?]]; [by left|].
        destruct (decide (k = i)) as [->|]; [by left|]. right.
        split; [lia | done]. }
    destruct (otherBlob blobId i largestBlob) eqn:Ho; simpl.
    + rewrite length_set. split; [done|]. split.
      * intros k. rewrite get_set, Hget, Hlen. split.
        -- intros [[?|[? ?]]|[-> ?]]; [by left | right | right];
             (split; [lia | done]).
        -- intros [?|[? ?]]; [by left; left|].
           destruct (decide (k = i)) as [->|]; [right; split; [done | lia]|].
           left; right. split; [lia | done].
      * rewrite count_set; [lia | lia | by rewrite Ecur].
    + split; [done|]. split; [|done]. intros k. rewrite Hget. split.
      * intros [?|[? ?]]; [by left | right]. split; [lia | done].
      * intros [?|[? ?]]; [by left|].
        destruct (decide (k = i)) as [->|]; [congruence|]. right.
        split; [lia | done].
Qed.

End DropOthers.

(** ** Keeping the largest component *)

Section KeepLargest.

Import BlobSpec.

Variables (isBackground : list bool) (width height : Z).

Local Abbreviation grid := (inGrid width height).
Local Abbreviation same := (sameBlob isBackground width height).
Local Abbreviation total := (Z.to_nat (width * height)).

(** With nothing in the foreground no component is found, and the stage
    returns 0 and leaves the mask as it is. *)
Lemma keepLargestBlob_all_background :
  (∀ i, grid i → Arr.get isBackground i = true) →
  keepLargestBlob isBackground width height = Some (isBackground, 0).
Proof.
  intros Hall. unfold keepLargestBlob.
  assert (labelAll isBackground width height =
          Some (mkLabels (replicate total (-1)) [] 0)) as ->; [|done].
  unfold labelAll.
  apply (forRange_keeps
    (λ ols, ols = Some (mkLabels (replicate total (-1)) [] 0))); [done|].
  intros i ols Hi ->. simpl. unfold labelFrom.
  rewrite Hall; [done|]. unfold inGrid. lia.
Qed.

Hypothesis width_pos : 0 < width.
Hypothesis height_pos : 0 < height.

Lemma keepLargestBlob_runs :
  ∃ ls roots,
    Inv.labelInv isBackground width height (width * height) ls roots ∧
    keepLargestBlob isBackground width height =
    Some (match blobSizes ls with
          | [] => (isBackground, 0)
          | _ :: _ => dropOthers isBackground (ids ls) (width * height)
                                 (largestOf (blobSizes ls))
          end).
Proof.
  destruct (labelAll_inv isBackground width height width_pos height_pos)
    as (ls & roots & Hrun & Hinv).
  exists ls, roots. split; [done|]. unfold keepLargestBlob. rewrite Hrun.
  simpl. by destruct (blobSizes ls).
Qed.

Lemma keepLargestBlob_mono :
  ∃ r, keepLargestBlob isBackground width height = Some r ∧
       ∀ k, Arr.get isBackground k = true → Arr.get r.1 k = true.
Proof.
  destruct keepLargestBlob_runs as (ls & roots & _ & ->).
  eexists. split; [done|]. intros k Hk.
  destruct (blobSizes ls); [done|]. by apply dropOthers_mono.
Qed.

Lemma keepLargestBlob_count :
  length isBackground = total →
  ∃ r, keepLargestBlob isBackground width height = Some r ∧
       length r.1 = length isBackground ∧
       Arr.count r.1 = Arr.count isBackground + r.2.
Proof.
  intros Hlen. destruct keepLargestBlob_runs as (ls & roots & _ & ->).
  eexists. split; [done|].
  destruct (blobSizes ls); [simpl; split; [done | lia]|].
  destruct (dropOthers_spec isBackground (ids ls) (width * height)
              (largestOf (z :: l)) ltac:(nia)) as (? & _ & ?).
  done.
Qed.

(** The component labelled [b] has as many pixels as [blobSizes] says. *)
Lemma root_count ls roots (b : nat) r :
  Inv.labelInv isBackground width height (width * height) ls roots →
  roots !! b = Some r →
  blobCount isBackground width height r (sizeOf (blobSizes ls) (Z.of_nat b)).
Proof.
  intros Hinv Hr.
  destruct (Inv.li_root _ _ _ _ _ _ Hinv b r Hr) as (_ & _ & Hsame & _ & Hsz & _).
  exists (filter (λ j, Arr.int (ids ls) j = Some (Z.of_nat b))
                 (seqZ 0 (Z.of_nat (length (ids ls))))).
  split; [apply NoDup_filter, NoDup_seqZ|]. split.
  - intros j. rewrite list_elem_of_filter, elem_of_seqZ.
    rewrite (Inv.li_length _ _ _ _ _ _ Hinv). split.
    + intros [Hj ?]. apply Hsame; [unfold inGrid; lia | done].
    + intros Hj. pose proof (sameBlob_end _ _ _ _ _ Hj) as [Hg _].
      split; [by apply Hsame|]. unfold inGrid in Hg. lia.
  - rewrite <- labelCount_indices. unfold sizeOf, Arr.int, Arr.byte.
    destruct (Z.ltb_spec (Z.of_nat b) 0); [lia|].
    by rewrite Nat2Z.id, Hsz.
Qed.

Lemma otherBlob_false ids k top :
  otherBlob ids k top = false ↔ Arr.int ids k = Some top.
Proof.
  unfold otherBlob. destruct (Arr.int ids k) as [v|]; [|done].
  rewrite negb_false_iff, Z.eqb_eq. split; [by intros -> | by intros [= ->]].
Qed.

Lemma keepLargestBlob_correct :
  length isBackground = total →
  (∃ i, grid i ∧ Arr.get isBackground i = false) →
  ∃ mask extra keep kept,
    keepLargestBlob isBackground width height = Some (mask, extra) ∧
    (grid keep ∧ Arr.get isBackground keep = false) ∧
    blobCount isBackground width height keep kept ∧
    (∀ k, grid k → Arr.get mask k = false ↔ same keep k) ∧
    (∀ k n, grid k → Arr.get isBackground k = false →
            blobCount isBackground width height k n →
            n ≤ kept ∧ (n = kept → keep ≤ k)) ∧
    (∀ k, grid k → Arr.get isBackground k = false →
          ∃ n, blobCount isBackground width height k n).
Proof.
  intros Hlen (i0 & Hi0 & Hf0).
  destruct keepLargestBlob_runs as (ls & roots & Hinv & Hrun).
  assert (∀ k, grid k → Arr.get isBackground k = false →
    ∃ (b : nat) r, Arr.int (ids ls) k = Some (Z.of_nat b) ∧
                   roots !! b = Some r ∧ same r k) as Hlab.
  { intros k Hk Hfk. apply (labelled_root isBackground width height
      width_pos height_pos (width * height) ls roots k Hinv).
    apply (Inv.li_done _ _ _ _ _ _ Hinv); [done | by destruct Hk | done]. }
  pose proof (Inv.li_roots _ _ _ _ _ _ Hinv) as Hroots.
  assert (blobSizes ls ≠ []) as Hne.
  { destruct (Hlab i0 Hi0 Hf0) as (b0 & r0 & _ & Hr0 & _).
    apply lookup_lt_Some in Hr0. rewrite Hroots in Hr0.
    destruct (blobSizes ls); [simpl in Hr0; lia | done]. }
  destruct (largestOf_spec (blobSizes ls) Hne) as [Htop Hmax].
  set (top := largestOf (blobSizes ls)) in *.
  rewrite <- Hroots in Htop.
  destruct (lookup_lt_is_Some_2 roots (Z.to_nat top) ltac:(lia)) as [keep Hkeep].
  destruct (Inv.li_root _ _ _ _ _ _ Hinv _ _ Hkeep)
    as (Hkk & _ & Hsame & Hmin & _ & _).
  rewrite Z2Nat.id in Hsame by lia.
  destruct (dropOthers_spec isBackground (ids ls) (width * height) top
              ltac:(nia)) as (_ & Hget & _).
  destruct (dropOthers isBackground (ids ls) (width * height) top)
    as [mask extra] eqn:Ed. simpl in Hget.
  exists mask, extra, keep, (sizeOf (blobSizes ls) top).
  split; [rewrite Hrun; by destruct (blobSizes ls)|].
  split; [by apply sameBlob_end in Hkk|].
  split.
  { pose proof (root_count ls roots _ keep Hinv Hkeep) as Hc.
    by rewrite Z2Nat.id in Hc by lia. }
  split; [|split].
  - intros k Hk. rewrite <- Hsame by done. rewrite <- otherBlob_false.
    rewrite <- not_true_iff_false, Hget. split.
    + intros Hn. apply not_true_is_false. intros Ho. apply Hn. right.
      split; [by destruct Hk | done].
    + intros Ho [Hbg|[_ Ho']]; [|congruence].
      apply otherBlob_false, Hsame in Ho; [|done].
      apply sameBlob_end in Ho as [_ ?]. congruence.
  - intros k n Hk Hfk Hn.
    destruct (Hlab k Hk Hfk) as (b & r & _ & Hr & Hrk).
    pose proof (root_count ls roots b r Hinv Hr) as Hc.
    pose proof (blobCount_unique _ _ _ _ _ _ _ Hrk Hc Hn) as <-.
    pose proof (lookup_lt_Some _ _ _ Hr) as Hb.
    destruct (Hmax (Z.of_nat b) ltac:(lia)) as [Hle Htie].
    split; [done|]. intros Heq. specialize (Htie Heq).
    destruct (Inv.li_root _ _ _ _ _ _ Hinv _ _ Hr)
      as (_ & _ & _ & Hminr & _ & Hordr).
    specialize (Hminr k Hrk).
    destruct (decide (Z.to_nat top = b)) as [E|E].
    + rewrite E in Hkeep. assert (keep = r) as -> by congruence. done.
    + specialize (Hordr (Z.to_nat top) keep ltac:(lia) Hkeep). lia.
  - intros k Hk Hfk.
    destruct (Hlab k Hk Hfk) as (b & r & _ & Hr & Hrk).
    exists (sizeOf (blobSizes ls) (Z.of_nat b)).
    apply (blobCount_same _ _ _ r); [done|]. by eapply root_count.
Qed.

End KeepLargest.

(** ** The stages in sequence *)

Lemma runStages_inv data width height channels s :
  runStages data width height channels = Some s →
  floodFillBackground data width height channels = Some (floodMask s) ∧
  densityShadowCleanup data (floodMask s) width height channels =
    (cleanedMask s, shadowCleaned s) ∧
  keepLargestBlob (cleanedMask s) width height =
    Some (keptMask s, extraRemoved s) ∧
  applyEdgeSmoothing data (keptMask s) width height channels 2 =
    (outData s, removedPixels s).
Proof.
  unfold runStages. intros H.
  destruct (floodFillBackground data width height channels) as [m1|];
    [|done].
  simpl in H.
  destruct (densityShadowCleanup data m1 width height channels)
    as [m2 n2] eqn:E2.
  destruct (keepLargestBlob m2 width height) as [[m3 n3]|] eqn:E3; [|done].
  simpl in H.
  destruct (applyEdgeSmoothing data m3 width height channels 2)
    as [d4 n4] eqn:E4.
  injection H as <-. simpl. by rewrite E2, E3, E4.
Qed.

Lemma runStages_total data width height channels :
  0 < width → 0 < height →
  ∃ s, runStages data width height channels = Some s.
Proof.
  intros Hw Hh. unfold runStages.
  destruct (floodFill_correct data width height channels Hw Hh)
    as (m1 & -> & _).
  simpl.
  destruct (densityShadowCleanup data m1 width height channels) as [m2 n2].
  destruct (keepLargestBlob_mono m2 width height Hw Hh) as ([m3 n3] & -> & _).
  simpl.
  destruct (applyEdgeSmoothing data m3 width height channels 2) as [d4 n4].
  by eexists.
Qed.

Lemma runStages_lengths data width height channels s :
  0 < width → 0 < height →
  runStages data width height channels = Some s →
  length (floodMask s) = Z.to_nat (width * height) ∧
  length (cleanedMask s) = Z.to_nat (width * height) ∧
  length (keptMask s) = Z.to_nat (width * height) ∧
  Arr.count (cleanedMask s) = Arr.count (floodMask s) + shadowCleaned s ∧
  Arr.count (keptMask s) = Arr.count (cleanedMask s) + extraRemoved s.
Proof.
  intros Hw Hh Hrun.
  destruct (runStages_inv _ _ _ _ _ Hrun) as (H1 & H2 & H3 & _).
  destruct (floodFill_correct data width height channels Hw Hh)
    as (m1 & Hm1 & Hlen1 & _).
  rewrite H1 in Hm1. injection Hm1 as <-.
  pose proof (cleanup_count data width height channels (floodMask s)
    ltac:(lia) ltac:(lia) Hlen1) as Hc. simpl in Hc. rewrite H2 in Hc.
  simpl in Hc. destruct Hc as [Hlen2 Hcount2]. rewrite Hlen1 in Hlen2.
  destruct (keepLargestBlob_count (cleanedMask s) width height Hw Hh Hlen2)
    as (r & Hr & Hlen3 & Hcount3).
  rewrite H3 in Hr. injection Hr as <-. simpl in *.
  rewrite Hlen2 in Hlen3. done.
Qed.

Lemma applyEdgeSmoothing_frame data isBackground width height channels radius :
  0 ≤ width * height →
  let r := applyEdgeSmoothing data isBackground width height channels radius in
  length r.1 = length data ∧
  r.2 = Arr.count (take (Z.to_nat (width * height)) isBackground) ∧
  ∀ k, (∀ j, 0 ≤ j < width * height → k ≠ j * channels + 3) →
       Arr.byte r.1 k = Arr.byte data k.
Proof. intros Hn. unfold applyEdgeSmoothing. by apply paint_frame. Qed.

(** C3. Once set, a mask entry stays set: [densityShadowCleanup] and
    [keepLargestBlob] return a mask that contains the mask they were given,
    so that in the pipeline the flood mask is contained in the cleaned mask
    and the cleaned mask in the kept mask. [applyEdgeSmoothing] only reads
    the mask: what it returns is the buffer and a count, and the mask it
    was given is the mask the pipeline ends with. *)
Theorem mask_monotone (data : list Z) (isBackground : list bool)
    (width height channels : Z) :
  0 < width → 0 < height →
  (∀ i, Arr.get isBackground i = true →
        Arr.get (densityShadowCleanup data isBackground
                   width height channels).1 i = true) ∧
  (∃ r, keepLargestBlob isBackground width height = Some r ∧
        ∀ i, Arr.get isBackground i = true → Arr.get r.1 i = true) ∧
  (∃ s, runStages data width height channels = Some s ∧
        (∀ i, Arr.get (floodMask s) i = true →
              Arr.get (cleanedMask s) i = true) ∧
        (∀ i, Arr.get (cleanedMask s) i = true →
              Arr.get (keptMask s) i = true) ∧
        applyEdgeSmoothing data (keptMask s) width height channels 2 =
          (outData s, removedPixels s)).
Proof.
  intros Hw Hh. split; [|split].
  - intros i. apply cleanup_mono.
  - by apply keepLargestBlob_mono.
  - destruct (runStages_total data width height channels Hw Hh) as [s Hs].
    exists s. split; [done|].
    destruct (runStages_inv _ _ _ _ _ Hs) as (_ & H2 & H3 & H4).
    split; [|split; [|done]].
    + intros i Hi.
      pose proof (cleanup_mono data width height channels _ i Hi) as Hm.
      by rewrite H2 in Hm.
    + intros i Hi.
      destruct (keepLargestBlob_mono (cleanedMask s) width height Hw Hh)
        as (r & Hr & Hm).
      rewrite H3 in Hr. injection Hr as <-. by apply Hm.
Qed.

Lemma mask_monotone_witness :
  (∀ i, Arr.get Samples.ringMask i = true →
        Arr.get (densityShadowCleanup Samples.ring Samples.ringMask
                   5 5 4).1 i = true) ∧
  (∃ r, keepLargestBlob Samples.ringMask 5 5 = Some r ∧
        ∀ i, Arr.get Samples.ringMask i = true → Arr.get r.1 i = true) ∧
  (∃ s, runStages Samples.ring 5 5 4 = Some s ∧
        (∀ i, Arr.get (floodMask s) i = true →
              Arr.get (cleanedMask s) i = true) ∧
        (∀ i, Arr.get (cleanedMask s) i = true →
              Arr.get (keptMask s) i = true) ∧
        applyEdgeSmoothing Samples.ring (keptMask s) 5 5 4 2 =
          (outData s, removedPixels s)).
Proof. apply (mask_monotone Samples.ring Samples.ringMask 5 5 4); lia. Defined.

(** C6. On a mask of the image's size with a foreground pixel,
    [keepLargestBlob] leaves exactly one 4-connected foreground component,
    that of a pixel [keep]: a pixel is clear in the mask returned if and
    only if it belongs to it. No component has more pixels, and [keep]
    comes before every pixel of every component with as many pixels, so
    that among the largest components the one met first in row-major order
    is kept. Every other foreground pixel is added to the mask. *)
Theorem keeps_largest_component (isBackground : list bool) (width height : Z) :
  0 < width → 0 < height →
  length isBackground = Z.to_nat (width * height) →
  (∃ i, inGrid width height i ∧ Arr.get isBackground i = false) →
  ∃ mask extra keep kept,
    keepLargestBlob isBackground width height = Some (mask, extra) ∧
    (inGrid width height keep ∧ Arr.get isBackground keep = false) ∧
    BlobSpec.blobCount isBackground width height keep kept ∧
    (∀ k, inGrid width height k →
          Arr.get mask k = false ↔
          BlobSpec.sameBlob isBackground width height keep k) ∧
    (∀ k n, inGrid width height k → Arr.get isBackground k = false →
            BlobSpec.blobCount isBackground width height k n →
            n ≤ kept ∧ (n = kept → keep ≤ k)) ∧
    (∀ k, inGrid width height k → Arr.get isBackground k = false →
          ∃ n, BlobSpec.blobCount isBackground width height k n).
Proof. apply keepLargestBlob_correct. Qed.

Lemma keeps_largest_component_witness :
  ∃ mask extra keep kept,
    keepLargestBlob [false; true; false; true; false] 5 1 =
      Some (mask, extra) ∧
    (inGrid 5 1 keep ∧
     Arr.get [false; true; false; true; false] keep = false) ∧
    BlobSpec.blobCount [false; true; false; true; false] 5 1 keep kept ∧
    (∀ k, inGrid 5 1 k →
          Arr.get mask k = false ↔
          BlobSpec.sameBlob [false; true; false; true; false] 5 1 keep k) ∧
    (∀ k n, inGrid 5 1 k →
            Arr.get [false; true; false; true; false] k = false →
            BlobSpec.blobCount [false; true; false; true; false] 5 1 k n →
            n ≤ kept ∧ (n = kept → keep ≤ k)) ∧
    (∀ k, inGrid 5 1 k →
          Arr.get [false; true; false; true; false] k = false →
          ∃ n, BlobSpec.blobCount [false; true; false; true; false] 5 1 k n).
Proof.
  apply (keeps_largest_component [false; true; false; true; false] 5 1);
    [lia | lia | done|].
  exists 0. split; [unfold inGrid; lia | done].
Defined.

(** Three components of one pixel each: the first is kept, the two others
    are added to the mask, and 2 is returned. *)
Example keepLargestBlob_tie :
  keepLargestBlob [false; true; false; true; false] 5 1 =
  Some ([false; true; true; true; true], 2).
Proof. by vm_compute. Qed.

(** C8. On a 4-channel buffer the pipeline leaves every red, green and blue
    byte as it found it: the buffer after the four stages has the length of
    the input, agrees with it at every offset that is not the alpha byte of
    a pixel, and so at the three colour bytes of every pixel. The three
    mask stages return masks and counters only; the buffer
    [applyEdgeSmoothing] is given is the input buffer, and it writes alpha
    bytes only. *)
Theorem rgb_untouched (data : list Z) (width height : Z) :
  0 < width → 0 < height →
  ∃ s, runStages data width height 4 = Some s ∧
    outData s = (applyEdgeSmoothing data (keptMask s) width height 4 2).1 ∧
    length (outData s) = length data ∧
    (∀ k, k `mod` 4 ≠ 3 → Arr.byte (outData s) k = Arr.byte data k) ∧
    (∀ i c, 0 ≤ c < 3 →
            Arr.byte (outData s) (i * 4 + c) = Arr.byte data (i * 4 + c)).
Proof.
  intros Hw Hh.
  destruct (runStages_total data width height 4 Hw Hh) as [s Hs].
  exists s. split; [done|].
  destruct (runStages_inv _ _ _ _ _ Hs) as (_ & _ & _ & H4).
  destruct (applyEdgeSmoothing_frame data (keptMask s) width height 4 2
              ltac:(nia)) as (Hlen & _ & Hframe).
  rewrite H4 in Hlen, Hframe. simpl in Hlen, Hframe.
  split; [by rewrite H4|]. split; [done|].
  assert (∀ k, k `mod` 4 ≠ 3 → Arr.byte (outData s) k = Arr.byte data k) as Hk.
  { intros k Hmod. apply Hframe. intros j _ ->. apply Hmod.
    rewrite Z.add_comm, Z.mod_add by lia. done. }
  split; [done|]. intros i c Hc. apply Hk.
  rewrite Z.add_comm, Z.mod_add by lia. rewrite Z.mod_small; lia.
Qed.

Lemma rgb_untouched_witness :
  ∃ s, runStages Samples.ring 5 5 4 = Some s ∧
    outData s = (applyEdgeSmoothing Samples.ring (keptMask s) 5 5 4 2).1 ∧
    length (outData s) = length Samples.ring ∧
    (∀ k, k `mod` 4 ≠ 3 →
          Arr.byte (outData s) k = Arr.byte Samples.ring k) ∧
    (∀ i c, 0 ≤ c < 3 →
            Arr.byte (outData s) (i * 4 + c) =
            Arr.byte Samples.ring (i * 4 + c)).
Proof. apply (rgb_untouched Samples.ring 5 5); lia. Defined.

(** ** The degenerate image *)

Section AllGrey.

Variables (data : list Z) (width height channels : Z).
Hypothesis width_pos : 0 < width.
Hypothesis height_pos : 0 < height.
Hypothesis all_grey :
  ∀ i, inGrid width height i → greyAt data channels i = true.

Lemma all_grey_row (n : nat) (y : Z) :
  Z.of_nat n < width → 0 ≤ y < height →
  borderConnected data width height channels (y * width + Z.of_nat n).
Proof.
  intros Hn Hy. induction n as [|n IH].
  - assert (inGrid width height (y * width + Z.of_nat 0)) as Hg
      by (apply grid_of; lia).
    apply path_start; [done | | by apply all_grey].
    left. by destruct (coords_of width height width_pos height_pos
                         (Z.of_nat 0) y ltac:(lia) ltac:(lia)).
  - assert (inGrid width height (y * width + Z.of_nat (S n))) as Hg
      by (apply grid_of; lia).
    eapply path_step; [apply IH; lia | done | | by apply all_grey].
    destruct (coords_of width height width_pos height_pos (Z.of_nat n) y
                ltac:(lia) ltac:(lia)) as [Hc1 Hr1].
    destruct (coords_of width height width_pos height_pos (Z.of_nat (S n)) y
                ltac:(lia) ltac:(lia)) as [Hc2 Hr2].
    left. rewrite Hc1, Hr1, Hc2, Hr2. lia.
Qed.

Lemma all_grey_connected i :
  inGrid width height i → borderConnected data width height channels i.
Proof.
  intros Hi. pose proof (row_bound width height width_pos height_pos i Hi).
  destruct (coords width height width_pos height_pos i (proj1 Hi))
    as (Hc & Hr & E).
  rewrite E, <- (Z2Nat.id (colOf width i)) by lia.
  apply all_grey_row; lia.
Qed.

End AllGrey.

(** C9. When the mask covers every pixel, [keepLargestBlob] returns 0 and
    the mask unchanged, and on a 4-channel buffer [applyEdgeSmoothing] then
    sets every alpha byte to 0. The pixel stages always return: for an
    image that decodes to positive dimensions, and whose result the image
    library writes without error, [removeBackground] returns a success
    result. An image all of whose pixels satisfy the classifier is such a
    case: its mask covers every pixel from the flood fill on. *)
Theorem all_background_succeeds
    (decode : string → string + Raw) (encode : Raw → string → option string)
    (inputPath outputPath : string) (raw : Raw) :
  let data := rawData raw in
  let width := rawWidth raw in
  let height := rawHeight raw in
  decode inputPath = inr raw →
  rawChannels raw = 4 → 0 < width → 0 < height →
  Z.of_nat (length data) = 4 * (width * height) →
  (∀ out, encode out outputPath = None) →
  (∀ isBackground,
     (∀ i, inGrid width height i → Arr.get isBackground i = true) →
     keepLargestBlob isBackground width height = Some (isBackground, 0) ∧
     ∀ i, inGrid width height i →
          FeatherSpec.alphaOf
            (applyEdgeSmoothing data isBackground width height 4 2).1 i =
          Some 0) ∧
  (∃ s percent,
     runStages data width height 4 = Some s ∧
     removeBackground decode encode inputPath outputPath =
       Some (Success percent) ∧
     ((∀ i, inGrid width height i → Arr.get (cleanedMask s) i = true) →
      keptMask s = cleanedMask s ∧ extraRemoved s = 0 ∧
      ∀ i, inGrid width height i →
           FeatherSpec.alphaOf (outData s) i = Some 0) ∧
     ((∀ i, inGrid width height i → greyAt data 4 i = true) →
      ∀ i, inGrid width height i → Arr.get (cleanedMask s) i = true)).
Proof.
  intros data width height Hdec Hch Hw Hh Hlen Henc.
  assert (∀ isBackground,
     (∀ i, inGrid width height i → Arr.get isBackground i = true) →
     keepLargestBlob isBackground width height = Some (isBackground, 0) ∧
     ∀ i, inGrid width height i →
          FeatherSpec.alphaOf
            (applyEdgeSmoothing data isBackground width height 4 2).1 i =
          Some 0) as Hdegenerate.
  { intros m Hall. split; [by apply keepLargestBlob_all_background|].
    intros i Hi. apply feather_background; (done || by apply Hall). }
  split; [done|].
  destruct (runStages_total data width height 4 Hw Hh) as [s Hs].
  exists s, (percentRemoved s (width * height)).
  split; [done|]. split.
  { unfold removeBackground. rewrite Hdec, Hch.
    fold data width height. rewrite Hs. simpl. by rewrite Henc. }
  destruct (runStages_inv _ _ _ _ _ Hs) as (H1 & H2 & H3 & H4).
  split.
  - intros Hall. destruct (Hdegenerate (cleanedMask s) Hall) as [Hk Ha].
    rewrite Hk in H3. injection H3 as Ek Ee.
    split; [done|]. split; [done|]. intros i Hi.
    specialize (Ha i Hi). by rewrite Ek, H4 in Ha.
  - intros Hgrey i Hi.
    pose proof (cleanup_mono data width height 4 (floodMask s) i) as Hm.
    rewrite H2 in Hm. apply Hm.
    destruct (floodFill_correct data width height 4 Hw Hh)
      as (m1 & Hm1 & _ & Hmask).
    rewrite H1 in Hm1. injection Hm1 as <-.
    apply Hmask. by apply all_grey_connected.
Qed.

Lemma all_background_succeeds_witness :
  let decode := λ _ : string, inr (mkRaw Samples.backdrop 2 2 4) in
  let encode := λ (_ : Raw) (_ : string), None in
  (∀ isBackground,
     (∀ i, inGrid 2 2 i → Arr.get isBackground i = true) →
     keepLargestBlob isBackground 2 2 = Some (isBackground, 0) ∧
     ∀ i, inGrid 2 2 i →
          FeatherSpec.alphaOf
            (applyEdgeSmoothing Samples.backdrop isBackground 2 2 4 2).1 i =
          Some 0) ∧
  (∃ s percent,
     runStages Samples.backdrop 2 2 4 = Some s ∧
     removeBackground decode encode "in.png" "out.png" =
       Some (Success percent) ∧
     ((∀ i, inGrid 2 2 i → Arr.get (cleanedMask s) i = true) →
      keptMask s = cleanedMask s ∧ extraRemoved s = 0 ∧
      ∀ i, inGrid 2 2 i → FeatherSpec.alphaOf (outData s) i = Some 0) ∧
     ((∀ i, inGrid 2 2 i → greyAt Samples.backdrop 4 i = true) →
      ∀ i, inGrid 2 2 i → Arr.get (cleanedMask s) i = true)).
Proof.
  apply (all_background_succeeds
           (λ _ : string, inr (mkRaw Samples.backdrop 2 2 4))
           (λ (_ : Raw) (_ : string), None)
           "in.png" "out.png" (mkRaw Samples.backdrop 2 2 4));
    (done || simpl; lia).
Defined.

(** The 2 by 2 backdrop image comes out fully transparent, with success. *)
Example backdrop_transparent :
  ∃ s, runStages Samples.backdrop 2 2 4 = Some s ∧
    keptMask s = [true; true; true; true] ∧ extraRemoved s = 0 ∧
    outData s = [112; 112; 112; 0; 112; 112; 112; 0;
                 112; 112; 112; 0; 112; 112; 112; 0].
Proof. eexists. split; [by vm_compute|]. by vm_compute. Qed.



(** * Further properties

    Properties of the stages beyond those the specification states, of
    the batch driver, and of the two functions of [smart-update.js]. *)

(** ** The reach of the shadow cleanup *)

Lemma scanPass_narrow data m width height channels :
  width ≤ 2 * Density.radius ∨ height ≤ 2 * Density.radius →
  scanPass data m width height channels = [].
Proof.
  intros H. destruct (scanPass data m width height channels) as [|e l] eqn:E;
    [done|].
  assert (e ∈ scanPass data m width height channels) as He
    by (rewrite E; left).
  apply elem_of_scanPass in He as (x & y & [Hx Hy] & _).
  unfold Density.radius in *. lia.
Qed.

(** X1. On an image at most 24 pixels wide or at most 24 pixels high no
    pixel lies 12 pixels from every edge: [densityShadowCleanup] scans
    nothing, leaves the mask as it is and returns 0. *)
Theorem cleanup_small_image (data : list Z) (isBackground : list bool)
    (width height channels : Z) :
  width ≤ 24 ∨ height ≤ 24 →
  densityShadowCleanup data isBackground width height channels =
  (isBackground, 0).
Proof.
  intros H. unfold densityShadowCleanup. simpl.
  by rewrite scanPass_narrow.
Qed.

Lemma cleanup_small_image_witness :
  densityShadowCleanup Samples.ring Samples.ringMask 5 5 4 =
  (Samples.ringMask, 0).
Proof. apply cleanup_small_image. lia. Defined.

Lemma iter_pass_origin data width height channels k m idx :
  Arr.get (Nat.iter k (DensitySpec.onePass data width height channels) m) idx
    = true →
  Arr.get m idx = true ∨
  ∃ m', idx ∈ scanPass data m' width height channels.
Proof.
  induction k as [|k IH]; [by left|]. simpl. unfold DensitySpec.onePass at 1.
  rewrite get_commit. intros [H|[H _]]; [by apply IH|].
  right. by eexists.
Qed.

(** X2. A pixel that [densityShadowCleanup] adds to the mask lies at
    least 12 pixels from every edge of the image and, when its three colour
    bytes are in the buffer, has a brightness not above 160: whatever the
    number of passes, the strip along the border and the bright pixels are
    never reclassified. *)
Theorem cleanup_reach (data : list Z) (isBackground : list bool)
    (width height channels idx : Z) :
  Arr.get (densityShadowCleanup data isBackground width height channels).1 idx
    = true →
  Arr.get isBackground idx = true ∨
  ((∃ x y, DensitySpec.interior width height x y ∧ idx = y * width + x) ∧
   ∀ brightness, brightnessAt data channels idx = Some brightness →
                 (brightness <= 160)%Q).
Proof.
  unfold densityShadowCleanup.
  destruct (cleanupPasses_iter data width height channels
              Density.passes isBackground 0) as (k & _ & -> & _).
  simpl. intros H. apply iter_pass_origin in H as [H|[m' H]]; [by left|].
  right. apply elem_of_scanPass in H as (x & y & Hi & -> & Hc).
  apply shadowCandidate_spec in Hc as (_ & Hb & _).
  split; [by exists x, y | done].
Qed.

Lemma cleanup_reach_witness :
  Arr.get Samples.speckMask 312 = true ∨
  ((∃ x y, DensitySpec.interior 25 25 x y ∧ 312 = y * 25 + x) ∧
   ∀ brightness, brightnessAt Samples.speckCentre 4 312 = Some brightness →
                 (brightness <= 160)%Q).
Proof.
  apply (cleanup_reach Samples.speckCentre Samples.speckMask 25 25 4 312).
  by vm_compute.
Defined.

Lemma sum_lengths_nonneg (f : nat → list Z) (js : list nat) :
  0 ≤ foldr (λ j acc, Z.of_nat (length (f j)) + acc) 0 js.
Proof. induction js as [|j js IH]; simpl; lia. Qed.

Lemma cleanup_nonneg data m width height channels :
  0 ≤ (densityShadowCleanup data m width height channels).2.
Proof.
  unfold densityShadowCleanup.
  destruct (cleanupPasses_iter data width height channels
              Density.passes m 0) as (k & _ & -> & _).
  simpl.
  apply (sum_lengths_nonneg (λ j, scanPass data
    (Nat.iter j (DensitySpec.onePass data width height channels) m)
    width height channels)).
Qed.

(** X3. On a mask of [width * height] entries [densityShadowCleanup]
    keeps the length of the mask, and the value it returns is the number of
    entries it has set: the count of set entries grows by exactly that
    value, which is not negative. *)
Theorem cleanup_counts_added (data : list Z) (isBackground : list bool)
    (width height channels : Z) :
  0 ≤ width → 0 ≤ height →
  length isBackground = Z.to_nat (width * height) →
  let r := densityShadowCleanup data isBackground width height channels in
  length r.1 = length isBackground ∧
  Arr.count r.1 = Arr.count isBackground + r.2 ∧
  0 ≤ r.2.
Proof.
  intros Hw Hh Hlen r.
  destruct (cleanup_count data width height channels isBackground Hw Hh Hlen)
    as [H1 H2].
  split; [done|]. split; [done|]. apply cleanup_nonneg.
Qed.

Lemma cleanup_counts_added_witness :
  let r := densityShadowCleanup Samples.speckCentre Samples.speckMask 25 25 4 in
  length r.1 = length Samples.speckMask ∧
  Arr.count r.1 = Arr.count Samples.speckMask + r.2 ∧
  0 ≤ r.2.
Proof.
  apply (cleanup_counts_added Samples.speckCentre Samples.speckMask 25 25 4);
    [lia | lia | by vm_compute].
Defined.

Lemma dropOthers_nonneg m ids n top : 0 ≤ (dropOthers m ids n top).2.
Proof.
  unfold dropOthers.
  apply (forRange_keeps (λ st : list bool * Z, 0 ≤ st.2)); [done|].
  intros i [cur extra] _ H. simpl in *.
  destruct (negb (Arr.get cur i) && otherBlob ids i top); simpl; lia.
Qed.

Lemma keepLargestBlob_nonneg m width height r :
  keepLargestBlob m width height = Some r → 0 ≤ r.2.
Proof.
  unfold keepLargestBlob.
  destruct (labelAll m width height) as [ls|]; [|done]. simpl.
  destruct (blobSizes ls); intros [= <-]; [done|]. apply dropOthers_nonneg.
Qed.

(** X4. On a mask of [width * height] entries [keepLargestBlob] returns,
    keeps the length of the mask, and the value it returns is the number of
    entries it has set: the count of set entries grows by exactly that
    value, which is not negative. *)
Theorem keepLargestBlob_counts_added (isBackground : list bool)
    (width height : Z) :
  0 < width → 0 < height →
  length isBackground = Z.to_nat (width * height) →
  ∃ mask extra,
    keepLargestBlob isBackground width height = Some (mask, extra) ∧
    length mask = length isBackground ∧
    Arr.count mask = Arr.count isBackground + extra ∧
    0 ≤ extra.
Proof.
  intros Hw Hh Hlen.
  destruct (keepLargestBlob_count isBackground width height Hw Hh Hlen)
    as ([mask extra] & Hr & Hl & Hc).
  exists mask, extra. split; [done|]. split; [done|]. split; [done|].
  apply (keepLargestBlob_nonneg _ _ _ _ Hr).
Qed.

Lemma keepLargestBlob_counts_added_witness :
  ∃ mask extra,
    keepLargestBlob [false; true; false; true; false] 5 1 =
      Some (mask, extra) ∧
    length mask = length [false; true; false; true; false] ∧
    Arr.count mask = Arr.count [false; true; false; true; false] + extra ∧
    0 ≤ extra.
Proof.
  apply (keepLargestBlob_counts_added [false; true; false; true; false] 5 1);
    [lia | lia | done].
Defined.

(** ** Masks with one component *)

Section OneComponent.

Import BlobSpec.

Variables (width height : Z).

Local Abbreviation grid := (inGrid width height).

(** A path through one mask is a path through another that is clear along
    it. *)
Lemma sameBlob_sub m m' i j :
  (∀ k, sameBlob m width height i k → Arr.get m' k = false) →
  sameBlob m width height i j → sameBlob m' width height i j.
Proof.
  intros Hsub Hij. induction Hij as [k Hk Hik Hf|k l Hkl IH Hl Ha Hf].
  - apply path_start; [done | done|].
    apply (foreground_get m' width height), Hsub. by apply path_start.
  - eapply path_step; [done | done | done|].
    apply (foreground_get m' width height), Hsub. by eapply path_step.
Qed.

Lemma foreground_dec m :
  (∀ i, grid i → Arr.get m i = true) ∨
  (∃ i, grid i ∧ Arr.get m i = false).
Proof.
  destruct (filter (λ i, Arr.get m i = false) (seqZ 0 (width * height)))
    as [|e l] eqn:E.
  - left. intros i Hi. apply not_false_iff_true. intros Hf.
    assert (i ∈ filter (λ i, Arr.get m i = false) (seqZ 0 (width * height)))
      as Hin.
    { apply list_elem_of_filter. split; [done|]. apply elem_of_seqZ.
      unfold inGrid in Hi. lia. }
    rewrite E in Hin. by apply elem_of_nil in Hin.
  - right. exists e.
    assert (e ∈ filter (λ i, Arr.get m i = false) (seqZ 0 (width * height)))
      as Hin by (rewrite E; left).
    apply list_elem_of_filter in Hin as [Hf Hin].
    apply elem_of_seqZ in Hin. split; [unfold inGrid; lia | done].
Qed.

Hypothesis width_pos : 0 < width.
Hypothesis height_pos : 0 < height.

Lemma keepLargestBlob_connected m :
  length m = Z.to_nat (width * height) →
  (∀ i j, grid i → grid j → Arr.get m i = false → Arr.get m j = false →
          sameBlob m width height i j) →
  keepLargestBlob m width height = Some (m, 0).
Proof.
  intros Hlen Hconn. destruct (foreground_dec m) as [Hall|Hex].
  { by apply keepLargestBlob_all_background. }
  destruct (keepLargestBlob_correct m width height width_pos height_pos
              Hlen Hex)
    as (mask & extra & keep & kept & Hrun & [Hk Hfk] & _ & Hget & _).
  destruct (keepLargestBlob_count m width height width_pos height_pos Hlen)
    as (r & Hr & Hl & Hc).
  rewrite Hrun in Hr. injection Hr as <-. simpl in Hl, Hc.
  assert (mask = m) as ->.
  { apply arr_ext; [done|]. intros i.
    destruct (Arr.get m i) eqn:Hm.
    - destruct (Arr.get mask i) eqn:Hmi; [done|].
      assert (grid i) as Hi.
      { apply get_true_range in Hm. unfold inGrid. rewrite Hlen in Hm. nia. }
      apply (Hget i Hi) in Hmi.
      apply sameBlob_end in Hmi as [_ ?]. congruence.
    - destruct (Arr.get mask i) eqn:Hmi; [|done].
      assert (grid i) as Hi.
      { apply get_true_range in Hmi. unfold inGrid.
        rewrite Hl, Hlen in Hmi. nia. }
      assert (Arr.get mask i = false) as Hn.
      { apply (Hget i Hi). by apply Hconn. }
      congruence. }
  rewrite Hrun. do 2 f_equal. lia.
Qed.

End OneComponent.

(** X5. When the foreground pixels of the mask form one 4-connected
    component, or there is none, [keepLargestBlob] returns 0 and leaves the
    mask as it is. *)
Theorem keepLargestBlob_single_component (isBackground : list bool)
    (width height : Z) :
  0 < width → 0 < height →
  length isBackground = Z.to_nat (width * height) →
  (∀ i j, inGrid width height i → inGrid width height j →
          Arr.get isBackground i = false → Arr.get isBackground j = false →
          BlobSpec.sameBlob isBackground width height i j) →
  keepLargestBlob isBackground width height = Some (isBackground, 0).
Proof. intros Hw Hh. by apply keepLargestBlob_connected. Qed.

Lemma keepLargestBlob_single_component_witness :
  keepLargestBlob [false; false] 2 1 = Some ([false; false], 0).
Proof.
  apply keepLargestBlob_single_component; [lia | lia | done|].
  intros i j Hi Hj _ _.
  assert (∀ k, inGrid 2 1 k →
    BlobSpec.sameBlob [false; false] 2 1 0 k) as H0.
  { intros k Hk. assert (k = 0 ∨ k = 1) as [->| ->]
      by (unfold inGrid in Hk; lia).
    - apply path_start; [done | done | done].
    - eapply (path_step _ _ _ _ 0); [by apply path_start | done | | done].
      left. by vm_compute. }
  eapply sameBlob_trans; [apply sameBlob_sym, H0 | apply H0]; done.
Defined.

Lemma keepLargestBlob_one_left (isBackground mask : list bool)
    (width height extra : Z) :
  0 < width → 0 < height →
  length isBackground = Z.to_nat (width * height) →
  keepLargestBlob isBackground width height = Some (mask, extra) →
  length mask = length isBackground ∧
  ∀ i j, inGrid width height i → inGrid width height j →
         Arr.get mask i = false → Arr.get mask j = false →
         BlobSpec.sameBlob mask width height i j.
Proof.
  intros Hw Hh Hlen Hrun.
  destruct (keepLargestBlob_count isBackground width height Hw Hh Hlen)
    as (r & Hr & Hl & _).
  rewrite Hrun in Hr. injection Hr as <-. simpl in Hl. split; [done|].
  destruct (foreground_dec width height isBackground) as [Hall|Hex].
  { rewrite (keepLargestBlob_all_background _ _ _ Hall) in Hrun.
    injection Hrun as <- <-. intros i j Hi _ Hfi _.
    rewrite Hall in Hfi; done. }
  destruct (keepLargestBlob_correct isBackground width height Hw Hh
              Hlen Hex)
    as (mask' & extra' & keep & kept & Hrun' & [Hk Hfk] & _ & Hget & _).
  rewrite Hrun in Hrun'. injection Hrun' as <- <-.
  assert (∀ k, inGrid width height k → Arr.get mask k = false →
    BlobSpec.sameBlob mask width height keep k) as Hto.
  { intros k Hkg Hkf. apply (sameBlob_sub width height isBackground).
    - intros l Hl'. apply Hget; [|done].
      by apply sameBlob_end in Hl' as [? _].
    - by apply Hget. }
  intros i j Hi Hj Hfi Hfj.
  eapply sameBlob_trans; [apply sameBlob_sym, Hto | apply Hto]; done.
Qed.

(** X6. After [keepLargestBlob] the foreground pixels of the mask form
    one 4-connected component of that mask, and [keepLargestBlob] applied
    again returns 0 and changes nothing. *)
Theorem keepLargestBlob_idempotent (isBackground mask : list bool)
    (width height extra : Z) :
  0 < width → 0 < height →
  length isBackground = Z.to_nat (width * height) →
  keepLargestBlob isBackground width height = Some (mask, extra) →
  (∀ i j, inGrid width height i → inGrid width height j →
          Arr.get mask i = false → Arr.get mask j = false →
          BlobSpec.sameBlob mask width height i j) ∧
  keepLargestBlob mask width height = Some (mask, 0).
Proof.
  intros Hw Hh Hlen Hrun.
  destruct (keepLargestBlob_one_left _ _ _ _ _ Hw Hh Hlen Hrun) as [Hl Hc].
  split; [done|].
  apply keepLargestBlob_connected; [done | done | congruence | done].
Qed.

Lemma keepLargestBlob_idempotent_witness :
  (∀ i j, inGrid 5 1 i → inGrid 5 1 j →
          Arr.get [false; true; true; true; true] i = false →
          Arr.get [false; true; true; true; true] j = false →
          BlobSpec.sameBlob [false; true; true; true; true] 5 1 i j) ∧
  keepLargestBlob [false; true; true; true; true] 5 1 =
  Some ([false; true; true; true; true], 0).
Proof.
  apply (keepLargestBlob_idempotent [false; true; false; true; false]
           [false; true; true; true; true] 5 1 2); [lia | lia | done|].
  by vm_compute.
Defined.

(** ** The two alpha levels of the feathering *)

Section Levels.

Import FeatherSpec.

Variables (isBackground : list bool) (width height : Z).
Hypothesis width_pos : 0 < width.
Hypothesis height_pos : 0 < height.

Local Abbreviation dist := (Inv.distAt isBackground width height 2).
Local Abbreviation at1 := (backgroundAt isBackground width height 1).
Local Abbreviation at2 := (backgroundAt isBackground width height 2).

Lemma backgroundAt_away i dx dy :
  inGrid width height i → Arr.get isBackground i = false →
  at2 i dx dy → 1 ≤ dx * dx + dy * dy.
Proof.
  intros [Hi0 Hi1] Hfg (_ & _ & Hget).
  destruct (coords width height width_pos height_pos i Hi0) as (_ & _ & E).
  destruct (decide (dx = 0 ∧ dy = 0)) as [[-> ->]|Hne]; [|nia].
  rewrite !Z.add_0_r, <- E in Hget. congruence.
Qed.

Lemma backgroundAt_widen i dx dy : at1 i dx dy → at2 i dx dy.
Proof. intros (Hw & Hin & Hget). split; [lia | done]. Qed.

Lemma backgroundAt_narrow i dx dy :
  at2 i dx dy → dx * dx + dy * dy < 4 → at1 i dx dy.
Proof. intros (Hw & Hin & Hget) Hd. split; [nia | done]. Qed.

Lemma dist_beside i :
  inGrid width height i → Arr.get isBackground i = false →
  (∃ dx dy, at1 i dx dy ∧ Z.abs dx + Z.abs dy = 1) → dist i = 1.
Proof.
  intros Hi Hfg (dx & dy & Hb & Hd).
  apply (distAt_nearest isBackground width height width_pos height_pos);
    [done|]. split.
  - exists dx, dy. split; [by apply backgroundAt_widen|].
    destruct Hb as ((? & ?) & _). nia.
  - intros dx' dy' Hb'. by apply (backgroundAt_away i).
Qed.

Lemma dist_corner i :
  inGrid width height i → Arr.get isBackground i = false →
  ¬ (∃ dx dy, at1 i dx dy ∧ Z.abs dx + Z.abs dy = 1) →
  (∃ dx dy, at1 i dx dy) → dist i = 2.
Proof.
  intros Hi Hfg Hno (dx & dy & Hb).
  apply (distAt_nearest isBackground width height width_pos height_pos);
    [done|]. split.
  - exists dx, dy. split; [by apply backgroundAt_widen|].
    pose proof (backgroundAt_away i dx dy Hi Hfg (backgroundAt_widen _ _ _ Hb)).
    assert (Z.abs dx + Z.abs dy ≠ 1) as Hne.
    { intros E. apply Hno. by exists dx, dy. }
    destruct Hb as ((? & ?) & _).
    assert (dx = -1 ∨ dx = 0 ∨ dx = 1) as Hx by lia.
    assert (dy = -1 ∨ dy = 0 ∨ dy = 1) as Hy by lia.
    destruct Hx as [->|[->| ->]], Hy as [->|[->| ->]]; lia.
  - intros dx' dy' Hb'.
    pose proof (backgroundAt_away i dx' dy' Hi Hfg Hb').
    destruct (decide (dx' * dx' + dy' * dy' = 1)) as [E|]; [|lia].
    exfalso. apply Hno. exists dx', dy'.
    split; [apply backgroundAt_narrow; [done | lia]|].
    destruct Hb' as ((? & ?) & _).
    assert (dx' = -2 ∨ dx' = -1 ∨ dx' = 0 ∨ dx' = 1 ∨ dx' = 2) as Hx by lia.
    assert (dy' = -2 ∨ dy' = -1 ∨ dy' = 0 ∨ dy' = 1 ∨ dy' = 2) as Hy by lia.
    destruct Hx as [->|[->|[->|[->| ->]]]], Hy as [->|[->|[->|[->| ->]]]]; lia.
Qed.

Lemma dist_clear i :
  Arr.get isBackground i = false →
  ¬ (∃ dx dy, at1 i dx dy) → 2 * 2 ≤ dist i.
Proof.
  intros Hfg Hno.
  apply (distAt_beyond isBackground width height width_pos height_pos);
    [done|].
  intros d2 [(dx & dy & Hb & ->) _].
  destruct (Z.lt_ge_cases (dx * dx + dy * dy) 4) as [Hlt|]; [|lia].
  exfalso. apply Hno. exists dx, dy. by apply backgroundAt_narrow.
Qed.

End Levels.

(** X7. With the radius 2 of the pipeline the feathering has two levels
    on a 4-channel buffer. A foreground pixel with a background pixel
    directly left, right, above or below it gets alpha 128; one with none
    there but with a background pixel on a diagonal gets alpha 180; one
    with no background pixel among its eight neighbours keeps the alpha it
    had, a background pixel two steps away not being nearer than the
    radius. *)
Theorem feather_levels (data : list Z) (isBackground : list bool)
    (width height i : Z) :
  0 < width → 0 < height →
  Z.of_nat (length data) = 4 * (width * height) →
  inGrid width height i → Arr.get isBackground i = false →
  let out := (applyEdgeSmoothing data isBackground width height 4 2).1 in
  let around dx dy :=
    FeatherSpec.backgroundAt isBackground width height 1 i dx dy in
  let beside := ∃ dx dy, around dx dy ∧ Z.abs dx + Z.abs dy = 1 in
  (beside → FeatherSpec.alphaOf out i = Some 128) ∧
  (¬ beside → (∃ dx dy, around dx dy) →
   FeatherSpec.alphaOf out i = Some 180) ∧
  (¬ (∃ dx dy, around dx dy) →
   FeatherSpec.alphaOf out i = FeatherSpec.alphaOf data i).
Proof.
  intros Hw Hh Hlen Hi Hfg out around beside. unfold out.
  rewrite feather_target by done. unfold Inv.target.
  rewrite Hfg, edgeDistances_spec by done.
  split; [|split].
  - intros Hb. by rewrite (dist_beside _ _ _ Hw Hh i Hi Hfg Hb).
  - intros Hnb Ha. by rewrite (dist_corner _ _ _ Hw Hh i Hi Hfg Hnb Ha).
  - intros Hna. pose proof (dist_clear _ _ _ Hw Hh i Hfg Hna) as Hd.
    by rewrite (proj2 (Z.ltb_ge _ _)) by done.
Qed.

Lemma feather_levels_witness :
  let out := (applyEdgeSmoothing Samples.ring Samples.ringMask 5 5 4 2).1 in
  let around dx dy :=
    FeatherSpec.backgroundAt Samples.ringMask 5 5 1 6 dx dy in
  let beside := ∃ dx dy, around dx dy ∧ Z.abs dx + Z.abs dy = 1 in
  (beside → FeatherSpec.alphaOf out 6 = Some 128) ∧
  (¬ beside → (∃ dx dy, around dx dy) →
   FeatherSpec.alphaOf out 6 = Some 180) ∧
  (¬ (∃ dx dy, around dx dy) →
   FeatherSpec.alphaOf out 6 = FeatherSpec.alphaOf Samples.ring 6).
Proof.
  apply (feather_levels Samples.ring Samples.ringMask 5 5 6);
    [lia | lia | done | by unfold inGrid | done].
Defined.

(** ** Feathering twice *)

Lemma bytes_ext (a b : list Z) :
  length a = length b →
  (∀ k, 0 ≤ k < Z.of_nat (length a) → Arr.byte a k = Arr.byte b k) → a = b.
Proof.
  intros Hlen H. apply list_eq. intros n.
  destruct (decide (n < length a)%nat) as [Hn|Hn].
  - specialize (H (Z.of_nat n) ltac:(lia)). unfold Arr.byte in H.
    destruct (Z.ltb_spec (Z.of_nat n) 0); [lia|]. by rewrite Nat2Z.id in H.
  - rewrite !(proj2 (lookup_ge_None _ _)) by lia. done.
Qed.

Lemma applyEdgeSmoothing_twice (data : list Z) (isBackground : list bool)
    (width height radius : Z) :
  0 ≤ width * height →
  Z.of_nat (length data) = 4 * (width * height) →
  let r := applyEdgeSmoothing data isBackground width height 4 radius in
  applyEdgeSmoothing r.1 isBackground width height 4 radius = r.
Proof.
  intros Hn Hlen. simpl. unfold applyEdgeSmoothing.
  set (ed := edgeDistances isBackground width height radius).
  set (r1 := forRange 0 (width * height) (paint isBackground ed 4 radius)
                      (data, 0)).
  destruct (paint_frame data isBackground ed radius (width * height) Hn 4)
    as (Hl1 & Hc1 & Hf1).
  pose proof (paint_alpha data isBackground ed radius (width * height) Hn Hlen)
    as Ha1.
  fold r1 in Hl1, Hc1, Hf1, Ha1.
  assert (Z.of_nat (length r1.1) = 4 * (width * height)) as Hlen1
    by (by rewrite Hl1).
  destruct (paint_frame r1.1 isBackground ed radius (width * height) Hn 4)
    as (Hl2 & Hc2 & Hf2).
  pose proof (paint_alpha r1.1 isBackground ed radius (width * height) Hn Hlen1)
    as Ha2.
  set (r2 := forRange 0 (width * height) (paint isBackground ed 4 radius)
                      (r1.1, 0)) in *.
  rewrite (surjective_pairing r2), (surjective_pairing r1).
  f_equal; [|congruence].
  apply bytes_ext; [done|]. intros k Hk. rewrite Hl2 in Hk.
  destruct (decide (k mod 4 = 3)) as [E|E].
  - assert (k = k / 4 * 4 + 3) as -> by (Z.div_mod_to_equations; lia).
    assert (0 ≤ k / 4 < width * height) as Hj
      by (Z.div_mod_to_equations; lia).
    rewrite Ha2, Ha1 by done. specialize (Ha1 (k / 4) Hj).
    unfold Inv.target in *.
    destruct (Arr.get isBackground (k / 4)); [done|].
    destruct (Arr.int ed (k / 4)) as [d|]; [|done].
    by destruct (d <? radius * radius).
  - apply Hf2. intros j _ ->. apply E. Z.div_mod_to_equations. lia.
Qed.

(** X8. Feathering twice is feathering once: [applyEdgeSmoothing]
    applied, with the same mask and radius, to the 4-channel buffer it has
    produced returns that buffer and the same count. *)
Theorem smoothing_idempotent (data : list Z) (isBackground : list bool)
    (width height radius : Z) :
  0 ≤ width * height →
  Z.of_nat (length data) = 4 * (width * height) →
  let r := applyEdgeSmoothing data isBackground width height 4 radius in
  applyEdgeSmoothing r.1 isBackground width height 4 radius = r.
Proof. apply applyEdgeSmoothing_twice. Qed.

Lemma smoothing_idempotent_witness :
  let r := applyEdgeSmoothing Samples.ring Samples.ringMask 5 5 4 2 in
  applyEdgeSmoothing r.1 Samples.ringMask 5 5 4 2 = r.
Proof.
  apply (smoothing_idempotent Samples.ring Samples.ringMask 5 5 2);
    [lia | done].
Defined.

(** ** The pipeline from end to end *)

(** X9. In the pipeline a pixel connected to the border through
    classifier-positive pixels is in the final mask and has alpha 0 in the
    4-channel buffer that is saved: no later stage brings it back. *)
Theorem backdrop_cleared (data : list Z) (width height i : Z) (s : Stages) :
  0 < width → 0 < height →
  Z.of_nat (length data) = 4 * (width * height) →
  runStages data width height 4 = Some s →
  borderConnected data width height 4 i →
  Arr.get (keptMask s) i = true ∧
  FeatherSpec.alphaOf (outData s) i = Some 0.
Proof.
  intros Hw Hh Hlen Hrun Hi.
  destruct (runStages_inv _ _ _ _ _ Hrun) as (H1 & H2 & H3 & H4).
  destruct (floodFill_correct data width height 4 Hw Hh)
    as (m1 & Hm1 & _ & Hreach).
  rewrite H1 in Hm1. injection Hm1 as <-.
  assert (Arr.get (cleanedMask s) i = true) as Hc.
  { pose proof (cleanup_mono data width height 4 (floodMask s) i
                  (proj2 (Hreach i) Hi)) as H.
    by rewrite H2 in H. }
  assert (Arr.get (keptMask s) i = true) as Hk.
  { destruct (keepLargestBlob_mono (cleanedMask s) width height Hw Hh)
      as (r & Hr & Hmono).
    rewrite H3 in Hr. injection Hr as <-. by apply Hmono. }
  split; [done|].
  pose proof (feather_background data (keptMask s) width height i Hw Hh Hlen
                (proj1 (pathFrom_inv _ _ _ _ _ Hi)) Hk) as Ha.
  by rewrite H4 in Ha.
Qed.

Lemma backdrop_cleared_witness :
  ∃ s, runStages Samples.ring 5 5 4 = Some s ∧
    Arr.get (keptMask s) 0 = true ∧
    FeatherSpec.alphaOf (outData s) 0 = Some 0.
Proof.
  destruct (runStages_total Samples.ring 5 5 4) as [s Hs]; [lia | lia|].
  exists s. split; [done|].
  apply (backdrop_cleared Samples.ring 5 5 0 s);
    [lia | lia | by vm_compute | exact Hs|].
  apply path_start; [unfold inGrid; lia | left; by vm_compute | by vm_compute].
Defined.

Lemma Qpercent_bounds (a n : Z) :
  0 < n → 0 ≤ a ≤ 2 * n →
  (0 <= inject_Z a / inject_Z n * 100 <= 200)%Q.
Proof.
  intros Hn Ha. destruct n as [|p|p]; [lia | | lia].
  unfold Qle, Qdiv, Qmult, Qinv, inject_Z. simpl. lia.
Qed.

(** X10. The three counts of the pipeline are not negative,
    [removedPixels] is at most the number of pixels and [allRemoved] at
    most twice that number, so that the percentage reported lies between 0
    and 200. *)
Theorem removed_bounds (data : list Z) (width height channels : Z)
    (s : Stages) :
  0 < width → 0 < height →
  runStages data width height channels = Some s →
  0 ≤ shadowCleaned s ∧ 0 ≤ extraRemoved s ∧
  0 ≤ removedPixels s ≤ width * height ∧
  0 ≤ allRemoved s ≤ 2 * (width * height) ∧
  (0 <= percentRemoved s (width * height) <= 200)%Q.
Proof.
  intros Hw Hh Hrun.
  destruct (runStages_lengths _ _ _ _ _ Hw Hh Hrun)
    as (_ & _ & Hlen & Hc2 & Hc3).
  destruct (runStages_inv _ _ _ _ _ Hrun) as (_ & H2 & H3 & H4).
  destruct (applyEdgeSmoothing_frame data (keptMask s) width height
              channels 2 ltac:(nia)) as (_ & Hcount & _).
  rewrite H4 in Hcount. simpl in Hcount.
  rewrite count_take_all in Hcount by lia.
  pose proof (cleanup_nonneg data (floodMask s) width height channels) as Hs.
  rewrite H2 in Hs. simpl in Hs.
  pose proof (keepLargestBlob_nonneg _ _ _ _ H3) as He. simpl in He.
  pose proof (count_bounds (keptMask s)) as Hk. rewrite Hlen in Hk.
  pose proof (count_bounds (floodMask s)) as Hf.
  assert (0 ≤ allRemoved s ≤ 2 * (width * height)) as Hall
    by (unfold allRemoved; nia).
  split; [done|]. split; [done|]. split; [nia|]. split; [done|].
  apply Qpercent_bounds; [nia | done].
Qed.

Lemma removed_bounds_witness :
  ∃ s, runStages Samples.stripe 5 1 4 = Some s ∧
    0 ≤ shadowCleaned s ∧ 0 ≤ extraRemoved s ∧
    0 ≤ removedPixels s ≤ 5 * 1 ∧
    0 ≤ allRemoved s ≤ 2 * (5 * 1) ∧
    (0 <= percentRemoved s (5 * 1) <= 200)%Q.
Proof.
  destruct (runStages_total Samples.stripe 5 1 4) as [s Hs]; [lia | lia|].
  exists s. split; [done|].
  apply (removed_bounds Samples.stripe 5 1 4 s); [lia | lia | exact Hs].
Defined.

(** ** What the masks read of the buffer *)

Section SameColours.

Variables (data data' : list Z) (width height channels : Z).

(** The two buffers hold the same three colour bytes at every pixel. *)
Hypothesis same_colours :
  ∀ i k, 0 ≤ k < 3 →
    Arr.byte data (i * channels + k) = Arr.byte data' (i * channels + k).

Lemma greyAt_ext i : greyAt data channels i = greyAt data' channels i.
Proof.
  pose proof (same_colours i 0 ltac:(lia)) as E0. rewrite Z.add_0_r in E0.
  unfold greyAt. cbv zeta. by rewrite E0, !same_colours by lia.
Qed.

Lemma brightnessAt_ext i :
  brightnessAt data channels i = brightnessAt data' channels i.
Proof.
  pose proof (same_colours i 0 ltac:(lia)) as E0. rewrite Z.add_0_r in E0.
  unfold brightnessAt. cbv zeta. by rewrite E0, !same_colours by lia.
Qed.

Lemma fillLoop_ext fuel st :
  fillLoop data width height channels fuel st =
  fillLoop data' width height channels fuel st.
Proof.
  revert st. induction fuel as [|fuel IH]; intros st; simpl; [done|].
  destruct (queue st) as [|idx rest]; [done|].
  rewrite IH. unfold fillVisit. by rewrite greyAt_ext.
Qed.

Lemma floodFillBackground_ext :
  floodFillBackground data width height channels =
  floodFillBackground data' width height channels.
Proof. unfold floodFillBackground. by rewrite fillLoop_ext. Qed.

Lemma scanPass_ext m :
  scanPass data m width height channels =
  scanPass data' m width height channels.
Proof.
  unfold scanPass. apply forRange_ext. intros y q _.
  apply forRange_ext. intros x q' _.
  unfold shadowCandidate. by rewrite brightnessAt_ext.
Qed.

Lemma cleanupPasses_ext n m t :
  cleanupPasses n data m width height channels t =
  cleanupPasses n data' m width height channels t.
Proof.
  revert m t. induction n as [|n IH]; intros m t; simpl; [done|].
  rewrite scanPass_ext. destruct (scanPass data' m width height channels);
    [done | apply IH].
Qed.

Lemma densityShadowCleanup_ext m :
  densityShadowCleanup data m width height channels =
  densityShadowCleanup data' m width height channels.
Proof. apply cleanupPasses_ext. Qed.

End SameColours.

(** X11. The masks are computed from the colour bytes alone, which the
    pipeline never writes: the pixel stages applied to the 4-channel buffer
    they have produced find the same masks, return the same counts and
    leave that buffer as it is. *)
Theorem pipeline_idempotent (data : list Z) (width height : Z) (s : Stages) :
  0 < width → 0 < height →
  Z.of_nat (length data) = 4 * (width * height) →
  runStages data width height 4 = Some s →
  runStages (outData s) width height 4 = Some s.
Proof.
  intros Hw Hh Hlen Hrun.
  destruct (runStages_inv _ _ _ _ _ Hrun) as (H1 & H2 & H3 & H4).
  destruct (applyEdgeSmoothing_frame data (keptMask s) width height 4 2
              ltac:(nia)) as (_ & _ & Hframe).
  rewrite H4 in Hframe. simpl in Hframe.
  assert (∀ i k, 0 ≤ k < 3 →
    Arr.byte (outData s) (i * 4 + k) = Arr.byte data (i * 4 + k)) as Hsame.
  { intros i k Hk. apply Hframe. intros j _. lia. }
  pose proof (applyEdgeSmoothing_twice data (keptMask s) width height 2
                ltac:(nia) Hlen) as Htwice.
  rewrite H4 in Htwice. simpl in Htwice.
  unfold runStages.
  rewrite (floodFillBackground_ext _ data _ _ _ Hsame), H1. simpl.
  rewrite (densityShadowCleanup_ext _ data _ _ _ Hsame), H2, H3. simpl.
  rewrite Htwice. by destruct s.
Qed.

Lemma pipeline_idempotent_witness :
  ∃ s, runStages Samples.ring 5 5 4 = Some s ∧
       runStages (outData s) 5 5 4 = Some s.
Proof.
  destruct (runStages_total Samples.ring 5 5 4) as [s Hs]; [lia | lia|].
  exists s. split; [done|].
  apply (pipeline_idempotent Samples.ring 5 5 s);
    [lia | lia | by vm_compute | exact Hs].
Defined.

(** ** An image without backdrop on its border *)

Lemma pathFrom_source width height src ok i :
  pathFrom width height src ok i →
  ∃ s, inGrid width height s ∧ src s ∧ ok s = true.
Proof. induction 1 as [s ? ? ?|]; [by exists s | done]. Qed.

Section Clear.

Import BlobSpec.

Variables (width height : Z).
Hypothesis width_pos : 0 < width.
Hypothesis height_pos : 0 < height.

Local Abbreviation total := (Z.to_nat (width * height)).
Local Abbreviation clear := (replicate total false).

Lemma clear_row (n : nat) :
  Z.of_nat n < width → sameBlob clear width height 0 (0 * width + Z.of_nat n).
Proof.
  intros Hn. induction n as [|n IH].
  - apply path_start; [unfold inGrid; nia | done|].
    apply (foreground_get _ width height), get_replicate_false.
  - eapply path_step; [apply IH; lia | apply grid_of; lia | |].
    + destruct (coords_of width height width_pos height_pos (Z.of_nat n) 0
                  ltac:(lia) ltac:(lia)) as [Hc1 Hr1].
      destruct (coords_of width height width_pos height_pos (Z.of_nat (S n)) 0
                  ltac:(lia) ltac:(lia)) as [Hc2 Hr2].
      left. rewrite Hc1, Hr1, Hc2, Hr2. lia.
    + apply (foreground_get _ width height), get_replicate_false.
Qed.

Lemma clear_column (x : Z) (k : nat) :
  0 ≤ x < width → Z.of_nat k < height →
  sameBlob clear width height 0 (Z.of_nat k * width + x).
Proof.
  intros Hx Hk. induction k as [|k IH].
  - rewrite <- (Z2Nat.id x) by lia. apply clear_row. lia.
  - eapply path_step; [apply IH; lia | apply grid_of; lia | |].
    + destruct (coords_of width height width_pos height_pos x (Z.of_nat k)
                  ltac:(lia) ltac:(lia)) as [Hc1 Hr1].
      destruct (coords_of width height width_pos height_pos x (Z.of_nat (S k))
                  ltac:(lia) ltac:(lia)) as [Hc2 Hr2].
      right. rewrite Hc1, Hr1, Hc2, Hr2. lia.
    + apply (foreground_get _ width height), get_replicate_false.
Qed.

Lemma clear_connected i j :
  inGrid width height i → inGrid width height j →
  sameBlob clear width height i j.
Proof.
  assert (∀ k, inGrid width height k → sameBlob clear width height 0 k) as H0.
  { intros k Hk.
    pose proof (row_bound width height width_pos height_pos k Hk).
    destruct (coords width height width_pos height_pos k (proj1 Hk))
      as (Hc & Hr & E).
    rewrite E, <- (Z2Nat.id (rowOf width k)) by lia.
    apply clear_column; lia. }
  intros Hi Hj. eapply sameBlob_trans; [apply sameBlob_sym|]; by apply H0.
Qed.

Lemma keepLargestBlob_clear :
  keepLargestBlob clear width height = Some (clear, 0).
Proof.
  apply keepLargestBlob_connected; [done | done | apply length_replicate|].
  intros i j Hi Hj _ _. by apply clear_connected.
Qed.

Lemma scanPass_clear data channels :
  scanPass data clear width height channels = [].
Proof.
  destruct (scanPass data clear width height channels) as [|e l] eqn:E;
    [done|].
  assert (e ∈ scanPass data clear width height channels) as He
    by (rewrite E; left).
  apply elem_of_scanPass in He as (x & y & _ & _ & Hc).
  apply shadowCandidate_spec in Hc as (_ & _ & Hf). exfalso.
  unfold DensitySpec.backgroundFraction, DensitySpec.markedPoints in Hf.
  rewrite filter_none in Hf.
  - rewrite length_samplePoints in Hf. by vm_compute in Hf.
  - intros p _. unfold DensitySpec.marked. by rewrite get_replicate_false.
Qed.

Lemma densityShadowCleanup_clear data channels :
  densityShadowCleanup data clear width height channels = (clear, 0).
Proof.
  unfold densityShadowCleanup. simpl. by rewrite scanPass_clear.
Qed.

Lemma distAt_clear i : Inv.distAt clear width height 2 i = Feather.far.
Proof.
  unfold Inv.distAt. rewrite get_replicate_false.
  destruct (windowMin_least clear width height 2
              (colOf width i) (rowOf width i) Feather.far ltac:(lia))
    as (_ & _ & [?|(dx & dy & _ & [_ Hget] & _)]); [done|].
  by rewrite get_replicate_false in Hget.
Qed.

Lemma applyEdgeSmoothing_clear data channels :
  applyEdgeSmoothing data clear width height channels 2 = (data, 0).
Proof.
  unfold applyEdgeSmoothing.
  apply (forRange_keeps (λ st, st = (data, 0))); [done|].
  intros i st Hi ->. unfold paint. rewrite get_replicate_false.
  rewrite (edgeDistances_spec clear width height 2 width_pos height_pos i)
    by (unfold inGrid; lia).
  by rewrite distAt_clear.
Qed.

End Clear.

(** X12. When no pixel on the border of the image satisfies the
    classifier nothing is removed: the three masks are empty, the three
    counts are 0, the buffer is returned as it was given, and the
    percentage reported is 0. *)
Theorem no_backdrop_unchanged (data : list Z) (width height channels : Z) :
  0 < width → 0 < height →
  (∀ i, inGrid width height i → onEdge width height i →
        greyAt data channels i = false) →
  let clear := replicate (Z.to_nat (width * height)) false in
  runStages data width height channels =
    Some (mkStages clear clear 0 clear 0 data 0) ∧
  (percentRemoved (mkStages clear clear 0 clear 0 data 0) (width * height)
   == 0)%Q.
Proof.
  intros Hw Hh Hedge clear.
  assert (runStages data width height channels =
          Some (mkStages clear clear 0 clear 0 data 0)) as Hrun.
  { unfold runStages.
    destruct (floodFill_correct data width height channels Hw Hh)
      as (m1 & -> & Hlen & Hreach).
    assert (m1 = clear) as ->.
    { unfold clear. apply arr_ext; [by rewrite length_replicate|]. intros i.
      rewrite get_replicate_false. apply not_true_is_false. intros Hi.
      apply Hreach, pathFrom_source in Hi as (e & He & Hon & Hg).
      by rewrite Hedge in Hg. }
    simpl. unfold clear.
    rewrite densityShadowCleanup_clear, keepLargestBlob_clear by done. simpl.
    by rewrite applyEdgeSmoothing_clear. }
  split; [done|]. unfold percentRemoved, allRemoved. simpl.
  destruct (width * height); by vm_compute.
Qed.

Lemma no_backdrop_unchanged_witness :
  let clear := replicate (Z.to_nat (1 * 1)) false in
  runStages (Samples.px 255) 1 1 4 =
    Some (mkStages clear clear 0 clear 0 (Samples.px 255) 0) ∧
  (percentRemoved (mkStages clear clear 0 clear 0 (Samples.px 255) 0)
     (1 * 1) == 0)%Q.
Proof.
  apply (no_backdrop_unchanged (Samples.px 255) 1 1 4); [lia | lia|].
  intros i Hi _. assert (i = 0) as -> by (unfold inGrid in Hi; lia).
  by vm_compute.
Defined.


(** ** The batch driver *)

Example endsWith_samples :
  endsWith "plate.png" ".png" = true ∧ endsWith "plate.PNG" ".png" = false ∧
  endsWith "png" ".png" = false ∧ endsWith ".png" ".png" = true.
Proof. by vm_compute. Qed.

Section MainFacts.

Import Batch.

Variable World : Type.
Variable existsSync : World → string → bool.
Variable mkdirSync : World → string → option World.
Variable readdirSync : World → string → option (list string).
Variable join : string → string → string.
Variable remove : World → string → string → Result * World.
Variables (baseDir outputDir : string).

Local Abbreviation State := (State World).
Local Abbreviation file_ := (processFile World join remove).
Local Abbreviation day_ :=
  (processDay World existsSync mkdirSync readdirSync join remove
              baseDir outputDir).
Local Abbreviation days_ :=
  (processDays World existsSync mkdirSync readdirSync join remove
               baseDir outputDir).
Local Abbreviation tally := (tallied World join baseDir outputDir).

Lemma processFile_steps dayIn dayOut (st : State) files :
  let st' := foldl (file_ dayIn dayOut) st files in
  calls st' =
    calls st ++ ((λ file, (join dayIn file, join dayOut file)) <$> files) ∧
  processed st ≤ processed st' ∧ errors st ≤ errors st' ∧
  processed st' + errors st' =
    processed st + errors st + Z.of_nat (length files).
Proof.
  simpl. revert st. induction files as [|f files IH]; intros st.
  - simpl. rewrite app_nil_r. split; [done | lia].
  - simpl foldl. destruct (IH (file_ dayIn dayOut st f)) as (Hc & Hp & He & Hs).
    rewrite Hc, Hs. unfold processFile in *.
    destruct (remove (world st) (join dayIn f) (join dayOut f)) as [[p|e] w];
      simpl in *; rewrite <- app_assoc; (split; [done|]); lia.
Qed.

Lemma tallied_more ds ds' (st : State) :
  ds ⊆ ds' → tally ds st → tally ds' st.
Proof.
  intros Hsub (Hp & He & Hs & Hc). split; [done|]. split; [done|].
  split; [done|]. intros i o Hio.
  destruct (Hc i o Hio) as (day & file & Hd & ?). exists day, file.
  split; [by apply Hsub | done].
Qed.

Lemma processDay_tallied ds (st st' : State) day :
  tally ds st → day_ st day = Some st' → tally (ds ++ [day]) st'.
Proof.
  intros Ht. unfold processDay.
  destruct (existsSync (world st) (join baseDir day)); simpl.
  2:{ intros [= <-]. apply (tallied_more ds); [|done].
      intros x Hx. apply elem_of_app. by left. }
  destruct (ensureDir World existsSync mkdirSync (world st)
              (join outputDir day)) as [w|]; [|done]. simpl.
  destruct (readdirSync w (join baseDir day)) as [entries|]; [|done]. simpl.
  intros [= <-].
  destruct (processFile_steps (join baseDir day) (join outputDir day)
    (mkState World w (processed st) (errors st) (calls st))
    (filter (λ f, endsWith f ".png" = true) entries)) as (Hc & Hp & He & Hs).
  simpl in *. destruct Ht as (Hp0 & He0 & Hs0 & Hc0).
  split; [lia|]. split; [lia|]. split.
  { rewrite Hs, Hc, length_app, length_fmap. lia. }
  intros i o. rewrite Hc, elem_of_app, list_elem_of_fmap.
  intros [Hio|(f & [= -> ->] & Hf)].
  - destruct (Hc0 i o Hio) as (d & f & Hd & ?). exists d, f.
    split; [apply elem_of_app; by left | done].
  - apply list_elem_of_filter in Hf as [Hpng _]. exists day, f.
    split; [apply elem_of_app; right; by apply list_elem_of_singleton | done].
Qed.

Lemma processDays_tallied ds0 ds (st st' : State) :
  tally ds0 st → days_ ds st = Some st' → tally (ds0 ++ ds) st'.
Proof.
  unfold processDays. revert ds0 st.
  induction ds as [|day ds IH]; intros ds0 st Ht.
  - simpl. intros [= <-]. by rewrite app_nil_r.
  - simpl. destruct (day_ st day) as [st1|] eqn:E.
    + intros Hrun. rewrite (assoc_L _ ds0 [day] ds : ds0 ++ day :: ds = _).
      apply (IH (ds0 ++ [day]) st1); [by eapply processDay_tallied | done].
    + intros Hrun. exfalso. revert Hrun. clear. induction ds as [|d ds IH];
        [done | simpl; apply IH].
Qed.

(** With every [fs] call returning and the day directories read the same
    whatever the rest of the file system, the calls are those of the
    listings. *)
Variable listing : string → option (list string).
Hypothesis mkdir_returns : ∀ w dir, is_Some (mkdirSync w dir).
Hypothesis exists_fixed :
  ∀ w day, day ∈ days →
    existsSync w (join baseDir day) = bool_decide (is_Some (listing day)).
Hypothesis readdir_fixed :
  ∀ w day entries, day ∈ days → listing day = Some entries →
    readdirSync w (join baseDir day) = Some entries.

Lemma processDays_calls ds (st : State) :
  ds ⊆ days →
  ∃ st', days_ ds st = Some st' ∧
    calls st' =
      calls st ++
      (ds ≫= λ day, dayCalls join baseDir outputDir day
                      (default [] (listing day))).
Proof.
  unfold processDays. revert st. induction ds as [|day ds IH]; intros st Hds.
  - exists st. simpl. by rewrite app_nil_r.
  - assert (day ∈ days) as Hday by (apply Hds; left).
    assert (ds ⊆ days) as Hrest by (intros d Hd; apply Hds; by right).
    simpl foldl.
    assert (∃ st1, day_ st day = Some st1 ∧
      calls st1 = calls st ++ dayCalls join baseDir outputDir day
                                (default [] (listing day)))
      as (st1 & -> & Hc1).
    { unfold processDay. rewrite exists_fixed by done.
      destruct (listing day) as [entries|] eqn:El.
      - rewrite bool_decide_true by done. simpl.
        assert (∃ w, ensureDir World existsSync mkdirSync (world st)
                       (join outputDir day) = Some w) as [w ->].
        { unfold ensureDir. case_match; [apply mkdir_returns | by eexists]. }
        simpl. rewrite (readdir_fixed w day entries Hday El). simpl.
        eexists. split; [done|].
        by destruct (processFile_steps (join baseDir day) (join outputDir day)
          (mkState World w (processed st) (errors st) (calls st))
          (filter (λ f, endsWith f ".png" = true) entries)) as (-> & _).
      - rewrite bool_decide_false by (by intros [? ?]). simpl.
        exists st. split; [done|]. unfold dayCalls. simpl.
        by rewrite app_nil_r. }
    simpl. destruct (IH st1 Hrest) as (st' & -> & Hc).
    exists st'. split; [done|]. rewrite Hc, Hc1.
    by rewrite <- app_assoc.
Qed.

End MainFacts.

(** X13. When [main] of [remove-grey-bg.js] completes, its two counters
    are not negative and add up to the number of calls of
    [removeBackground] it made; each call is for a file whose name ends in
    [.png], read from the directory of one of the five days under
    [public/images] and written under the same day and file name under
    [public/images_nobg]. *)
Theorem main_tally (World : Type)
    (existsSync : World → string → bool)
    (mkdirSync : World → string → option World)
    (readdirSync : World → string → option (list string))
    (join : string → string → string)
    (remove : World → string → string → Result * World)
    (dirname : string) (w : World) (st : Batch.State World) :
  Batch.main World existsSync mkdirSync readdirSync join remove dirname w =
    Some st →
  0 ≤ Batch.processed st ∧ 0 ≤ Batch.errors st ∧
  Batch.processed st + Batch.errors st = Z.of_nat (length (Batch.calls st)) ∧
  ∀ input output, (input, output) ∈ Batch.calls st →
    ∃ day file, day ∈ Batch.days ∧ endsWith file ".png" = true ∧
      input = join (join (join (join dirname "public") "images") day) file ∧
      output =
        join (join (join (join dirname "public") "images_nobg") day) file.
Proof.
  unfold Batch.main.
  destruct (Batch.ensureDir World existsSync mkdirSync w _) as [w'|]; [|done].
  simpl. intros Hrun.
  apply (processDays_tallied World existsSync mkdirSync readdirSync join
           remove _ _ [] Batch.days _ st) in Hrun; [done|].
  split; [done|]. split; [done|]. split; [done|].
  intros i o Hio. by apply elem_of_nil in Hio.
Qed.

Lemma main_tally_witness :
  ∃ st,
    Batch.main unit (λ _, Samples.present) (λ w _, Some w)
      (λ _, Samples.listing) Samples.slash
      (λ w input _, (Samples.outcome input, w)) "" tt = Some st ∧
    Batch.processed st = 2 ∧ Batch.errors st = 1 ∧
    0 ≤ Batch.processed st ∧ 0 ≤ Batch.errors st ∧
    Batch.processed st + Batch.errors st =
      Z.of_nat (length (Batch.calls st)) ∧
    ∀ input output, (input, output) ∈ Batch.calls st →
      ∃ day file, day ∈ Batch.days ∧ endsWith file ".png" = true ∧
        input =
          Samples.slash (Samples.slash (Samples.slash
            (Samples.slash "" "public") "images") day) file ∧
        output =
          Samples.slash (Samples.slash (Samples.slash
            (Samples.slash "" "public") "images_nobg") day) file.
Proof.
  eexists. split; [by vm_compute|]. split; [done|]. split; [done|].
  apply (main_tally unit (λ _, Samples.present) (λ w _, Some w)
           (λ _, Samples.listing) Samples.slash
           (λ w input _, (Samples.outcome input, w)) "" tt).
  by vm_compute.
Defined.

(** X14. If no call of [fs] throws and the day directories under
    [public/images] read the same during the whole run, [main] completes
    and the calls of [removeBackground] it made are, from monday to friday
    and within a day in the order of the listing, exactly the [.png]
    entries of the day directories that exist: a missing directory and an
    entry with another ending give no call. *)
Theorem main_calls (World : Type)
    (existsSync : World → string → bool)
    (mkdirSync : World → string → option World)
    (readdirSync : World → string → option (list string))
    (join : string → string → string)
    (remove : World → string → string → Result * World)
    (dirname : string) (w : World)
    (listing : string → option (list string)) :
  let baseDir := join (join dirname "public") "images" in
  let outputDir := join (join dirname "public") "images_nobg" in
  (∀ w dir, is_Some (mkdirSync w dir)) →
  (∀ w day, day ∈ Batch.days →
     existsSync w (join baseDir day) = bool_decide (is_Some (listing day))) →
  (∀ w day entries, day ∈ Batch.days → listing day = Some entries →
     readdirSync w (join baseDir day) = Some entries) →
  ∃ st,
    Batch.main World existsSync mkdirSync readdirSync join remove dirname w =
      Some st ∧
    Batch.calls st =
      (Batch.days ≫= λ day,
         (λ file, (join (join baseDir day) file,
                   join (join outputDir day) file)) <$>
         filter (λ f, endsWith f ".png" = true) (default [] (listing day))) ∧
    Batch.processed st + Batch.errors st =
      Z.of_nat (length (Batch.calls st)).
Proof.
  intros baseDir outputDir Hmk Hex Hread. unfold Batch.main.
  assert (∃ w', Batch.ensureDir World existsSync mkdirSync w outputDir =
                Some w') as [w' Hw'].
  { unfold Batch.ensureDir. case_match; [apply Hmk | by eexists]. }
  fold baseDir outputDir. rewrite Hw'. simpl.
  destruct (processDays_calls World existsSync mkdirSync readdirSync join
    remove baseDir outputDir listing Hmk Hex Hread Batch.days
    (Batch.mkState World w' 0 0 []) ltac:(done)) as (st & Hrun & Hc).
  exists st. split; [done|]. split; [done|].
  apply (processDays_tallied World existsSync mkdirSync readdirSync join
           remove baseDir outputDir [] Batch.days _ st) in Hrun; [by destruct Hrun as (_ & _ & ? & _)|].
  split; [done|]. split; [done|]. split; [done|].
  intros i o Hio. by apply elem_of_nil in Hio.
Qed.

Lemma is_Some_bool {A} (o : option A) :
  match o with Some _ => true | None => false end = bool_decide (is_Some o).
Proof.
  destruct o; [by rewrite bool_decide_true|].
  by rewrite bool_decide_false by (by intros [? ?]).
Qed.

Lemma main_calls_witness :
  ∃ st,
    Batch.main unit (λ _, Samples.present) (λ w _, Some w)
      (λ _, Samples.listing) Samples.slash
      (λ w input _, (Samples.outcome input, w)) "" tt = Some st ∧
    Batch.calls st =
      (Batch.days ≫= λ day,
         (λ file,
            (Samples.slash (Samples.slash "/public/images" day) file,
             Samples.slash (Samples.slash "/public/images_nobg" day) file))
         <$> filter (λ f, endsWith f ".png" = true)
               (default [] (Samples.listing
                              (Samples.slash "/public/images" day)))) ∧
    Batch.processed st + Batch.errors st =
      Z.of_nat (length (Batch.calls st)).
Proof.
  apply (main_calls unit (λ _, Samples.present) (λ w _, Some w)
           (λ _, Samples.listing) Samples.slash
           (λ w input _, (Samples.outcome input, w)) "" tt
           (λ day, Samples.listing (Samples.slash "/public/images" day))).
  - by eexists.
  - intros _ day _. unfold Samples.present.
    apply is_Some_bool.
  - intros _ day entries _ H. exact H.
Defined.

(** ** The single-image cut-out *)

Lemma clearAlpha_paint data isBg n channels radius :
  clearAlpha data isBg n channels =
  (forRange 0 n (paint isBg [] channels radius) (data, 0)).1.
Proof.
  unfold clearAlpha, forRange. generalize (seqZ 0 n). intros l.
  assert (∀ d c,
    foldl (λ d i, if Arr.get isBg i
                  then Arr.setByte d (i * channels + 3) 0 else d) d l =
    (foldl (λ s i, paint isBg [] channels radius i s) (d, c) l).1) as H;
    [|apply H].
  induction l as [|i l IH]; intros d c; [done|].
  simpl. destruct (Arr.get isBg i); simpl; [apply IH|].
  unfold Arr.int, Arr.byte. destruct (i <? 0); apply IH.
Qed.

(** X15. The cut-out of [removeBgSingle] is a hard one. On the 4-channel
    buffer of an image of positive dimensions its pixel statements return;
    the mask they compute holds every pixel connected to the border through
    classifier-positive pixels; the alpha byte of a pixel is 0 when the
    pixel is in the mask and is left as it was otherwise; the buffer keeps
    its length and no other byte changes. *)
Theorem removeBgSingle_cutout (data : list Z) (width height : Z) :
  0 < width → 0 < height →
  Z.of_nat (length data) = 4 * (width * height) →
  ∃ isBg out,
    removeBgSinglePixels data width height 4 = Some (isBg, out) ∧
    length out = length data ∧
    (∀ i, borderConnected data width height 4 i → Arr.get isBg i = true) ∧
    (∀ i, inGrid width height i →
          FeatherSpec.alphaOf out i =
          if Arr.get isBg i then Some 0 else FeatherSpec.alphaOf data i) ∧
    (∀ k, (∀ j, 0 ≤ j < width * height → k ≠ j * 4 + 3) →
          Arr.byte out k = Arr.byte data k).
Proof.
  intros Hw Hh Hlen. unfold removeBgSinglePixels.
  destruct (floodFill_correct data width height 4 Hw Hh)
    as (m1 & -> & _ & Hreach).
  simpl.
  destruct (keepLargestBlob_mono m1 width height Hw Hh)
    as ([m2 extra] & -> & Hmono).
  simpl in *. exists m2, (clearAlpha data m2 (width * height) 4).
  split; [done|]. rewrite (clearAlpha_paint _ _ _ _ 0).
  destruct (paint_frame data m2 [] 0 (width * height) ltac:(nia) 4)
    as (Hl & _ & Hframe).
  split; [done|]. split; [|split; [|done]].
  - intros i Hi. by apply Hmono, Hreach.
  - intros i Hi. unfold FeatherSpec.alphaOf.
    rewrite (paint_alpha data m2 [] 0 (width * height) ltac:(nia) Hlen i Hi).
    unfold Inv.target. destruct (Arr.get m2 i); [done|].
    unfold Arr.int, Arr.byte at 1. by destruct (i <? 0).
Qed.

Lemma removeBgSingle_cutout_witness :
  ∃ isBg out,
    removeBgSinglePixels Samples.ring 5 5 4 = Some (isBg, out) ∧
    length out = length Samples.ring ∧
    (∀ i, borderConnected Samples.ring 5 5 4 i → Arr.get isBg i = true) ∧
    (∀ i, inGrid 5 5 i →
          FeatherSpec.alphaOf out i =
          if Arr.get isBg i then Some 0
          else FeatherSpec.alphaOf Samples.ring i) ∧
    (∀ k, (∀ j, 0 ≤ j < 5 * 5 → k ≠ j * 4 + 3) →
          Arr.byte out k = Arr.byte Samples.ring k).
Proof.
  apply (removeBgSingle_cutout Samples.ring 5 5); [lia | lia | by vm_compute].
Defined.

(** ** The images to regenerate *)

Lemma foldl_app_bind {A B} (g : B → list A) (l : list B) (acc : list A) :
  foldl (λ acc x, acc ++ g x) acc l = acc ++ (l ≫= g).
Proof.
  revert acc. induction l as [|x l IH]; intros acc; simpl.
  - by rewrite app_nil_r.
  - by rewrite IH, app_assoc.
Qed.

Lemma bind_eq_nil {A B} (g : B → list A) (l : list B) :
  l ≫= g = [] ↔ ∀ x, x ∈ l → g x = [].
Proof.
  induction l as [|x l IH]; simpl.
  - split; [|done]. intros _ x Hx. by apply elem_of_nil in Hx.
  - split.
    + intros H. apply app_eq_nil in H as [Hx Hl]. intros y Hy.
      apply elem_of_cons in Hy as [->|Hy]; [done | by apply IH].
    + intros H. rewrite (H x) by left. simpl. apply IH.
      intros y Hy. apply H. by right.
Qed.

Section ChangesFacts.

Import Menu.

Variable toLowerCase : string → string.
Variable imageExists : string → string → bool.

Local Abbreviation getMainDishes_ := (getMainDishes toLowerCase).
Local Abbreviation mainDish_ := (mainDish toLowerCase).
Local Abbreviation findChanges_ := (findChanges toLowerCase imageExists).
Local Abbreviation dayChanges_ := (dayChanges toLowerCase imageExists).

Lemma getMainDishes_at canteenData day :
  day ∈ DAY_ORDER →
  dishAt (getMainDishes_ canteenData) day = mainDish_ canteenData day.
Proof.
  intros Hday. unfold dishAt, getMainDishes, DAY_ORDER in *. simpl foldl.
  repeat (apply elem_of_cons in Hday as [->|Hday];
          [by repeat (rewrite lookup_insert_eq || rewrite lookup_insert_ne by done)|]).
  by apply elem_of_nil in Hday.
Qed.

Lemma findChanges_bind oldMenu newMenu :
  findChanges_ oldMenu newMenu =
  newMenu ≫= λ '(canteenName, newCanteen),
    DAY_ORDER ≫= dayChanges_ oldMenu canteenName newCanteen.
Proof.
  unfold findChanges.
  rewrite <- (app_nil_l (newMenu ≫= _)), <- foldl_app_bind.
  apply foldl_ext_in. intros changes [canteenName newCanteen] _.
  rewrite <- foldl_app_bind. unfold dayChanges.
  destruct (oldMenu ≫= _) as [oldCanteen|].
  - apply foldl_ext_in. intros acc day _.
    destruct (dishAt _ day) as [newDish|]; [|by rewrite app_nil_r].
    case_match; [done | by rewrite app_nil_r].
  - apply foldl_ext_in. intros acc day _.
    case_match; [done | by rewrite app_nil_r].
Qed.

Lemma dayChanges_length oldMenu canteenName newCanteen day :
  (length (dayChanges_ oldMenu canteenName newCanteen day) ≤ 1)%nat.
Proof. unfold dayChanges. repeat case_match; simpl; lia. Qed.


Lemma truthy_nonempty s : truthy s = true ↔ s ≠ EmptyString.
Proof. unfold truthy. rewrite negb_true_iff. apply String.eqb_neq. Qed.

Lemma mainDish_nonempty canteenData day d :
  mainDish_ canteenData day = Some d → d ≠ EmptyString.
Proof.
  unfold mainDish. destruct (find isMain _) as [m|]; [|done].
  destruct (truthy (dish m)) eqn:E; [|done].
  intros [= <-]. by apply truthy_nonempty.
Qed.

End ChangesFacts.

Lemma bind_length_bound {A B} (g : B → list A) (l : list B) (n : nat) :
  (∀ x, length (g x) ≤ n)%nat → (length (l ≫= g) ≤ n * length l)%nat.
Proof.
  intros Hg. induction l as [|x l IH]; [simpl; lia|].
  rewrite bind_cons, length_app. specialize (Hg x). simpl length. lia.
Qed.

(** X16. [findChanges] lists at most five changes for each canteen of the
    new menu: the number of skipped images that [main] of [smart-update.js]
    prints is not negative and at most five times the number of
    canteens. *)
Theorem findChanges_bound (toLowerCase : string → string)
    (imageExists : string → string → bool)
    (oldMenu : option Menu.Canteens) (newMenu : Menu.Canteens) :
  let changes := Menu.findChanges toLowerCase imageExists oldMenu newMenu in
  0 ≤ Menu.skipped newMenu changes ≤ 5 * Z.of_nat (length newMenu).
Proof.
  simpl. unfold Menu.skipped. rewrite findChanges_bind.
  match goal with
  | |- context [length (newMenu ≫= ?f)] =>
      enough (length (newMenu ≫= f) ≤ 5 * length newMenu)%nat as HH;
        [revert HH; generalize (length (newMenu ≫= f)); intros n; lia|]
  end.
  apply bind_length_bound. intros [name c].
  apply (bind_length_bound _ Menu.DAY_ORDER 1), dayChanges_length.
Qed.

(** X17. Let no canteen of the new menu that has no entry in the old menu
    be named like a member of [Object.prototype], a name at which the
    lookup in the old menu reads that member and [findChanges] throws.
    Then [findChanges] returns no change exactly when, for every canteen
    of the new menu and every day of the week: if the canteen is not in the
    old menu (or there is no old menu), the English items of the day hold
    no main item; if it is, and the day has a main dish, the old menu has
    the same main dish on that day, the week labels of the two menus are
    the same, and the cut-out image exists. *)
Theorem findChanges_none (toLowerCase : string → string)
    (imageExists : string → string → bool)
    (oldMenu : option Menu.Canteens) (newMenu : Menu.Canteens) :
  (∀ canteens canteenName newCanteen,
     oldMenu = Some canteens → (canteenName, newCanteen) ∈ newMenu →
     Menu.canteenOf canteens canteenName = None →
     canteenName ∉ Menu.objectPrototype) →
  Menu.findChanges toLowerCase imageExists oldMenu newMenu = [] ↔
  ∀ canteenName newCanteen day,
    (canteenName, newCanteen) ∈ newMenu → day ∈ Menu.DAY_ORDER →
    match oldMenu ≫= (λ canteens, Menu.canteenOf canteens canteenName) with
    | None =>
        find Menu.isMain
          (default [] (Menu.entryOf toLowerCase newCanteen day ≫= Menu.en)) =
        None
    | Some oldCanteen =>
        ∀ newDish,
          Menu.dishAt (Menu.getMainDishes toLowerCase newCanteen) day =
            Some newDish →
          Menu.dishAt (Menu.getMainDishes toLowerCase oldCanteen) day =
            Some newDish ∧
          default EmptyString (Menu.week oldCanteen) =
            default EmptyString (Menu.week newCanteen) ∧
          imageExists canteenName day = true
    end.
Proof.
  intros _.
  rewrite findChanges_bind, bind_eq_nil.
  assert (∀ name c day,
    Menu.dayChanges toLowerCase imageExists oldMenu name c day = [] ↔
    match oldMenu ≫= (λ canteens, Menu.canteenOf canteens name) with
    | None =>
        find Menu.isMain
          (default [] (Menu.entryOf toLowerCase c day ≫= Menu.en)) = None
    | Some oldCanteen =>
        ∀ newDish,
          Menu.dishAt (Menu.getMainDishes toLowerCase c) day = Some newDish →
          Menu.dishAt (Menu.getMainDishes toLowerCase oldCanteen) day =
            Some newDish ∧
          default EmptyString (Menu.week oldCanteen) =
            default EmptyString (Menu.week c) ∧
          imageExists name day = true
    end) as Hday.
  { intros name c day. unfold Menu.dayChanges.
    destruct (oldMenu ≫= _) as [oc|].
    - destruct (Menu.dishAt (Menu.getMainDishes toLowerCase c) day)
        as [nd|]; [|split; [by intros _ ? | done]].
      destruct (bool_decide_reflect
                  (Menu.dishAt (Menu.getMainDishes toLowerCase oc) day =
                   Some nd)) as [Ed|Ed]; simpl.
      + destruct (String.eqb (default EmptyString (Menu.week oc))
                    (default EmptyString (Menu.week c))) eqn:Ew; simpl.
        * apply String.eqb_eq in Ew.
          destruct (imageExists name day); simpl.
          -- split; [|done]. by intros _ ? [= <-].
          -- split; [done|]. intros H.
             by destruct (H nd eq_refl) as (_ & _ & ?).
        * apply String.eqb_neq in Ew. split; [done|]. intros H.
          by destruct (H nd eq_refl) as (_ & ? & _).
      + split; [done|]. intros H. by destruct (H nd eq_refl) as (? & _).
    - by destruct (find Menu.isMain _). }
  split.
  - intros H name c day Hin Hd. apply Hday.
    specialize (H (name, c) Hin).
    apply (proj1 (bind_eq_nil
      (Menu.dayChanges toLowerCase imageExists oldMenu name c)
      Menu.DAY_ORDER) H day Hd).
  - intros H [name c] Hin.
    apply (proj2 (bind_eq_nil
      (Menu.dayChanges toLowerCase imageExists oldMenu name c)
      Menu.DAY_ORDER)).
    intros day Hd. apply Hday. by apply H.
Qed.

Lemma findChanges_none_witness :
  Menu.findChanges Samples.lower (λ _ _, true)
    (Some Samples.oldMenu) Samples.quietMenu = [] ↔
  ∀ canteenName newCanteen day,
    (canteenName, newCanteen) ∈ Samples.quietMenu → day ∈ Menu.DAY_ORDER →
    match
      Some Samples.oldMenu ≫=
        (λ canteens, Menu.canteenOf canteens canteenName)
    with
    | None =>
        find Menu.isMain
          (default [] (Menu.entryOf Samples.lower newCanteen day ≫= Menu.en)) =
        None
    | Some oldCanteen =>
        ∀ newDish,
          Menu.dishAt (Menu.getMainDishes Samples.lower newCanteen) day =
            Some newDish →
          Menu.dishAt (Menu.getMainDishes Samples.lower oldCanteen) day =
            Some newDish ∧
          default EmptyString (Menu.week oldCanteen) =
            default EmptyString (Menu.week newCanteen) ∧
          (λ _ _ : string, true) canteenName day = true
    end.
Proof.
  apply (findChanges_none Samples.lower (λ _ _, true)
           (Some Samples.oldMenu) Samples.quietMenu).
  intros canteens name c [= <-] Hin Hmiss.
  unfold Samples.quietMenu, Samples.oldMenu in Hin.
  apply elem_of_cons in Hin as [[= -> ->]|Hin]; [done|].
  apply list_elem_of_singleton in Hin as [= -> ->].
  unfold Menu.objectPrototype. intros H.
  repeat (apply elem_of_cons in H as [H|H]; [done|]).
  by apply elem_of_nil in H.
Defined.

(** X18. A change that [findChanges] lists is for a canteen of the new
    menu and a day of the week. For a canteen that is not in the old menu
    it has no old dish and no reason, and its dish is that of the first
    main item among the English items of the day in the new menu; the
    Norwegian items are not consulted. For a known canteen its dish is the
    main dish of the day in the new menu and is not empty, its old dish is
    the main dish of the day in the old menu, and the dish differs from the
    old one, or the week labels differ, or the cut-out image is missing. *)
Theorem findChanges_sound (toLowerCase : string → string)
    (imageExists : string → string → bool)
    (oldMenu : option Menu.Canteens) (newMenu : Menu.Canteens)
    (change : Menu.Change) :
  change ∈ Menu.findChanges toLowerCase imageExists oldMenu newMenu →
  let canteenName := Menu.canteenName change in
  let day := Menu.changeDay change in
  ∃ newCanteen,
    (canteenName, newCanteen) ∈ newMenu ∧ day ∈ Menu.DAY_ORDER ∧
    match oldMenu ≫= (λ canteens, Menu.canteenOf canteens canteenName) with
    | None =>
        Menu.oldDish change = None ∧ Menu.reason change = None ∧
        ∃ main,
          find Menu.isMain
            (default [] (Menu.entryOf toLowerCase newCanteen day ≫= Menu.en)) =
          Some main ∧
          Menu.newDish change = Menu.dish main
    | Some oldCanteen =>
        Menu.dishAt (Menu.getMainDishes toLowerCase newCanteen) day =
          Some (Menu.newDish change) ∧
        Menu.newDish change ≠ EmptyString ∧
        Menu.oldDish change =
          Menu.dishAt (Menu.getMainDishes toLowerCase oldCanteen) day ∧
        (Menu.oldDish change ≠ Some (Menu.newDish change) ∨
         default EmptyString (Menu.week oldCanteen) ≠
           default EmptyString (Menu.week newCanteen) ∨
         imageExists canteenName day = false)
    end.
Proof.
  rewrite findChanges_bind. intros Hin. simpl.
  apply list_elem_of_bind in Hin as ([name c] & Hch & Hnc).
  apply list_elem_of_bind in Hch as (day & Hch & Hday).
  assert (Menu.canteenName change = name ∧ Menu.changeDay change = day)
    as [En Ed].
  { unfold Menu.dayChanges in Hch. repeat case_match;
      try (by apply elem_of_nil in Hch);
      by apply list_elem_of_singleton in Hch as ->. }
  rewrite En, Ed. exists c. split; [done|]. split; [done|].
  unfold Menu.dayChanges in Hch.
  destruct (oldMenu ≫= _) as [oc|].
  - destruct (Menu.dishAt (Menu.getMainDishes toLowerCase c) day)
      as [nd|] eqn:End; [|by apply elem_of_nil in Hch].
    destruct (_ || _ || _) eqn:Ec; [|by apply elem_of_nil in Hch].
    apply list_elem_of_singleton in Hch as ->. simpl.
    split; [done|]. split.
    { rewrite getMainDishes_at in End by done.
      by eapply mainDish_nonempty. }
    split; [done|].
    apply orb_true_iff in Ec as [Ec|Ec];
      [apply orb_true_iff in Ec as [Ec|Ec]|].
    + left. apply negb_true_iff in Ec. by apply bool_decide_eq_false in Ec.
    + right; left. apply negb_true_iff in Ec. by apply String.eqb_neq.
    + right; right. by apply negb_true_iff.
  - destruct (find Menu.isMain _) as [m|] eqn:Em;
      [|by apply elem_of_nil in Hch].
    apply list_elem_of_singleton in Hch as ->. simpl.
    split; [done|]. split; [done|]. by exists m.
Qed.

Lemma findChanges_sound_witness :
  let canteenName := Menu.canteenName Samples.tuesdayChange in
  let day := Menu.changeDay Samples.tuesdayChange in
  ∃ newCanteen,
    (canteenName, newCanteen) ∈ Samples.newMenu ∧ day ∈ Menu.DAY_ORDER ∧
    match
      Some Samples.oldMenu ≫=
        (λ canteens, Menu.canteenOf canteens canteenName)
    with
    | None =>
        Menu.oldDish Samples.tuesdayChange = None ∧
        Menu.reason Samples.tuesdayChange = None ∧
        ∃ main,
          find Menu.isMain
            (default [] (Menu.entryOf Samples.lower newCanteen day ≫=
                         Menu.en)) =
          Some main ∧
          Menu.newDish Samples.tuesdayChange = Menu.dish main
    | Some oldCanteen =>
        Menu.dishAt (Menu.getMainDishes Samples.lower newCanteen) day =
          Some (Menu.newDish Samples.tuesdayChange) ∧
        Menu.newDish Samples.tuesdayChange ≠ EmptyString ∧
        Menu.oldDish Samples.tuesdayChange =
          Menu.dishAt (Menu.getMainDishes Samples.lower oldCanteen) day ∧
        (Menu.oldDish Samples.tuesdayChange ≠
           Some (Menu.newDish Samples.tuesdayChange) ∨
         default EmptyString (Menu.week oldCanteen) ≠
           default EmptyString (Menu.week newCanteen) ∨
         (λ _ _ : string, true) canteenName day = false)
    end.
Proof.
  apply (findChanges_sound Samples.lower (λ _ _, true)
           (Some Samples.oldMenu) Samples.newMenu Samples.tuesdayChange).
  vm_compute. left.
Defined.

(** On the sample menus, with every cut-out in place: Tuesday of the known
    canteen is listed for its dish; of the new canteen Thursday is listed,
    and Friday, which has Norwegian items only, is not. *)
Example findChanges_sample :
  Menu.findChanges Samples.lower (λ _ _, true)
    (Some Samples.oldMenu) Samples.newMenu =
  [Samples.tuesdayChange;
   Menu.mkChange "Bygg B" "thursday" None "Pasta" None] ∧
  Menu.dishAt
    (Menu.getMainDishes Samples.lower
       (Menu.mkCanteen None
          [Menu.mkDayMenu "Friday" None (Some [Menu.mkItem "Laks" true])]))
    "friday" = Some "Laks".
Proof. by vm_compute. Qed.
